(** * variable_frequencies: lexical assignment counters for Python and R

    A shallow embedding of [py_variable_counter.py], [r_variable_counter.py]
    and [combiner.py].

    - Text is a Python [str]: a list of code points ([N]).
    - The compiled patterns of [get_python_patterns] / [get_r_patterns] are
      terms of a small regular-expression syntax, run by a backtracking
      matcher with the priorities of Python's [re] (greedy and lazy
      repetition, ordered alternation, capture groups, negative lookahead).
    - A [dict] is an association list in insertion order without repeated
      keys, which is what [dict.items()] enumerates.
    - The file system is a tree of directories whose files either hold a text
      or fail to be read. *)

From Stdlib Require Import String Ascii.
From Stdlib Require Import List Arith NArith Lia Bool.
From Stdlib Require Import Permutation Sorted DecimalString DecimalNat.
Import ListNotations.

Set Implicit Arguments.

(* ------------------------------------------------------------------ *)
(** ** Text *)

Definition text := list N.

(** The code points of an ASCII literal of the source. *)
Definition codes (s : string) : text :=
  map N_of_ascii (list_ascii_of_string s).

Fixpoint text_eqb (a b : text) : bool :=
  match a, b with
  | [], [] => true
  | x :: a', y :: b' => (x =? y)%N && text_eqb a' b'
  | _, _ => false
  end.

Definition between (lo hi c : N) : bool := (lo <=? c)%N && (c <=? hi)%N.

(** [[a-z]], [[A-Z]], [[0-9]] *)
Definition is_lower (c : N) : bool := between 97 122 c.
Definition is_upper (c : N) : bool := between 65 90 c.
Definition is_digit (c : N) : bool := between 48 57 c.
Definition is_letter (c : N) : bool := is_lower c || is_upper c.

(** [\s] on a [str] pattern: the Unicode whitespace code points. *)
Definition is_space (c : N) : bool :=
  between 9 13 c || between 28 32 c || (c =? 133)%N || (c =? 160)%N
  || (c =? 5760)%N || between 8192 8202 c || (c =? 8232)%N || (c =? 8233)%N
  || (c =? 8239)%N || (c =? 8287)%N || (c =? 12288)%N.

Definition is_char (a : ascii) (c : N) : bool := (c =? N_of_ascii a)%N.

(** Text written to a stream is encoded first.  A stream is given by the code
    points that its encoding and error handler accept; a text that holds any
    other code point makes [print] and [write] raise [UnicodeEncodeError]
    before any of it is written.  [print] writes the line and then the line
    feed. *)
Definition printable (encodable : N -> bool) (line : text) : bool :=
  forallb encodable line && encodable 10%N.

(** UTF-8 under the [strict] handler: every code point but the surrogates. *)
Definition utf8_strict (c : N) : bool :=
  (c <=? 1114111)%N && negb (between 55296 57343 c).

(* ------------------------------------------------------------------ *)
(** ** Regular expressions and the backtracking matcher *)

Inductive regex : Type :=
| Eps                                    (* the empty pattern *)
| Chr (p : N -> bool)                    (* one character of a class *)
| Seq (r1 r2 : regex)                    (* r1 r2 *)
| Alt (r1 r2 : regex)                    (* r1 | r2, r1 tried first *)
| Star (greedy : bool) (r : regex)       (* r* when greedy, r*? otherwise *)
| Group (name : string) (r : regex)      (* (?P<name>r), or (r) named by its number *)
| NotAhead (r : regex).                  (* (?!r) *)

(** [r+] *)
Definition Plus (r : regex) : regex := Seq r (Star true r).

(** A literal word of the pattern. *)
Fixpoint Lit (w : list ascii) : regex :=
  match w with
  | [] => Eps
  | [a] => Chr (is_char a)
  | a :: w' => Seq (Chr (is_char a)) (Lit w')
  end.

Definition Word (s : string) : regex := Lit (list_ascii_of_string s).

(** Captured groups, the most recent binding first. *)
Definition groups := list (string * text).

Definition result := (groups * text)%type.
Definition cont := text -> groups -> option result.

(** The repetition of [body], at most [n] times.  Every iteration must
    consume, so on a text of length at most [n] the bound is never what stops
    the loop.  A greedy repetition tries one more iteration before it tries
    the rest of the pattern, a lazy one tries the rest of the pattern first. *)
Fixpoint star_loop (greedy : bool) (body : text -> groups -> cont -> option result)
    (k : cont) (n : nat) (s : text) (g : groups) {struct n} : option result :=
  match n with
  | O => k s g
  | S n' =>
      let more (_ : unit) :=
        body s g
          (fun s' g' =>
             if length s' <? length s
             then star_loop greedy body k n' s' g' else None) in
      if greedy then
        match more tt with Some x => Some x | None => k s g end
      else
        match k s g with Some x => Some x | None => more tt end
  end.

(** [rmatch r s g k] matches [r] at the head of [s] and hands the rest of the
    text to [k]; when [k] fails the matcher backtracks into [r].  The bodies
    repeated by the patterns below never match the empty word. *)
Fixpoint rmatch (r : regex) (s : text) (g : groups) (k : cont) {struct r}
  : option result :=
  match r with
  | Eps => k s g
  | Chr p =>
      match s with
      | c :: s' => if p c then k s' g else None
      | [] => None
      end
  | Seq r1 r2 => rmatch r1 s g (fun s' g' => rmatch r2 s' g' k)
  | Alt r1 r2 =>
      match rmatch r1 s g k with
      | Some x => Some x
      | None => rmatch r2 s g k
      end
  | Star greedy r1 => star_loop greedy (rmatch r1) k (length s) s g
  | Group name r1 =>
      rmatch r1 s g
        (fun s' g' => k s' ((name, firstn (length s - length s') s) :: g'))
  | NotAhead r1 =>
      match rmatch r1 s g (fun s' g' => Some (g', s')) with
      | Some _ => None
      | None => k s g
      end
  end.

Definition accept : cont := fun s g => Some (g, s).

(** [pattern.match] at the head of [s]: the groups and the unconsumed text. *)
Definition match_here (r : regex) (s : text) : option result :=
  rmatch r s [] accept.

(** [match.group(name)] *)
Fixpoint group (g : groups) (name : string) : text :=
  match g with
  | [] => []
  | (n, v) :: g' => if String.eqb n name then v else group g' name
  end.

(** [pattern.finditer(s)]: the non-overlapping matches from left to right.
    [skip] counts the characters still inside the previous match.  After a
    match the scan resumes where it ended; none of the patterns below matches
    the empty word, so the step of one character after an empty match is
    never taken. *)
Fixpoint scan (r : regex) (skip : nat) (s : text) {struct s} : list groups :=
  match skip with
  | S k => match s with [] => [] | _ :: s' => scan r k s' end
  | O =>
      match match_here r s with
      | Some (g, rest) =>
          g :: match s with
               | [] => []
               | _ :: s' => scan r (length s - length rest - 1) s'
               end
      | None => match s with [] => [] | _ :: s' => scan r 0 s' end
      end
  end.

Definition finditer (r : regex) (s : text) : list groups := scan r 0 s.

(** The words of a pattern, read declaratively (a lookahead consumes
    nothing, and what it forbids is not recorded): every match of the
    backtracking matcher consumes such a word. *)
Fixpoint lang (r : regex) (w : text) {struct r} : Prop :=
  match r with
  | Eps => w = []
  | Chr p => exists c, w = [c] /\ p c = true
  | Seq r1 r2 => exists w1 w2, w = w1 ++ w2 /\ lang r1 w1 /\ lang r2 w2
  | Alt r1 r2 => lang r1 w \/ lang r2 w
  | Star _ r1 => exists ws, w = concat ws /\ Forall (lang r1) ws
  | Group _ r1 => lang r1 w
  | NotAhead _ => w = []
  end.

(** The patterns that bind no group: matching them leaves the groups as
    they are (what a lookahead binds is dropped). *)
Fixpoint no_groups (r : regex) : bool :=
  match r with
  | Eps | Chr _ | NotAhead _ => true
  | Seq r1 r2 | Alt r1 r2 => no_groups r1 && no_groups r2
  | Star _ r1 => no_groups r1
  | Group _ _ => false
  end.

(** Whether the pattern may match the empty word. *)
Fixpoint nullable (r : regex) : bool :=
  match r with
  | Eps | Star _ _ | NotAhead _ => true
  | Chr _ => false
  | Seq r1 r2 => nullable r1 && nullable r2
  | Alt r1 r2 => nullable r1 || nullable r2
  | Group _ r1 => nullable r1
  end.

(** Whether every repeated body of the pattern consumes at least one
    character. *)
Fixpoint star_bodies_consume (r : regex) : bool :=
  match r with
  | Eps | Chr _ => true
  | Seq r1 r2 | Alt r1 r2 => star_bodies_consume r1 && star_bodies_consume r2
  | Star _ r1 => negb (nullable r1) && star_bodies_consume r1
  | Group _ r1 | NotAhead r1 => star_bodies_consume r1
  end.

(** The text does not go on with a character of the class [p]. *)
Definition stops (p : N -> bool) (s : text) : bool :=
  match s with
  | [] => true
  | c :: _ => negb (p c)
  end.

(** The words of [[p0][p]*]. *)
Definition is_ident (p0 p : N -> bool) (id : text) : bool :=
  match id with
  | [] => false
  | c :: cs => p0 c && forallb p cs
  end.

(** The shape shared by the assignment patterns: a named identifier, spaces,
    an operator. *)
Definition assign_pattern (name : string) (p0 p : N -> bool) (oplit : string) : regex :=
  Seq (Group name (Seq (Chr p0) (Star true (Chr p))))
      (Seq (Star true (Chr is_space)) (Word oplit)).

(** [s.startswith(w)] and [w in s] *)
Fixpoint starts_with (w s : text) : bool :=
  match w, s with
  | [], _ => true
  | x :: w', y :: s' => (x =? y)%N && starts_with w' s'
  | _ :: _, [] => false
  end.

Fixpoint occurs (w s : text) : bool :=
  starts_with w s || match s with [] => false | _ :: s' => occurs w s' end.

(* ------------------------------------------------------------------ *)
(** ** Dictionaries in insertion order *)

Definition dict := list (text * nat).

(** [d.get(k, 0)] *)
Fixpoint dict_get (d : dict) (k : text) : nat :=
  match d with
  | [] => 0
  | (k', v) :: d' => if text_eqb k' k then v else dict_get d' k
  end.

(** [k in d] *)
Fixpoint dict_mem (d : dict) (k : text) : bool :=
  match d with
  | [] => false
  | (k', _) :: d' => text_eqb k' k || dict_mem d' k
  end.

(** [d[k] = v]: an existing key keeps its place, a new one goes last. *)
Fixpoint dict_set (d : dict) (k : text) (v : nat) : dict :=
  match d with
  | [] => [(k, v)]
  | (k', v') :: d' =>
      if text_eqb k' k then (k', v) :: d' else (k', v') :: dict_set d' k v
  end.

(** [d[k] = d.get(k, 0) + n] *)
Definition dict_add (d : dict) (k : text) (n : nat) : dict :=
  dict_set d k (dict_get d k + n).

(** The loop [for v in vars: d[v] = d.get(v, 0) + 1]. *)
Definition tally (d : dict) (vars : list text) : dict :=
  fold_left (fun d v => dict_add d v 1) vars d.

(** How many times [v] stands in a list of counted identifiers. *)
Definition count_of (v : text) (vars : list text) : nat :=
  length (filter (fun x => text_eqb x v) vars).

Definition keys (d : dict) : list text := map fst d.
Definition values (d : dict) : list nat := map snd d.
Definition total (l : list nat) : nat := fold_right Nat.add 0 l.

(* ------------------------------------------------------------------ *)
(** ** [sorted(items, key=..., reverse=True)] *)

Section Sorted.
Variable A : Type.
Variable key : A -> nat.

(** [x] goes before the first element whose key is not greater than its
    own: it stays ahead of the elements with the same key that came after
    it. *)
Fixpoint insert_desc (x : A) (l : list A) : list A :=
  match l with
  | [] => [x]
  | y :: l' => if key y <=? key x then x :: l else y :: insert_desc x l'
  end.

(** Python's sort is stable, also under [reverse=True]: the items come out
    by decreasing key, items of equal key in the order of the input. *)
Definition sorted_desc (l : list A) : list A := fold_right insert_desc [] l.

(** [a] may stand before [b] in a list of decreasing keys. *)
Definition desc (a b : A) : Prop := key b <= key a.
End Sorted.

(* ------------------------------------------------------------------ *)
(** ** The directory tree and [count_variables] *)

(** A directory: its sub-directories and its files by name, in the order in
    which [os.walk] lists them.  A file holds its text, or [None] when opening
    or reading it raises. *)
#[warnings="-register-all"]
Inductive dirtree : Type :=
| Dir (subdirs : list (text * dirtree)) (files : list (text * option text)).

Definition slash : N := 47.

(** [s.endswith(suffix)] *)
Definition ends_with (suffix s : text) : bool :=
  text_eqb (skipn (length s - length suffix) s) suffix.

(** [os.path.join(a, b)] *)
Definition path_join (a b : text) : text :=
  match b with
  | c :: _ => if (c =? slash)%N then b
              else if ends_with [slash] a || text_eqb a [] then a ++ b
              else a ++ slash :: b
  | [] => if ends_with [slash] a || text_eqb a [] then a else a ++ [slash]
  end.

(** [os.walk(root, topdown=True)] when the loop body prunes [dirs] in place to
    the names that [keep] accepts: the [(root, files)] of every directory
    visited. *)
Fixpoint os_walk (keep : text -> bool) (root : text) (t : dirtree) {struct t}
  : list (text * list (text * option text)) :=
  match t with
  | Dir subdirs files =>
      (root, files)
      :: (fix descend (l : list (text * dirtree)) :=
            match l with
            | [] => []
            | (d, t') :: l' =>
                (if keep d then os_walk keep (path_join root d) t' else [])
                ++ descend l'
            end) subdirs
  end.

Module Walk.
Section Counter.
(** What differs between the two counters. *)
Variable should_skip_directory : text -> bool.
Variable wanted : text -> bool.
Variable analyze_file : option text -> dict * bool.

(** The paths handed to [analyze_file], with what reading them gives. *)
Definition candidates (directory : text) (t : dirtree) : list (text * option text) :=
  flat_map (fun rf : text * list (text * option text) =>
              map (fun f => (path_join (fst rf) (fst f), snd f))
                  (filter (fun f => wanted (fst f)) (snd rf)))
           (os_walk (fun d => negb (should_skip_directory d)) directory t).

(** [for var, count in file_counts.items(): counts[var] = counts.get(var, 0) + count] *)
Definition merge_counts (counts file_counts : dict) : dict :=
  fold_left (fun c (vc : text * nat) => dict_add c (fst vc) (snd vc)) file_counts counts.

(** The global mapping folded from per-file local mappings. *)
Definition aggregate (locals : list dict) : dict :=
  fold_left merge_counts locals [].

(** What [analyze_file] returns for a candidate. *)
Definition local_counts (f : text * option text) : dict := fst (analyze_file (snd f)).
Definition succeeded (f : text * option text) : bool := snd (analyze_file (snd f)).

(** One file of the inner loop. *)
Definition visit (st : dict * list text) (f : text * option text) : dict * list text :=
  let (file_counts, success) := analyze_file (snd f) in
  (merge_counts (fst st) file_counts,
   if success then snd st ++ [fst f] else snd st).

(** [counts] and [processed_files] when the walk is over. *)
Definition scan_files (fs : list (text * option text)) : dict * list text :=
  fold_left visit fs ([], []).

Definition count_variables_in (fs : list (text * option text))
  : list (text * nat) * list text :=
  let (counts, processed_files) := scan_files fs in
  (sorted_desc snd counts, processed_files).

Definition count_variables (directory : text) (t : dirtree)
  : list (text * nat) * list text :=
  count_variables_in (candidates directory t).
End Counter.

Section Raising.
(** The per-file scan with the path it is given: [None] when an exception
    leaves it. *)
Variable run_analyze_file : text -> option text -> option (dict * bool).

(** The inner loop when the per-file scan can raise.  Nothing in
    [count_variables] catches: the walk is abandoned at the first exception
    and the function returns nothing. *)
Fixpoint run_scan_files (fs : list (text * option text)) (st : dict * list text)
  : option (dict * list text) :=
  match fs with
  | [] => Some st
  | f :: fs' =>
      match run_analyze_file (fst f) (snd f) with
      | None => None
      | Some (file_counts, success) =>
          run_scan_files fs'
            (merge_counts (fst st) file_counts,
             if success then snd st ++ [fst f] else snd st)
      end
  end.

Definition run_count_variables_in (fs : list (text * option text))
  : option (list (text * nat) * list text) :=
  match run_scan_files fs ([], []) with
  | Some (counts, processed_files) => Some (sorted_desc snd counts, processed_files)
  | None => None
  end.
End Raising.
End Walk.

(* ------------------------------------------------------------------ *)
(** ** py_variable_counter.py *)

Module Py.

(** [[a-zA-Z_][a-zA-Z0-9_]*] *)
Definition ident_start (c : N) : bool := is_letter c || is_char "_" c.
Definition ident_char (c : N) : bool := is_letter c || is_digit c || is_char "_" c.

Definition is_identifier (id : text) : bool := is_ident ident_start ident_char id.

Definition IDENTIFIER_RAW : regex := Seq (Chr ident_start) (Star true (Chr ident_char)).
Definition IDENTIFIER_NAMED : regex := Group "varname" IDENTIFIER_RAW.
Definition WHITESPACE : regex := Star true (Chr is_space).

Definition EQUALS_ASSIGN : regex :=
  Seq IDENTIFIER_NAMED (Seq WHITESPACE (Seq (Word "=") (NotAhead (Word "=")))).

Definition WALRUS_ASSIGN : regex :=
  Seq IDENTIFIER_NAMED (Seq WHITESPACE (Word ":=")).

Definition MULTI_ASSIGN : regex :=
  Seq (Group "1"
         (Seq IDENTIFIER_RAW
              (Plus (Seq WHITESPACE (Seq (Word ",") (Seq WHITESPACE IDENTIFIER_RAW))))))
      (Seq WHITESPACE (Word "=")).

(** [[+\-*/%@&|^]] *)
Definition aug_op (c : N) : bool :=
  is_char "+" c || is_char "-" c || is_char "*" c || is_char "/" c
  || is_char "%" c || is_char "@" c || is_char "&" c || is_char "|" c
  || is_char "^" c.

Definition AUGMENTED_ASSIGN : regex :=
  Seq IDENTIFIER_NAMED
      (Seq WHITESPACE
           (Group "operator"
              (Alt (Seq (Chr aug_op) (Word "="))
                   (Alt (Word "//=")
                        (Alt (Word ">>=") (Alt (Word "<<=") (Word "**="))))))).

Definition FOR_LOOP : regex :=
  Seq (Word "for")
      (Seq WHITESPACE (Seq IDENTIFIER_NAMED (Seq WHITESPACE (Word "in")))).

Definition VAR_EXTRACTOR : regex := IDENTIFIER_NAMED.

Record patterns := {
  equals : regex;
  walrus : regex;
  multi_assign : regex;
  augmented : regex;
  for_loop : regex;
  var_name : regex
}.

Definition get_python_patterns : patterns :=
  {| equals := EQUALS_ASSIGN;
     walrus := WALRUS_ASSIGN;
     multi_assign := MULTI_ASSIGN;
     augmented := AUGMENTED_ASSIGN;
     for_loop := FOR_LOOP;
     var_name := VAR_EXTRACTOR |}.

Definition skip_dirs : list text :=
  map codes [".git"; "venv"; ".venv"; "env"; "__pycache__"; "node_modules";
             ".pytest_cache"; ".mypy_cache"; ".tox"; "dist"; "build"; ".idea";
             ".vscode"; ".ipynb_checkpoints"]%string.

Definition should_skip_directory (dirname : text) : bool :=
  existsb (fun d => text_eqb d dirname) skip_dirs.

(** The keywords skipped by the loop over the [equals] matches. *)
Definition keywords : list text :=
  map codes ["if"; "while"; "for"; "elif"; "return"; "and"; "or"; "not";
             "is"; "in"; "None"; "True"; "False"]%string.

Definition is_keyword (v : text) : bool := existsb (fun k => text_eqb k v) keywords.

Definition varnames (ms : list groups) : list text :=
  map (fun g => group g "varname") ms.

(** The identifiers counted by each of the five loops, in the order in which
    the loop increments them. *)
Definition equals_vars (p : patterns) (content : text) : list text :=
  filter (fun v => negb (is_keyword v)) (varnames (finditer (equals p) content)).

Definition walrus_vars (p : patterns) (content : text) : list text :=
  varnames (finditer (walrus p) content).

Definition multi_vars (p : patterns) (content : text) : list text :=
  flat_map (fun g => varnames (finditer (var_name p) (group g "1")))
           (finditer (multi_assign p) content).

Definition augmented_vars (p : patterns) (content : text) : list text :=
  varnames (finditer (augmented p) content).

Definition for_vars (p : patterns) (content : text) : list text :=
  varnames (finditer (for_loop p) content).

(** The body of the [with] block of [analyze_python_file]. *)
Definition scan_content (p : patterns) (content : text) : dict :=
  let local_counts := [] in
  let local_counts := tally local_counts (equals_vars p content) in
  let local_counts := tally local_counts (walrus_vars p content) in
  let local_counts := tally local_counts (multi_vars p content) in
  let local_counts := tally local_counts (augmented_vars p content) in
  let local_counts := tally local_counts (for_vars p content) in
  local_counts.

(** What [analyze_python_file] returns, when it returns: [file] is what
    opening and reading the path gives, [None] when it raises.  The [print]
    of the handler is in [run_analyze_python_file] below. *)
Definition analyze_python_file (file : option text) (p : patterns) : dict * bool :=
  match file with
  | Some content => (scan_content p content, true)
  | None => ([], false)
  end.

(** Every identifier the five loops count, in order. *)
Definition occurrences (p : patterns) (content : text) : list text :=
  equals_vars p content ++ walrus_vars p content ++ multi_vars p content
  ++ augmented_vars p content ++ for_vars p content.

Definition is_py (file : text) : bool := ends_with (codes ".py") file.

Definition analyze (file : option text) : dict * bool :=
  analyze_python_file file get_python_patterns.

Definition candidates (directory : text) (t : dirtree) : list (text * option text) :=
  Walk.candidates should_skip_directory is_py directory t.

(** [counts] when the walk is over, before it is sorted. *)
Definition global_counts (directory : text) (t : dirtree) : dict :=
  fst (Walk.scan_files analyze (candidates directory t)).

Definition count_variables (directory : text) (t : dirtree)
  : list (text * nat) * list text :=
  Walk.count_variables should_skip_directory is_py analyze directory t.

(** [f"Error with {file_path}: {e}"]; [strerror] gives the text of the
    exception that opening or reading the path raised. *)
Definition diagnostic (strerror : text -> text) (file_path : text) : text :=
  codes "Error with " ++ file_path ++ codes ": " ++ strerror file_path.

(** [analyze_python_file] with the [print] of its handler, on a standard
    output that accepts the code points of [encodable].  The [print] stands
    inside the [except] block: what it raises is caught by nothing and leaves
    the function ([None]). *)
Definition run_analyze_python_file (encodable : N -> bool) (strerror : text -> text)
    (file_path : text) (file : option text) (p : patterns) : option (dict * bool) :=
  match file with
  | Some content => Some (scan_content p content, true)
  | None =>
      if printable encodable (diagnostic strerror file_path)
      then Some ([], false)
      else None
  end.

(** [count_variables] over that scan: [None] when an exception leaves it. *)
Definition run_count_variables (encodable : N -> bool) (strerror : text -> text)
    (directory : text) (t : dirtree) : option (list (text * nat) * list text) :=
  Walk.run_count_variables_in
    (fun file_path file =>
       run_analyze_python_file encodable strerror file_path file get_python_patterns)
    (candidates directory t).

End Py.

(* ------------------------------------------------------------------ *)
(** ** r_variable_counter.py *)

Module R.

(** [[a-zA-Z][a-zA-Z0-9_\.]*] *)
Definition ident_start (c : N) : bool := is_letter c.
Definition ident_char (c : N) : bool :=
  is_letter c || is_digit c || is_char "_" c || is_char "." c.

Definition is_identifier (id : text) : bool := is_ident ident_start ident_char id.

Definition R_IDENTIFIER : regex :=
  Group "varname" (Seq (Chr ident_start) (Star true (Chr ident_char))).
Definition WHITESPACE : regex := Star true (Chr is_space).

Definition R_ASSIGN : regex := Seq R_IDENTIFIER (Seq WHITESPACE (Word "<-")).
Definition WALRUS_ASSIGN : regex := Seq R_IDENTIFIER (Seq WHITESPACE (Word ":=")).
Definition EQUALS_ASSIGN : regex := Seq R_IDENTIFIER (Seq WHITESPACE (Word "=")).

(** [.] under [re.DOTALL] *)
Definition any_char (c : N) : bool := true.

Definition MUTATE_PATTERN : regex :=
  Seq (Word "mutate")
      (Seq (Star true (Chr is_space))
           (Seq (Word "(")
                (Seq (Group "content" (Star false (Chr any_char))) (Word ")")))).

Record patterns := {
  r_assign : regex;
  walrus : regex;
  equals : regex;
  mutate : regex
}.

Definition get_r_patterns : patterns :=
  {| r_assign := R_ASSIGN;
     walrus := WALRUS_ASSIGN;
     equals := EQUALS_ASSIGN;
     mutate := MUTATE_PATTERN |}.

Definition skip_dirs : list text :=
  map codes [".git"; "venv"; ".venv"; "env"; "__pycache__"; "node_modules";
             ".pytest_cache"; ".mypy_cache"; ".tox"; "dist"; "build"; ".idea";
             ".vscode"; ".ipynb_checkpoints"; "renv"]%string.

Definition should_skip_directory (dirname : text) : bool :=
  existsb (fun d => text_eqb d dirname) skip_dirs.

Definition varnames (ms : list groups) : list text :=
  map (fun g => group g "varname") ms.

Definition r_assign_vars (p : patterns) (content : text) : list text :=
  varnames (finditer (r_assign p) content).

Definition walrus_vars (p : patterns) (content : text) : list text :=
  varnames (finditer (walrus p) content).

(** The nested loops over the [mutate] blocks and the [equals] matches inside
    each block's [content] group. *)
Definition mutate_vars (p : patterns) (content : text) : list text :=
  flat_map (fun mutate_block =>
              varnames (finditer (equals p) (group mutate_block "content")))
           (finditer (mutate p) content).

(** The body of the [with] block of [analyze_r_file]. *)
Definition scan_content (p : patterns) (content : text) : dict :=
  let local_counts := [] in
  let local_counts := tally local_counts (r_assign_vars p content) in
  let local_counts := tally local_counts (walrus_vars p content) in
  let local_counts := tally local_counts (mutate_vars p content) in
  local_counts.

(** What [analyze_r_file] returns, when it returns: [file] is what opening
    and reading the path gives, [None] when it raises.  The handler prints
    its diagnostic first, as the handler of [analyze_python_file] does. *)
Definition analyze_r_file (file : option text) (p : patterns) : dict * bool :=
  match file with
  | Some content => (scan_content p content, true)
  | None => ([], false)
  end.

(** Every identifier the three loops count, in order. *)
Definition occurrences (p : patterns) (content : text) : list text :=
  r_assign_vars p content ++ walrus_vars p content ++ mutate_vars p content.

Definition is_r (file : text) : bool :=
  ends_with (codes ".R") file || ends_with (codes ".r") file.

Definition analyze (file : option text) : dict * bool :=
  analyze_r_file file get_r_patterns.

Definition candidates (directory : text) (t : dirtree) : list (text * option text) :=
  Walk.candidates should_skip_directory is_r directory t.

(** [counts] when the walk is over, before it is sorted. *)
Definition global_counts (directory : text) (t : dirtree) : dict :=
  fst (Walk.scan_files analyze (candidates directory t)).

Definition count_variables (directory : text) (t : dirtree)
  : list (text * nat) * list text :=
  Walk.count_variables should_skip_directory is_r analyze directory t.

End R.

(* ------------------------------------------------------------------ *)
(** ** combiner.py *)

Module Combiner.

(** [dict(results)]: a later pair of the same key overwrites the count. *)
Definition dict_of (results : list (text * nat)) : dict :=
  fold_left (fun d (vc : text * nat) => dict_set d (fst vc) (snd vc)) results [].

(** The elements of a set of names, each once. *)
Fixpoint set_of (l : list text) : list text :=
  match l with
  | [] => []
  | x :: l' => if existsb (text_eqb x) l' then set_of l' else x :: set_of l'
  end.

(** [a.intersection(b)] *)
Definition intersection (a b : list text) : list text :=
  filter (fun x => existsb (text_eqb x) b) (set_of a).

Section Shared.
(** The order in which Python iterates over a set of strings is not fixed
    by the program: [iter_set] is that order, some rearrangement of the
    elements. *)
Variable iter_set : list text -> list text.

Definition find_shared_variables (py_results r_results : list (text * nat))
  : list (text * nat * nat) :=
  let py_vars := map fst py_results in
  let r_vars := map fst r_results in
  let shared := intersection py_vars r_vars in
  let py_dict := dict_of py_results in
  let r_dict := dict_of r_results in
  let shared_with_counts :=
    map (fun var => (var, dict_get py_dict var, dict_get r_dict var))
        (iter_set shared) in
  sorted_desc (fun x : text * nat * nat => snd (fst x) + snd x) shared_with_counts.
End Shared.

End Combiner.

(** A small project: an excluded directory, a package with an unreadable
    file, and files of both languages. *)
Definition demo_tree : dirtree :=
  Dir [ (codes ".git", Dir [] [(codes "hook.py", Some (codes "zzz = 1"))]);
        (codes "pkg",
         Dir [] [ (codes "b.py", Some (codes "count = 0; for i in range(3): count += i"));
                  (codes "c.py", None);
                  (codes "b.R", Some (codes "count <- 1; mutate(x = y + 1, z = 2)")) ]) ]
      [ (codes "a.py", Some (codes "x = 1; y = 2; x = 3"));
        (codes "notes.txt", Some (codes "w = 1")) ].

(* ------------------------------------------------------------------ *)
(** ** What the walk leaves out *)

(** The tree without the directories that [skip] names, at any depth. *)
Fixpoint prune (skip : text -> bool) (t : dirtree) {struct t} : dirtree :=
  match t with
  | Dir subdirs files =>
      Dir ((fix descend (l : list (text * dirtree)) :=
              match l with
              | [] => []
              | (d, t') :: l' =>
                  if skip d then descend l' else (d, prune skip t') :: descend l'
              end) subdirs)
          files
  end.

(** Whether some directory of the tree, at any depth, has a name that [skip]
    names. *)
Fixpoint has_skipped (skip : text -> bool) (t : dirtree) {struct t} : bool :=
  match t with
  | Dir subdirs _ =>
      (fix descend (l : list (text * dirtree)) :=
         match l with
         | [] => false
         | (d, t') :: l' => skip d || has_skipped skip t' || descend l'
         end) subdirs
  end.

(** Whether no name in the tree begins with a slash, as the names that a
    directory lists never do. *)
Fixpoint plain_names (t : dirtree) {struct t} : bool :=
  match t with
  | Dir subdirs files =>
      forallb (fun f : text * option text => negb (starts_with [slash] (fst f))) files
      && (fix descend (l : list (text * dirtree)) :=
            match l with
            | [] => true
            | (d, t') :: l' =>
                negb (starts_with [slash] d) && plain_names t' && descend l'
            end) subdirs
  end.

(* ------------------------------------------------------------------ *)
(** ** The files written: [save_results] and [generate_combined_report] *)

Module Report.

Definition newline : N := 10.
Definition comma : N := 44.

(** [str(n)] for a count: its decimal digits. *)
Definition str_of_nat (n : nat) : text :=
  codes (DecimalString.NilEmpty.string_of_uint (Nat.to_uint n)).

(** [f"{var},{count}\n"] *)
Definition var_row (e : text * nat) : text :=
  fst e ++ comma :: str_of_nat (snd e) ++ [newline].

(** What [save_results] writes to [<prefix>_var_counts.csv]. *)
Definition var_counts_csv (results : list (text * nat)) : text :=
  codes "var,count" ++ newline :: flat_map var_row results.

(** What [save_results] writes to [processed_<prefix>_files.txt]. *)
Definition processed_files_txt (processed_files : list text) : text :=
  flat_map (fun file_path => file_path ++ [newline]) processed_files.

(** [save_results] when every write succeeds: the two files written, by
    name, and the two names returned.  [prefix] is ["python"] or ["r"] when
    the caller leaves it out.  [run_save_results] below is the function with
    the writes that raise. *)
Definition save_results (results : list (text * nat)) (processed_files : list text)
    (prefix : text) : list (text * text) * (text * text) :=
  let filename_vars := prefix ++ codes "_var_counts.csv" in
  let filename_files := codes "processed_" ++ prefix ++ codes "_files.txt" in
  ([(filename_vars, var_counts_csv results);
    (filename_files, processed_files_txt processed_files)],
   (filename_vars, filename_files)).

(** The list [combined] of [generate_combined_report] after its sort. *)
Definition combined (py_results r_results : list (text * nat))
  : list (text * nat * text) :=
  sorted_desc (fun x : text * nat * text => snd (fst x))
    (map (fun e : text * nat => (fst e, snd e, codes "python")) py_results
     ++ map (fun e : text * nat => (fst e, snd e, codes "r")) r_results).

(** [f"{var},{count},{lang}\n"] *)
Definition combined_row (x : text * nat * text) : text :=
  fst (fst x) ++ comma :: str_of_nat (snd (fst x)) ++ comma :: snd x ++ [newline].

(** [generate_combined_report]: the file written and the name returned. *)
Definition generate_combined_report (py_results r_results : list (text * nat))
    (output_file : text) : (text * text) * text :=
  ((output_file,
    codes "var,count,language" ++ newline
      :: flat_map combined_row (combined py_results r_results)),
   output_file).



End Report.

(* ------------------------------------------------------------------ *)
(** ** The text in front of a loop header *)

Fixpoint drop_while (p : N -> bool) (s : text) : text :=
  match s with
  | [] => []
  | c :: s' => if p c then drop_while p s' else s
  end.

(** The text is [for], whitespace and at most an identifier: what a match of
    the loop pattern has read when it stands in front of the last character
    of its identifier. *)
Definition loop_head (t : text) : bool :=
  starts_with (codes "for") t
  && match drop_while is_space (skipn 3 t) with
     | [] => true
     | x => Py.is_identifier x
     end.

(** Whether [pre] ends in such a loop head. *)
Fixpoint ends_in_loop_head (pre : text) : bool :=
  loop_head pre
  || match pre with
     | [] => false
     | _ :: pre' => ends_in_loop_head pre'
     end.

(** A project with an unreadable file whose name holds the byte [0xFF], which
    [os.walk] hands over as the code point U+DCFF. *)
Definition unprintable_tree : dirtree :=
  Dir [] [ (codes "a.py", Some (codes "x = 1"));
           (codes "caf" ++ [56575%N] ++ codes ".py", None);
           (codes "b.py", Some (codes "y = 2")) ].

(* ================================================================== *)
(** * Properties *)

(* ------------------------------------------------------------------ *)
(** ** Text equality *)

Lemma text_eqb_eq (a b : text) : text_eqb a b = true <-> a = b.
Proof.
  revert b; induction a as [|x a IH]; intros [|y b]; simpl; split;
    try congruence; try discriminate.
  - rewrite andb_true_iff, N.eqb_eq, IH. intros [-> ->]; reflexivity.
  - intros E; injection E as -> ->. rewrite N.eqb_refl. simpl. apply IH; reflexivity.
Qed.

Lemma text_eqb_refl (a : text) : text_eqb a a = true.
Proof. apply text_eqb_eq; reflexivity. Qed.

Lemma text_eqb_neq (a b : text) : a <> b -> text_eqb a b = false.
Proof.
  intros H. destruct (text_eqb a b) eqn:E; [|reflexivity].
  apply text_eqb_eq in E. contradiction.
Qed.

Lemma text_eqb_sym (a b : text) : text_eqb a b = text_eqb b a.
Proof.
  destruct (text_eqb b a) eqn:E.
  - apply text_eqb_eq in E; subst; apply text_eqb_refl.
  - apply text_eqb_neq. intros ->. now rewrite text_eqb_refl in E.
Qed.

Ltac text_cases a b :=
  let E := fresh "E" in
  destruct (text_eqb a b) eqn:E;
  [apply text_eqb_eq in E; try subst | ].

(* ------------------------------------------------------------------ *)
(** ** Dictionaries *)

Lemma total_perm (l1 l2 : list nat) : Permutation l1 l2 -> total l1 = total l2.
Proof. induction 1; simpl; lia. Qed.

Lemma dict_get_absent (d : dict) (k : text) : ~ In k (keys d) -> dict_get d k = 0.
Proof.
  induction d as [|[k' v] d IH]; simpl; intros H; [reflexivity|].
  text_cases k' k; [tauto|]. apply IH; tauto.
Qed.

Lemma dict_get_set (d : dict) (k k' : text) (v : nat) :
  dict_get (dict_set d k v) k' = if text_eqb k k' then v else dict_get d k'.
Proof.
  induction d as [|[k0 v0] d IH]; simpl.
  - reflexivity.
  - text_cases k0 k; simpl.
    + destruct (text_eqb k k'); reflexivity.
    + rewrite IH. text_cases k0 k'; [|reflexivity].
      rewrite text_eqb_sym, E. reflexivity.
Qed.

Lemma dict_get_add (d : dict) (k k' : text) (n : nat) :
  dict_get (dict_add d k n) k' = dict_get d k' + (if text_eqb k k' then n else 0).
Proof.
  unfold dict_add. rewrite dict_get_set.
  text_cases k k'; lia.
Qed.

Lemma keys_set (d : dict) (k : text) (v : nat) :
  keys (dict_set d k v) = if dict_mem d k then keys d else keys d ++ [k].
Proof.
  induction d as [|[k0 v0] d IH]; simpl; [reflexivity|].
  text_cases k0 k; simpl; [reflexivity|].
  rewrite IH. destruct (dict_mem d k); reflexivity.
Qed.

Lemma dict_mem_in (d : dict) (k : text) : dict_mem d k = true <-> In k (keys d).
Proof.
  induction d as [|[k0 v0] d IH]; simpl; [split; [discriminate|tauto]|].
  rewrite orb_true_iff, text_eqb_eq, IH. tauto.
Qed.

Lemma nodup_keys_set (d : dict) (k : text) (v : nat) :
  NoDup (keys d) -> NoDup (keys (dict_set d k v)).
Proof.
  intros H. rewrite keys_set. destruct (dict_mem d k) eqn:E; [assumption|].
  apply NoDup_app; [assumption|repeat constructor; simpl; tauto|].
  intros x Hx [<-|[]]. apply dict_mem_in in Hx. congruence.
Qed.

Lemma total_values_set (d : dict) (k : text) (v : nat) :
  total (values (dict_set d k v)) + dict_get d k = total (values d) + v.
Proof.
  induction d as [|[k0 v0] d IH]; simpl; [lia|].
  text_cases k0 k; simpl; lia.
Qed.

Lemma total_values_add (d : dict) (k : text) (n : nat) :
  total (values (dict_add d k n)) = total (values d) + n.
Proof.
  unfold dict_add. pose proof (total_values_set d k (dict_get d k + n)). lia.
Qed.

Lemma tally_cons (d : dict) (v : text) (vars : list text) :
  tally d (v :: vars) = tally (dict_add d v 1) vars.
Proof. reflexivity. Qed.

Lemma nodup_keys_tally (vars : list text) (d : dict) :
  NoDup (keys d) -> NoDup (keys (tally d vars)).
Proof.
  revert d; induction vars as [|v vars IH]; intros d H; [assumption|].
  rewrite tally_cons. apply IH. apply nodup_keys_set; assumption.
Qed.

Lemma total_values_tally (vars : list text) (d : dict) :
  total (values (tally d vars)) = total (values d) + length vars.
Proof.
  revert d; induction vars as [|v vars IH]; intros d; [simpl; lia|].
  rewrite tally_cons, IH, total_values_add. simpl. lia.
Qed.

Lemma dict_get_tally (vars : list text) (d : dict) (k : text) :
  dict_get (tally d vars) k = dict_get d k + count_of k vars.
Proof.
  unfold count_of.
  revert d; induction vars as [|v vars IH]; intros d; [simpl; lia|].
  rewrite tally_cons, IH, dict_get_add. simpl.
  destruct (text_eqb v k); simpl; lia.
Qed.

Lemma tally_app (d : dict) (l1 l2 : list text) :
  tally d (l1 ++ l2) = tally (tally d l1) l2.
Proof. apply fold_left_app. Qed.

(** Looking a key up does not depend on the order of the items. *)
Lemma dict_get_perm (d d' : dict) (k : text) :
  NoDup (keys d) -> Permutation d d' -> dict_get d k = dict_get d' k.
Proof.
  intros Hnd Hp. induction Hp as [|[k0 v0] l l' Hp IH|[k1 v1] [k2 v2] l|l l' l'' Hp1 IH1 Hp2 IH2].
  - reflexivity.
  - simpl. inversion Hnd; subst. rewrite IH by assumption. reflexivity.
  - simpl. text_cases k2 k; text_cases k1 k; try reflexivity.
    inversion Hnd; subst. simpl in *. tauto.
  - rewrite IH1 by assumption. apply IH2.
    unfold keys. eapply Permutation_NoDup; [apply Permutation_map; eassumption|assumption].
Qed.

(* ------------------------------------------------------------------ *)
(** ** The stable sort *)

Section SortedFacts.
Variable A : Type.
Variable key : A -> nat.

Lemma insert_desc_perm (x : A) (l : list A) :
  Permutation (insert_desc key x l) (x :: l).
Proof.
  induction l as [|y l IH]; simpl; [reflexivity|].
  destruct (key y <=? key x); [reflexivity|].
  rewrite IH. apply perm_swap.
Qed.

Lemma sorted_desc_perm (l : list A) : Permutation (sorted_desc key l) l.
Proof.
  induction l as [|x l IH]; simpl; [reflexivity|].
  rewrite insert_desc_perm. constructor. exact IH.
Qed.

Lemma insert_desc_sorted (x : A) (l : list A) :
  StronglySorted (desc key) l -> StronglySorted (desc key) (insert_desc key x l).
Proof.
  induction 1 as [|y l Hs IH Hy]; simpl.
  - repeat constructor.
  - destruct (key y <=? key x) eqn:E.
    + apply Nat.leb_le in E. constructor; [constructor; assumption|].
      constructor; [exact E|].
      eapply Forall_impl; [|exact Hy]. unfold desc in *. intros; lia.
    + apply Nat.leb_gt in E. constructor; [exact IH|].
      eapply Permutation_Forall; [symmetry; apply insert_desc_perm|].
      constructor; [unfold desc; lia|exact Hy].
Qed.

Lemma sorted_desc_sorted (l : list A) : StronglySorted (desc key) (sorted_desc key l).
Proof.
  induction l as [|x l IH]; simpl; [constructor|].
  apply insert_desc_sorted; exact IH.
Qed.

(** Stability: the items of one key are in the order of the input. *)
Lemma insert_desc_stable (c : nat) (x : A) (l : list A) :
  StronglySorted (desc key) l ->
  filter (fun y => key y =? c) (insert_desc key x l)
  = filter (fun y => key y =? c) (x :: l).
Proof.
  induction 1 as [|y l Hs IH Hy]; [reflexivity|].
  cbn [insert_desc]. destruct (key y <=? key x) eqn:E; [reflexivity|].
  apply Nat.leb_gt in E.
  cbn [filter] in *. rewrite IH.
  destruct (key y =? c) eqn:Ey; destruct (key x =? c) eqn:Ex; try reflexivity.
  apply Nat.eqb_eq in Ey, Ex. lia.
Qed.

Lemma sorted_desc_stable (c : nat) (l : list A) :
  filter (fun y => key y =? c) (sorted_desc key l) = filter (fun y => key y =? c) l.
Proof.
  induction l as [|x l IH]; [reflexivity|].
  cbn [sorted_desc fold_right].
  rewrite insert_desc_stable by apply sorted_desc_sorted.
  cbn [filter]. fold (sorted_desc key l). rewrite IH. reflexivity.
Qed.

(** Two neighbours of different keys are in strictly decreasing order. *)
Lemma sorted_desc_adjacent (l : list A) :
  Sorted (fun a b => key a <> key b -> key b < key a) (sorted_desc key l).
Proof.
  apply StronglySorted_Sorted.
  eapply StronglySorted_ind with (P := fun l => StronglySorted _ l);
    [constructor| |apply sorted_desc_sorted].
  intros a l0 _ IH Ha. constructor; [exact IH|].
  eapply Forall_impl; [|exact Ha]. unfold desc. intros; lia.
Qed.
End SortedFacts.

(* ------------------------------------------------------------------ *)
(** ** Folding local mappings into the global one *)

Lemma merge_counts_cons (c : dict) (kv : text * nat) (fc : dict) :
  Walk.merge_counts c (kv :: fc) = Walk.merge_counts (dict_add c (fst kv) (snd kv)) fc.
Proof. reflexivity. Qed.

Lemma merge_counts_get (fc c : dict) (id : text) :
  NoDup (keys fc) ->
  dict_get (Walk.merge_counts c fc) id = dict_get c id + dict_get fc id.
Proof.
  revert c; induction fc as [|[k v] fc IH]; intros c Hnd; [simpl; lia|].
  inversion Hnd as [|? ? Hk Hnd']; subst.
  rewrite merge_counts_cons, IH, dict_get_add by assumption. simpl.
  text_cases k id; [|lia].
  rewrite (dict_get_absent fc) by assumption. lia.
Qed.

Lemma merge_counts_total (fc c : dict) :
  total (values (Walk.merge_counts c fc)) = total (values c) + total (values fc).
Proof.
  revert c; induction fc as [|[k v] fc IH]; intros c; [simpl; lia|].
  rewrite merge_counts_cons, IH, total_values_add. simpl. lia.
Qed.

Lemma merge_counts_nodup (fc c : dict) :
  NoDup (keys c) -> NoDup (keys (Walk.merge_counts c fc)).
Proof.
  revert c; induction fc as [|[k v] fc IH]; intros c H; [assumption|].
  rewrite merge_counts_cons. apply IH, nodup_keys_set, H.
Qed.

Lemma fold_merge_get (locals : list dict) (c : dict) (id : text) :
  Forall (fun d => NoDup (keys d)) locals ->
  dict_get (fold_left Walk.merge_counts locals c) id
  = dict_get c id + total (map (fun d => dict_get d id) locals).
Proof.
  intros H; revert c; induction H as [|d locals Hd _ IH]; intros c; [simpl; lia|].
  cbn [fold_left map total fold_right]. rewrite IH, merge_counts_get by assumption.
  fold (total (map (fun d0 => dict_get d0 id) locals)). lia.
Qed.

Lemma fold_merge_total (locals : list dict) (c : dict) :
  total (values (fold_left Walk.merge_counts locals c))
  = total (values c) + total (map (fun d => total (values d)) locals).
Proof.
  revert c; induction locals as [|d locals IH]; intros c; [simpl; lia|].
  cbn [fold_left map total fold_right]. rewrite IH, merge_counts_total.
  fold (total (map (fun d0 => total (values d0)) locals)). lia.
Qed.

Lemma fold_merge_nodup (locals : list dict) (c : dict) :
  NoDup (keys c) -> NoDup (keys (fold_left Walk.merge_counts locals c)).
Proof.
  revert c; induction locals as [|d locals IH]; intros c H; [assumption|].
  apply IH, merge_counts_nodup, H.
Qed.

Section ScanFacts.
Variable analyze_file : option text -> dict * bool.

(** The two variables of the loop, file after file. *)
Lemma fold_visit (fs : list (text * option text)) (c : dict) (pr : list text) :
  fold_left (Walk.visit analyze_file) fs (c, pr)
  = (fold_left Walk.merge_counts (map (Walk.local_counts analyze_file) fs) c,
     pr ++ map fst (filter (Walk.succeeded analyze_file) fs)).
Proof.
  revert c pr; induction fs as [|f fs IH]; intros c pr.
  - simpl. rewrite app_nil_r. reflexivity.
  - cbn [fold_left map filter]. unfold Walk.visit at 2.
    unfold Walk.local_counts at 2, Walk.succeeded at 1.
    destruct (analyze_file (snd f)) as [fc success]. cbn [fst snd].
    rewrite IH. destruct success; [|reflexivity].
    cbn [map]. rewrite <- app_assoc. reflexivity.
Qed.

Lemma scan_files_counts (fs : list (text * option text)) :
  fst (Walk.scan_files analyze_file fs)
  = Walk.aggregate (map (Walk.local_counts analyze_file) fs).
Proof. unfold Walk.scan_files. rewrite fold_visit. reflexivity. Qed.

Lemma scan_files_processed (fs : list (text * option text)) :
  snd (Walk.scan_files analyze_file fs)
  = map fst (filter (Walk.succeeded analyze_file) fs).
Proof. unfold Walk.scan_files. rewrite fold_visit. reflexivity. Qed.

Lemma count_variables_in_eq (fs : list (text * option text)) :
  Walk.count_variables_in analyze_file fs
  = (sorted_desc snd (Walk.aggregate (map (Walk.local_counts analyze_file) fs)),
     map fst (filter (Walk.succeeded analyze_file) fs)).
Proof.
  unfold Walk.count_variables_in.
  rewrite <- scan_files_counts, <- scan_files_processed.
  destruct (Walk.scan_files analyze_file fs); reflexivity.
Qed.
End ScanFacts.

Lemma aggregate_nodup (locals : list dict) : NoDup (keys (Walk.aggregate locals)).
Proof. apply fold_merge_nodup. constructor. Qed.

(** The ranking holds the counts of the global mapping. *)
Lemma ranking_get (d : dict) (id : text) :
  NoDup (keys d) -> dict_get (sorted_desc snd d) id = dict_get d id.
Proof.
  intros H. symmetry. apply dict_get_perm; [exact H|].
  symmetry. apply sorted_desc_perm.
Qed.

Lemma ranking_total (d : dict) : total (values (sorted_desc snd d)) = total (values d).
Proof. apply total_perm, Permutation_map, sorted_desc_perm. Qed.

(* ------------------------------------------------------------------ *)
(** ** The local mapping of one file *)

Lemma py_scan_content_tally (content : text) :
  Py.scan_content Py.get_python_patterns content
  = tally [] (Py.occurrences Py.get_python_patterns content).
Proof.
  unfold Py.scan_content, Py.occurrences. rewrite !tally_app. reflexivity.
Qed.

Lemma r_scan_content_tally (content : text) :
  R.scan_content R.get_r_patterns content
  = tally [] (R.occurrences R.get_r_patterns content).
Proof.
  unfold R.scan_content, R.occurrences. rewrite !tally_app. reflexivity.
Qed.

Lemma py_analyze_nodup (file : option text) : NoDup (keys (fst (Py.analyze file))).
Proof.
  destruct file as [content|]; cbn [Py.analyze Py.analyze_python_file fst].
  - rewrite py_scan_content_tally. apply nodup_keys_tally. constructor.
  - constructor.
Qed.

Lemma r_analyze_nodup (file : option text) : NoDup (keys (fst (R.analyze file))).
Proof.
  destruct file as [content|]; cbn [R.analyze R.analyze_r_file fst].
  - rewrite r_scan_content_tally. apply nodup_keys_tally. constructor.
  - constructor.
Qed.

Lemma py_analyze_total (file : option text) :
  total (values (fst (Py.analyze file)))
  = match file with
    | Some content => length (Py.occurrences Py.get_python_patterns content)
    | None => 0
    end.
Proof.
  destruct file as [content|]; cbn [Py.analyze Py.analyze_python_file fst]; [|reflexivity].
  rewrite py_scan_content_tally, total_values_tally. reflexivity.
Qed.

Lemma r_analyze_total (file : option text) :
  total (values (fst (R.analyze file)))
  = match file with
    | Some content => length (R.occurrences R.get_r_patterns content)
    | None => 0
    end.
Proof.
  destruct file as [content|]; cbn [R.analyze R.analyze_r_file fst]; [|reflexivity].
  rewrite r_scan_content_tally, total_values_tally. reflexivity.
Qed.

Lemma py_count_variables_eq (directory : text) (t : dirtree) :
  Py.count_variables directory t
  = (sorted_desc snd (Py.global_counts directory t),
     map fst (filter (fun f => snd (Py.analyze (snd f))) (Py.candidates directory t))).
Proof.
  unfold Py.count_variables, Walk.count_variables, Py.global_counts.
  rewrite count_variables_in_eq, scan_files_counts. reflexivity.
Qed.

Lemma r_count_variables_eq (directory : text) (t : dirtree) :
  R.count_variables directory t
  = (sorted_desc snd (R.global_counts directory t),
     map fst (filter (fun f => snd (R.analyze (snd f))) (R.candidates directory t))).
Proof.
  unfold R.count_variables, Walk.count_variables, R.global_counts.
  rewrite count_variables_in_eq, scan_files_counts. reflexivity.
Qed.

(* ------------------------------------------------------------------ *)
(** ** Sets of names and [dict(results)] *)

Lemma existsb_text_in (x : text) (l : list text) :
  existsb (text_eqb x) l = true <-> In x l.
Proof.
  rewrite existsb_exists. split.
  - intros [y [Hy E]]. apply text_eqb_eq in E. subst. exact Hy.
  - intros H. exists x. split; [exact H|apply text_eqb_refl].
Qed.

Lemma set_of_in (l : list text) (x : text) : In x (Combiner.set_of l) <-> In x l.
Proof.
  induction l as [|y l IH]; simpl; [tauto|].
  destruct (existsb (text_eqb y) l) eqn:E; simpl; rewrite IH; [|tauto].
  apply existsb_text_in in E. split; [tauto|]. intros [<-|H]; assumption.
Qed.

Lemma set_of_nodup (l : list text) : NoDup (Combiner.set_of l).
Proof.
  induction l as [|y l IH]; simpl; [constructor|].
  destruct (existsb (text_eqb y) l) eqn:E; [exact IH|].
  constructor; [|exact IH]. rewrite set_of_in. intros H.
  apply existsb_text_in in H. congruence.
Qed.

Lemma intersection_in (a b : list text) (x : text) :
  In x (Combiner.intersection a b) <-> In x a /\ In x b.
Proof.
  unfold Combiner.intersection.
  rewrite filter_In, set_of_in, existsb_text_in. tauto.
Qed.

Lemma intersection_nodup (a b : list text) : NoDup (Combiner.intersection a b).
Proof. apply NoDup_filter, set_of_nodup. Qed.

Lemma fold_dict_set_fresh (l acc : dict) :
  NoDup (keys (acc ++ l)) ->
  fold_left (fun d (vc : text * nat) => dict_set d (fst vc) (snd vc)) l acc = acc ++ l.
Proof.
  revert acc; induction l as [|[k v] l IH]; intros acc H; simpl.
  - rewrite app_nil_r. reflexivity.
  - assert (Hset : dict_set acc k v = acc ++ [(k, v)]).
    { clear IH. induction acc as [|[k0 v0] acc IHa]; [reflexivity|].
      simpl in *. inversion H as [|? ? Hk Hnd]; subst.
      text_cases k0 k.
      - exfalso. apply Hk. unfold keys. rewrite map_app, in_app_iff. simpl. tauto.
      - rewrite IHa by assumption. reflexivity. }
    rewrite Hset, IH; rewrite <- app_assoc; [reflexivity|exact H].
Qed.

Lemma dict_of_nodup (l : dict) : NoDup (keys l) -> Combiner.dict_of l = l.
Proof. intros H. unfold Combiner.dict_of. rewrite fold_dict_set_fresh; auto. Qed.

Lemma filter_one (l : list text) (x : text) :
  NoDup l -> In x l -> filter (fun y => text_eqb y x) l = [x].
Proof.
  induction 1 as [|y l Hy Hnd IH]; simpl; [tauto|].
  intros [->|Hin].
  - rewrite text_eqb_refl. f_equal.
    clear IH. induction l as [|z l IHl]; [reflexivity|].
    simpl in *. inversion Hnd; subst.
    rewrite text_eqb_neq by (intros ->; tauto). apply IHl; tauto.
  - rewrite text_eqb_neq by (intros ->; tauto). apply IH, Hin.
Qed.

Lemma filter_perm (A : Type) (f : A -> bool) (l l' : list A) :
  Permutation l l' -> Permutation (filter f l) (filter f l').
Proof.
  induction 1 as [|x l l' _ IH|x y l|l l' l'' _ IH1 _ IH2]; simpl.
  - constructor.
  - destruct (f x); [constructor|]; exact IH.
  - destruct (f x), (f y); try reflexivity. apply perm_swap.
  - etransitivity; eassumption.
Qed.

(* ------------------------------------------------------------------ *)
(** ** The matcher: every match consumes a word of the pattern *)

Lemma star_loop_sound (greedy : bool) (body : text -> groups -> cont -> option result)
    (L : text -> Prop) (k : cont) :
  (forall s g k' res, body s g k' = Some res ->
     exists w s' g', s = w ++ s' /\ L w /\ k' s' g' = Some res) ->
  forall n s g res,
    star_loop greedy body k n s g = Some res ->
    exists ws s' g', s = concat ws ++ s' /\ Forall L ws /\ k s' g' = Some res.
Proof.
  intros Hbody. induction n as [|n IH]; intros s g res H.
  - exists [], s, g. simpl in *. auto.
  - cbn [star_loop] in H.
    assert (Hstop : k s g = Some res ->
                    exists ws s' g', s = concat ws ++ s' /\ Forall L ws /\ k s' g' = Some res).
    { intros Hk. exists [], s, g. simpl. auto. }
    assert (Hmore : body s g (fun s' g' =>
                       if length s' <? length s
                       then star_loop greedy body k n s' g' else None) = Some res ->
                    exists ws s' g', s = concat ws ++ s' /\ Forall L ws /\ k s' g' = Some res).
    { intros Hb. apply Hbody in Hb. destruct Hb as [w [s1 [g1 [-> [Hw Hk]]]]].
      destruct (length s1 <? length (w ++ s1)); [|discriminate].
      apply IH in Hk. destruct Hk as [ws [s' [g' [-> [Hws Hk]]]]].
      exists (w :: ws), s', g'. simpl. rewrite <- app_assoc. auto. }
    destruct greedy.
    + destruct (body s g _) eqn:Eb; [injection H as ->; apply Hmore; reflexivity|].
      apply Hstop, H.
    + destruct (k s g) eqn:Ek; [injection H as ->; apply Hstop; reflexivity|].
      apply Hmore, H.
Qed.

Lemma rmatch_sound (r : regex) :
  forall s g k res, rmatch r s g k = Some res ->
    exists w s' g', s = w ++ s' /\ lang r w /\ k s' g' = Some res.
Proof.
  induction r as [|p|r1 IH1 r2 IH2|r1 IH1 r2 IH2|greedy r1 IH1|name r1 IH1|r1 IH1];
    intros s g k res H; cbn [rmatch] in H.
  - exists [], s, g. simpl. auto.
  - destruct s as [|c s]; [discriminate|]. destruct (p c) eqn:Ep; [|discriminate].
    exists [c], s, g. simpl. eauto.
  - apply IH1 in H. destruct H as [w1 [s1 [g1 [-> [Hw1 H]]]]].
    apply IH2 in H. destruct H as [w2 [s2 [g2 [-> [Hw2 H]]]]].
    exists (w1 ++ w2), s2, g2. rewrite <- app_assoc. simpl. eauto 7.
  - destruct (rmatch r1 s g k) eqn:E1.
    + injection H as ->. apply IH1 in E1. destruct E1 as [w [s' [g' [-> [Hw Hk]]]]].
      exists w, s', g'. simpl. auto.
    + apply IH2 in H. destruct H as [w [s' [g' [-> [Hw Hk]]]]].
      exists w, s', g'. simpl. auto.
  - apply star_loop_sound with (L := lang r1) in H; [|exact IH1].
    destruct H as [ws [s' [g' [-> [Hws Hk]]]]].
    exists (concat ws), s', g'. simpl. eauto.
  - apply IH1 in H. destruct H as [w [s' [g' [-> [Hw Hk]]]]].
    exists w, s', ((name, firstn (length (w ++ s') - length s') (w ++ s')) :: g').
    simpl. auto.
  - destruct (rmatch r1 s g _); [discriminate|].
    exists [], s, g. simpl. auto.
Qed.

Lemma match_here_sound (r : regex) (s : text) (g : groups) (rest : text) :
  match_here r s = Some (g, rest) -> exists w, s = w ++ rest /\ lang r w.
Proof.
  intros H. apply rmatch_sound in H. destruct H as [w [s' [g' [-> [Hw Hk]]]]].
  injection Hk as _ ->. exists w. auto.
Qed.

(** A pattern that is not nullable consumes at least one character. *)
Lemma lang_nonempty (r : regex) :
  nullable r = false -> forall w, lang r w -> w <> [].
Proof.
  induction r as [|p|r1 IH1 r2 IH2|r1 IH1 r2 IH2|greedy r1 IH1|name r1 IH1|r1 IH1];
    cbn [nullable lang]; intros Hn w Hw; try discriminate.
  - destruct Hw as [c [-> _]]. discriminate.
  - destruct Hw as [w1 [w2 [-> [H1 H2]]]]. intros E. apply app_eq_nil in E.
    destruct E as [-> ->]. apply andb_false_iff in Hn. destruct Hn as [Hn|Hn].
    + exact (IH1 Hn [] H1 eq_refl).
    + exact (IH2 Hn [] H2 eq_refl).
  - apply orb_false_iff in Hn. destruct Hn as [Hn1 Hn2].
    destruct Hw as [Hw|Hw]; [exact (IH1 Hn1 w Hw)|exact (IH2 Hn2 w Hw)].
  - exact (IH1 Hn w Hw).
Qed.

Lemma match_here_consumes (r : regex) (s : text) (g : groups) (rest : text) :
  nullable r = false -> match_here r s = Some (g, rest) -> length rest < length s.
Proof.
  intros Hn H. apply match_here_sound in H. destruct H as [w [-> Hw]].
  apply (lang_nonempty _ Hn) in Hw. rewrite length_app.
  destruct w; [congruence|simpl; lia].
Qed.

(** No pattern of the two counters matches the empty word, so a scan never
    has to step over an empty match; and every repeated body consumes, so no
    repetition is cut short by the progress test. *)
Lemma patterns_consume :
  Forall (fun r => nullable r = false /\ star_bodies_consume r = true)
         [Py.EQUALS_ASSIGN; Py.WALRUS_ASSIGN; Py.MULTI_ASSIGN; Py.AUGMENTED_ASSIGN;
          Py.FOR_LOOP; Py.VAR_EXTRACTOR;
          R.R_ASSIGN; R.WALRUS_ASSIGN; R.EQUALS_ASSIGN; R.MUTATE_PATTERN].
Proof. repeat constructor. Qed.

(* ------------------------------------------------------------------ *)
(** ** Scanning *)

Lemma scan_skip (r : regex) (k : nat) (s : text) :
  k <= length s -> scan r k s = scan r 0 (skipn k s).
Proof.
  revert s; induction k as [|k IH]; intros s Hk; [reflexivity|].
  destruct s as [|c s]; [simpl in Hk; lia|]. cbn [scan skipn]. apply IH.
  simpl in Hk. lia.
Qed.

(** After a match that consumed [w], the scan goes on behind it. *)
Lemma finditer_match (r : regex) (w rest : text) (g : groups) :
  w <> [] -> match_here r (w ++ rest) = Some (g, rest) ->
  finditer r (w ++ rest) = g :: finditer r rest.
Proof.
  intros Hw H. unfold finditer. destruct w as [|c w]; [congruence|].
  cbn [scan app]. cbn [app] in H. rewrite H. f_equal.
  rewrite scan_skip by (cbn [length]; rewrite length_app; lia). f_equal.
  cbn [length]. rewrite length_app.
  replace (S (length w + length rest) - length rest - 1)
    with (length w + 0) by lia.
  rewrite skipn_app, Nat.add_0_r, skipn_all, Nat.sub_diag. reflexivity.
Qed.

Lemma finditer_miss (r : regex) (c : N) (s : text) :
  match_here r (c :: s) = None -> finditer r (c :: s) = finditer r s.
Proof. intros H. unfold finditer. cbn [scan]. rewrite H. reflexivity. Qed.

Lemma finditer_end (r : regex) : match_here r [] = None -> finditer r [] = [].
Proof. intros H. unfold finditer. cbn [scan]. rewrite H. reflexivity. Qed.

(** For a pattern that cannot match the empty word, the scan is the
    left-to-right search: the first match from here, then the matches of the
    text behind it; without a match here, the matches from the next
    character on. *)
Lemma finditer_step (r : regex) (s : text) :
  nullable r = false ->
  finditer r s
  = match match_here r s with
    | Some (g, rest) => g :: finditer r rest
    | None => match s with [] => [] | _ :: s' => finditer r s' end
    end.
Proof.
  intros Hn. destruct (match_here r s) as [[g rest]|] eqn:E.
  - destruct (match_here_sound _ _ E) as [w [-> Hw]].
    apply finditer_match; [exact (lang_nonempty _ Hn Hw)|exact E].
  - unfold finditer. destruct s; cbn [scan]; rewrite E; reflexivity.
Qed.

Lemma existsb_suffix (q : N -> bool) (w s : text) :
  existsb q (w ++ s) = false -> existsb q w = false /\ existsb q s = false.
Proof. rewrite existsb_app. apply orb_false_iff. Qed.

(** A pattern whose every word holds a character of the class [q] has no
    match in a text without such a character. *)
Lemma finditer_without (r : regex) (q : N -> bool) (s : text) :
  (forall w, lang r w -> existsb q w = true) ->
  existsb q s = false -> finditer r s = [].
Proof.
  intros Hr.
  assert (Hnone : forall t, existsb q t = false -> match_here r t = None).
  { intros t Ht. destruct (match_here r t) as [[g rest]|] eqn:E; [|reflexivity].
    apply match_here_sound in E. destruct E as [w [-> Hw]].
    apply existsb_suffix in Ht. rewrite (Hr w Hw) in Ht. destruct Ht; discriminate. }
  induction s as [|c s IH]; intros Hs.
  - apply finditer_end, Hnone, Hs.
  - rewrite finditer_miss by apply Hnone, Hs. apply IH.
    simpl in Hs. apply orb_false_iff in Hs. tauto.
Qed.

(** A pattern whose every word begins with [w] has no match in a text in
    which [w] does not occur. *)
Lemma finditer_not_occurring (r : regex) (w : text) (s : text) :
  (forall t, match_here r t <> None -> starts_with w t = true) ->
  occurs w s = false -> finditer r s = [].
Proof.
  intros Hr.
  assert (Hnone : forall t, starts_with w t = false -> match_here r t = None).
  { intros t Ht. destruct (match_here r t) eqn:E; [|reflexivity].
    rewrite Hr in Ht by congruence. discriminate. }
  induction s as [|c s IH]; intros Hs.
  - apply finditer_end, Hnone. simpl in Hs. apply orb_false_iff in Hs. tauto.
  - cbn [occurs] in Hs. apply orb_false_iff in Hs. destruct Hs as [H1 H2].
    rewrite finditer_miss by apply Hnone, H1. apply IH, H2.
Qed.

(* ------------------------------------------------------------------ *)
(** ** Running the matcher on a text known by its shape *)

(** A greedy repetition of a class takes the whole run of the class when the
    rest of the pattern accepts what follows. *)
Lemma star_loop_run (p : N -> bool) (k : cont) (g : groups) (res : result)
    (w rest : text) :
  forallb p w = true -> stops p rest = true -> k rest g = Some res ->
  forall n, length (w ++ rest) <= n ->
    star_loop true (rmatch (Chr p)) k n (w ++ rest) g = Some res.
Proof.
  intros Hw Hrest Hk. induction w as [|c w IH]; intros n Hn.
  - destruct n as [|n]; [exact Hk|]. cbn [star_loop app rmatch].
    destruct rest as [|c rest]; [exact Hk|].
    simpl in Hrest. apply negb_true_iff in Hrest. rewrite Hrest. exact Hk.
  - simpl in Hw. apply andb_true_iff in Hw. destruct Hw as [Hc Hw].
    destruct n as [|n]; [simpl in Hn; lia|].
    cbn [star_loop app rmatch]. rewrite Hc.
    replace (length (w ++ rest) <? length (c :: w ++ rest)) with true
      by (symmetry; apply Nat.ltb_lt; simpl; lia).
    rewrite IH; [reflexivity|assumption|simpl in Hn; lia].
Qed.

Lemma rmatch_run (p : N -> bool) (k : cont) (g : groups) (res : result)
    (w rest : text) :
  forallb p w = true -> stops p rest = true -> k rest g = Some res ->
  rmatch (Star true (Chr p)) (w ++ rest) g k = Some res.
Proof. intros. cbn [rmatch]. apply star_loop_run; auto. Qed.

(** A lazy [.*?] stops at the first place where the rest of the pattern
    accepts. *)
Lemma star_loop_lazy (p : N -> bool) (k : cont) (g : groups) (res : result)
    (w rest : text) :
  forallb p w = true ->
  (forall w1 w2, w = w1 ++ w2 -> w2 <> [] -> k (w2 ++ rest) g = None) ->
  k rest g = Some res ->
  forall n, length (w ++ rest) <= n ->
    star_loop false (rmatch (Chr p)) k n (w ++ rest) g = Some res.
Proof.
  intros Hw Hfail Hk. induction w as [|c w IH]; intros n Hn.
  - destruct n as [|n]; cbn [star_loop app]; rewrite Hk; reflexivity.
  - simpl in Hw. apply andb_true_iff in Hw. destruct Hw as [Hc Hw].
    destruct n as [|n]; [simpl in Hn; lia|].
    cbn [star_loop]. rewrite (Hfail [] (c :: w)) by (try reflexivity; discriminate).
    cbn [app rmatch]. rewrite Hc.
    replace (length (w ++ rest) <? length (c :: w ++ rest)) with true
      by (symmetry; apply Nat.ltb_lt; simpl; lia).
    apply IH; [assumption| |simpl in Hn; lia].
    intros w1 w2 -> Hw2. apply (Hfail (c :: w1) w2); [reflexivity|assumption].
Qed.

Lemma firstn_consumed (w rest : text) :
  firstn (length (w ++ rest) - length rest) (w ++ rest) = w.
Proof.
  rewrite length_app. replace (length w + length rest - length rest) with (length w + 0) by lia.
  rewrite firstn_app_2. simpl. apply app_nil_r.
Qed.

(** A named identifier group takes a whole identifier. *)
Lemma rmatch_named_ident (name : string) (p0 p : N -> bool) (k : cont)
    (g : groups) (res : result) (id rest : text) :
  is_ident p0 p id = true -> stops p rest = true ->
  k rest ((name, id) :: g) = Some res ->
  rmatch (Group name (Seq (Chr p0) (Star true (Chr p)))) (id ++ rest) g k = Some res.
Proof.
  intros Hid Hrest Hk. destruct id as [|c cs]; [discriminate|].
  simpl in Hid. apply andb_true_iff in Hid. destruct Hid as [Hc Hcs].
  cbn [rmatch app]. rewrite Hc. apply star_loop_run; auto.
  pose proof (firstn_consumed (c :: cs) rest) as E. cbn [app] in E. rewrite E.
  exact Hk.
Qed.

Lemma rmatch_seq (r1 r2 : regex) (s : text) (g : groups) (k : cont) :
  rmatch (Seq r1 r2) s g k = rmatch r1 s g (fun s' g' => rmatch r2 s' g' k).
Proof. reflexivity. Qed.


Lemma r_equals_here (id rest : text) :
  R.is_identifier id = true ->
  match_here R.EQUALS_ASSIGN (id ++ codes " =" ++ rest)
  = Some ([("varname"%string, id)], rest).
Proof.
  intros Hid. unfold match_here, R.EQUALS_ASSIGN, R.R_IDENTIFIER.
  rewrite rmatch_seq. apply rmatch_named_ident; [exact Hid|reflexivity|].
  rewrite rmatch_seq.
  unfold R.WHITESPACE. change (codes " =" ++ rest) with ([32%N] ++ 61%N :: rest).
  apply rmatch_run; reflexivity.
Qed.

Lemma split_first (q : N -> bool) (s : text) :
  existsb q s = true ->
  exists a b rest, s = a ++ b :: rest /\ existsb q a = false /\ q b = true.
Proof.
  induction s as [|c s IH]; [discriminate|]. simpl.
  destruct (q c) eqn:Ec.
  - intros _. exists [], c, s. auto.
  - intros H. destruct (IH H) as [a [b [rest [-> [Ha Hb]]]]].
    exists (c :: a), b, rest. simpl. rewrite Ec. auto.
Qed.

Lemma rmatch_chr (p : N -> bool) (c : N) (s : text) (g : groups) (k : cont) :
  rmatch (Chr p) (c :: s) g k = if p c then k s g else None.
Proof. reflexivity. Qed.

Lemma rmatch_group (name : string) (r : regex) (s : text) (g : groups) (k : cont) :
  rmatch (Group name r) s g k
  = rmatch r s g (fun s' g' => k s' ((name, firstn (length s - length s') s) :: g')).
Proof. reflexivity. Qed.

Lemma is_char_refl (a : ascii) : is_char a (N_of_ascii a) = true.
Proof. apply N.eqb_refl. Qed.

(** A literal word of the pattern consumes itself. *)
Lemma rmatch_lit (w : list ascii) (s : text) (g : groups) (k : cont) :
  rmatch (Lit w) (map N_of_ascii w ++ s) g k = k s g.
Proof.
  revert s; induction w as [|a w IH]; intros s; [reflexivity|].
  destruct w as [|b w].
  - cbn [Lit map app]. rewrite rmatch_chr, is_char_refl. reflexivity.
  - change (Lit (a :: b :: w)) with (Seq (Chr (is_char a)) (Lit (b :: w))).
    rewrite rmatch_seq. cbn [map app]. rewrite rmatch_chr, is_char_refl.
    apply (IH s).
Qed.

Lemma rmatch_word (lit : string) (s : text) (g : groups) (k : cont) :
  rmatch (Word lit) (codes lit ++ s) g k = k s g.
Proof. apply rmatch_lit. Qed.

(** [mutate(] followed by a text without [)] and then [)]: the block is
    matched and its [content] group is that text. *)
Lemma mutate_here (c rest : text) :
  existsb (is_char ")") c = false ->
  match_here R.MUTATE_PATTERN (codes "mutate(" ++ c ++ codes ")" ++ rest)
  = Some ([("content"%string, c)], rest).
Proof.
  intros Hc. unfold match_here, R.MUTATE_PATTERN.
  change (codes "mutate(" ++ c ++ codes ")" ++ rest)
    with (codes "mutate" ++ [] ++ codes "(" ++ c ++ codes ")" ++ rest).
  rewrite rmatch_seq, rmatch_word, rmatch_seq.
  apply rmatch_run; [reflexivity|reflexivity|].
  rewrite rmatch_seq, rmatch_word, rmatch_seq, rmatch_group.
  apply star_loop_lazy.
  - clear. induction c; simpl; auto.
  - intros w1 w2 -> Hw2. destruct w2 as [|x w2]; [congruence|].
    apply existsb_suffix in Hc. destruct Hc as [_ Hc]. simpl in Hc.
    apply orb_false_iff in Hc. destruct Hc as [Hx _].
    cbn [app]. unfold Word. cbn [list_ascii_of_string Lit].
    rewrite rmatch_chr, Hx. reflexivity.
  - rewrite rmatch_word, firstn_consumed. reflexivity.
  - lia.
Qed.

(* ------------------------------------------------------------------ *)
(** ** What the words of the patterns hold *)

Lemma lang_lit (l : list ascii) (w : text) : lang (Lit l) w -> w = map N_of_ascii l.
Proof.
  revert w; induction l as [|a l IH]; intros w H; [exact H|].
  destruct l as [|b l].
  - destruct H as [c [-> Hc]]. apply N.eqb_eq in Hc. subst. reflexivity.
  - change (Lit (a :: b :: l)) with (Seq (Chr (is_char a)) (Lit (b :: l))) in H.
    destruct H as [w1 [w2 [-> [[c [-> Hc]] H2]]]].
    apply N.eqb_eq in Hc. subst. rewrite (IH _ H2). reflexivity.
Qed.

Lemma lang_word (lit : string) (w : text) : lang (Word lit) w -> w = codes lit.
Proof. apply lang_lit. Qed.

Lemma starts_with_app (w s : text) : starts_with w (w ++ s) = true.
Proof. induction w as [|c w IH]; [reflexivity|]. simpl. rewrite N.eqb_refl. exact IH. Qed.

Lemma existsb_weaken (q q' : N -> bool) (s : text) :
  (forall c, q c = true -> q' c = true) -> existsb q' s = false -> existsb q s = false.
Proof.
  intros Hq. induction s as [|c s IH]; [reflexivity|]. simpl.
  intros H. apply orb_false_iff in H. destruct H as [Hc Hs].
  rewrite (IH Hs). destruct (q c) eqn:E; [|reflexivity].
  rewrite (Hq c E) in Hc. discriminate.
Qed.

Lemma existsb_outside (p q : N -> bool) (s : text) :
  (forall c, q c = true -> p c = false) -> forallb p s = true -> existsb q s = false.
Proof.
  intros Hq. induction s as [|c s IH]; [reflexivity|]. simpl.
  intros H. apply andb_true_iff in H. destruct H as [Hc Hs].
  rewrite (IH Hs). destruct (q c) eqn:E; [|reflexivity].
  rewrite (Hq c E) in Hc. discriminate.
Qed.

Lemma r_identifier_chars (id : text) :
  R.is_identifier id = true -> id <> [] /\ forallb R.ident_char id = true.
Proof.
  destruct id as [|c cs]; [discriminate|]. simpl.
  intros H. apply andb_true_iff in H. destruct H as [Hc Hcs].
  split; [discriminate|]. rewrite Hcs.
  unfold R.ident_char. unfold R.ident_start in Hc. rewrite Hc. reflexivity.
Qed.

Lemma py_identifier_chars (id : text) :
  Py.is_identifier id = true -> id <> [] /\ forallb Py.ident_char id = true.
Proof.
  destruct id as [|c cs]; [discriminate|]. simpl.
  intros H. apply andb_true_iff in H. destruct H as [Hc Hcs].
  split; [discriminate|]. rewrite Hcs.
  unfold Py.ident_char. unfold Py.ident_start in Hc.
  apply orb_true_iff in Hc. destruct Hc as [Hc|Hc]; rewrite Hc;
    rewrite ?orb_true_r; reflexivity.
Qed.

(** A character that is no identifier character does not occur in an
    identifier. *)
Lemma r_identifier_without (a : ascii) (id : text) :
  R.ident_char (N_of_ascii a) = false -> R.is_identifier id = true ->
  existsb (is_char a) id = false.
Proof.
  intros Ha Hid. apply existsb_outside with (p := R.ident_char).
  - intros c Hc. apply N.eqb_eq in Hc. subst. exact Ha.
  - apply r_identifier_chars, Hid.
Qed.

Lemma r_assign_holds_arrow (w : text) :
  lang R.R_ASSIGN w -> existsb (is_char "<") w = true.
Proof.
  intros [w1 [w2 [-> [_ [w3 [w4 [-> [_ H]]]]]]]]. apply lang_word in H. subst.
  rewrite !existsb_app. simpl. rewrite !orb_true_r. reflexivity.
Qed.

Lemma r_walrus_holds_colon (w : text) :
  lang R.WALRUS_ASSIGN w -> existsb (is_char ":") w = true.
Proof.
  intros [w1 [w2 [-> [_ [w3 [w4 [-> [_ H]]]]]]]]. apply lang_word in H. subst.
  rewrite !existsb_app. simpl. rewrite !orb_true_r. reflexivity.
Qed.

Lemma r_equals_holds_equals (w : text) :
  lang R.EQUALS_ASSIGN w -> existsb (is_char "=") w = true.
Proof.
  intros [w1 [w2 [-> [_ [w3 [w4 [-> [_ H]]]]]]]]. apply lang_word in H. subst.
  rewrite !existsb_app. simpl. rewrite !orb_true_r. reflexivity.
Qed.

Lemma mutate_starts_with_mutate (t : text) :
  match_here R.MUTATE_PATTERN t <> None -> starts_with (codes "mutate") t = true.
Proof.
  intros H. destruct (match_here R.MUTATE_PATTERN t) as [[g rest]|] eqn:E; [|congruence].
  apply match_here_sound in E. destruct E as [w [-> [w1 [w2 [-> [H1 _]]]]]].
  apply lang_word in H1. subst. rewrite <- app_assoc. apply starts_with_app.
Qed.

(* ------------------------------------------------------------------ *)
(** ** The [mutate] blocks of the R counter *)

(** A block whose argument text holds no [)]: the [equals] pattern runs over
    that text, and the scan goes on behind the block. *)
Lemma mutate_vars_block (c rest : text) :
  existsb (is_char ")") c = false ->
  R.mutate_vars R.get_r_patterns (codes "mutate(" ++ c ++ codes ")" ++ rest)
  = R.varnames (finditer R.EQUALS_ASSIGN c) ++ R.mutate_vars R.get_r_patterns rest.
Proof.
  intros Hc. unfold R.mutate_vars. cbn [R.mutate R.equals R.get_r_patterns].
  replace (codes "mutate(" ++ c ++ codes ")" ++ rest)
    with ((codes "mutate(" ++ c ++ codes ")") ++ rest)
    by (rewrite <- !app_assoc; reflexivity).
  rewrite finditer_match with (g := [("content"%string, c)]).
  - reflexivity.
  - discriminate.
  - rewrite <- !app_assoc. apply mutate_here, Hc.
Qed.

(** Inside a block, [<id> ==] is one match of the [equals] pattern, which
    stops behind the first [=]. *)
Lemma r_equals_on_comparison (id e : text) :
  R.is_identifier id = true ->
  finditer R.EQUALS_ASSIGN (id ++ codes " == " ++ e)
  = [("varname"%string, id)] :: finditer R.EQUALS_ASSIGN (codes "= " ++ e).
Proof.
  intros Hid.
  change (id ++ codes " == " ++ e) with (id ++ codes " =" ++ codes "= " ++ e).
  rewrite app_assoc. apply finditer_match.
  - destruct id; discriminate.
  - rewrite <- app_assoc. apply r_equals_here, Hid.
Qed.

Lemma count_of_app (v : text) (l1 l2 : list text) :
  count_of v (l1 ++ l2) = count_of v l1 + count_of v l2.
Proof. unfold count_of. rewrite filter_app, length_app. reflexivity. Qed.

Lemma count_of_cons_same (v : text) (l : list text) :
  count_of v (v :: l) = S (count_of v l).
Proof. unfold count_of. simpl. rewrite text_eqb_refl. reflexivity. Qed.

Lemma count_of_in (v : text) (l : list text) : In v l -> 1 <= count_of v l.
Proof.
  unfold count_of. induction l as [|x l IH]; [intros []|].
  intros [->|H]; simpl.
  - rewrite text_eqb_refl. simpl. lia.
  - destruct (text_eqb x v); simpl; [lia|apply IH, H].
Qed.

(* ------------------------------------------------------------------ *)
(** ** Matches in front of a place of the buffer *)

Lemma finditer_empty_match (r : regex) (c : N) (s : text) (g : groups) :
  match_here r (c :: s) = Some (g, c :: s) ->
  finditer r (c :: s) = g :: finditer r s.
Proof.
  intros H. unfold finditer. cbn [scan]. rewrite H.
  replace (length (c :: s) - length (c :: s) - 1) with 0 by lia. reflexivity.
Qed.

(** When no match that begins in [pre] reaches into [B], the matches of
    [pre ++ B] end with the matches of [B]. *)
Lemma finditer_behind (r : regex) (B : text) (n : nat) :
  forall pre, length pre <= n ->
    (forall t1 t2 g rest, pre = t1 ++ t2 -> t2 <> [] ->
       match_here r (t2 ++ B) = Some (g, rest) -> exists t3, rest = t3 ++ B) ->
    exists L, finditer r (pre ++ B) = L ++ finditer r B.
Proof.
  induction n as [|n IH]; intros pre Hlen Hin.
  - destruct pre; [|simpl in Hlen; lia]. exists []. reflexivity.
  - destruct pre as [|c pre]; [exists []; reflexivity|].
    assert (Htail : exists L, finditer r (pre ++ B) = L ++ finditer r B).
    { apply IH; [simpl in Hlen; lia|].
      intros t1 t2 g rest -> Ht2 Hm. apply (Hin (c :: t1) t2 g rest); auto. }
    destruct (match_here r ((c :: pre) ++ B)) as [[g rest]|] eqn:E.
    + destruct (Hin [] (c :: pre) g rest eq_refl ltac:(discriminate) E) as [t3 ->].
      destruct (match_here_sound _ _ E) as [w [Hw _]].
      rewrite app_assoc in Hw. apply app_inv_tail in Hw.
      destruct w as [|x w].
      * simpl in Hw. subst t3. cbn [app] in *.
        rewrite (finditer_empty_match _ E).
        destruct Htail as [L ->]. exists (g :: L). reflexivity.
      * rewrite Hw, <- app_assoc in E |- *.
        rewrite (finditer_match (w := x :: w) r ltac:(discriminate) E).
        destruct (IH t3) as [L HL].
        -- apply (f_equal (@length N)) in Hw. rewrite length_app in Hw.
           simpl in Hw, Hlen. lia.
        -- intros t1 t2 g' rest' -> Ht2 Hm.
           apply (Hin ((x :: w) ++ t1) t2 g' rest'); auto.
           rewrite Hw, <- app_assoc. reflexivity.
        -- rewrite HL. exists (g :: L). reflexivity.
    + cbn [app] in *. rewrite (finditer_miss _ _ _ E). exact Htail.
Qed.

(** A run of one class ends before a character outside the class. *)
Lemma run_stops_before (p : N -> bool) (b : N) (run X u Y : text) :
  forallb p run = true -> p b = false -> run ++ X = u ++ b :: Y ->
  exists u', u = run ++ u' /\ X = u' ++ b :: Y.
Proof.
  intros Hrun Hb. revert u. induction run as [|c run IH]; intros u E.
  - exists u. auto.
  - simpl in Hrun. apply andb_true_iff in Hrun. destruct Hrun as [Hc Hrun].
    destruct u as [|x u]; simpl in E; injection E as -> E.
    + congruence.
    + destruct (IH Hrun u E) as [u' [-> ->]]. exists u'. auto.
Qed.

(** A word [<identifier> <spaces> =] that begins in front of a character [b]
    which is no identifier character ends in front of what follows [b],
    when that is neither a space nor [=]. *)
Lemma assign_no_overlap (p : N -> bool) (b c0 : N) (idw sp rest u X : text) :
  forallb p idw = true -> p b = false -> forallb is_space sp = true ->
  is_space c0 = false -> c0 <> 61%N ->
  idw ++ sp ++ codes "=" ++ rest = u ++ b :: c0 :: X ->
  exists t3, rest = t3 ++ c0 :: X.
Proof.
  intros Hidw Hb Hsp Hc0 Hne E.
  destruct (@run_stops_before _ _ _ _ _ _ Hidw Hb E) as [u' [-> E1]].
  change (u' ++ b :: c0 :: X) with (u' ++ [b] ++ c0 :: X) in E1.
  rewrite (app_assoc u' [b]) in E1.
  destruct (@run_stops_before _ _ _ _ _ _ Hsp Hc0 E1) as [u2 [_ E2]].
  destruct u2 as [|x u3]; simpl in E2; injection E2 as Hx E2.
  - congruence.
  - exists u3. exact E2.
Qed.

(** The first character of a Python identifier is no whitespace and no
    [=]. *)
Lemma py_ident_start_plain (c : N) :
  Py.ident_start c = true -> is_space c = false /\ c <> 61%N /\ Py.ident_char c = true.
Proof.
  intros Hc0. split; [|split].
  - unfold Py.ident_start, is_letter, is_lower, is_upper, between, is_char in Hc0.
    unfold is_space, between. cbn [N_of_ascii N_of_digits N.add N.mul] in Hc0.
    repeat (apply orb_true_iff in Hc0; destruct Hc0 as [Hc0|Hc0]);
      try (apply andb_true_iff in Hc0; destruct Hc0 as [H1 H2];
           apply N.leb_le in H1, H2);
      try apply N.eqb_eq in Hc0;
      repeat (apply orb_false_iff; split);
      try (apply andb_false_iff; first [left; apply N.leb_gt; lia | right; apply N.leb_gt; lia]);
      try (apply N.eqb_neq; lia).
  - intros ->. discriminate.
  - unfold Py.ident_char. unfold Py.ident_start in Hc0.
    apply orb_true_iff in Hc0. destruct Hc0 as [H|H]; rewrite H, ?orb_true_r; reflexivity.
Qed.

Lemma lang_star_class (greedy : bool) (p : N -> bool) (w : text) :
  lang (Star greedy (Chr p)) w -> forallb p w = true.
Proof.
  intros [ws [-> H]]. induction H as [|x ws [c [-> Hc]] _ IH]; [reflexivity|].
  simpl. rewrite Hc. exact IH.
Qed.

Lemma lang_py_identifier (w : text) :
  lang Py.IDENTIFIER_NAMED w -> Py.is_identifier w = true.
Proof.
  intros [w1 [w2 [-> [[c [-> Hc]] H2]]]]. apply lang_star_class in H2.
  simpl. rewrite Hc, H2. reflexivity.
Qed.

(** The words of the Python [equals] pattern. *)
Lemma lang_py_equals (w : text) :
  lang Py.EQUALS_ASSIGN w ->
  exists idw sp, w = idw ++ sp ++ codes "="
                 /\ Py.is_identifier idw = true /\ forallb is_space sp = true.
Proof.
  intros [idw [w2 [-> [Hid [sp [w3 [-> [Hsp [w4 [w5 [-> [H4 H5]]]]]]]]]]]].
  apply lang_py_identifier in Hid. apply lang_star_class in Hsp.
  apply lang_word in H4. simpl in H5. subst.
  exists idw, sp. rewrite app_nil_r. auto.
Qed.


(* ------------------------------------------------------------------ *)
(** ** The loop rule of the Python counter *)

Lemma for_loop_here (id post : text) :
  Py.is_identifier id = true ->
  match_here Py.FOR_LOOP (codes "for " ++ id ++ codes " in" ++ post)
  = Some ([("varname"%string, id)], post).
Proof.
  intros Hid. unfold match_here, Py.FOR_LOOP, Py.IDENTIFIER_NAMED, Py.IDENTIFIER_RAW.
  change (codes "for " ++ id ++ codes " in" ++ post)
    with (codes "for" ++ [32%N] ++ id ++ [32%N] ++ codes "in" ++ post).
  rewrite rmatch_seq, rmatch_word, rmatch_seq. unfold Py.WHITESPACE.
  destruct id as [|c0 cs] eqn:Eid; [discriminate|]. rewrite <- Eid in *.
  assert (Hc0 : is_space c0 = false).
  { subst id. simpl in Hid. apply andb_true_iff in Hid.
    apply py_ident_start_plain, Hid. }
  apply rmatch_run; [reflexivity|subst id; simpl; rewrite Hc0; reflexivity|].
  rewrite rmatch_seq. apply rmatch_named_ident; [exact Hid|reflexivity|].
  rewrite rmatch_seq. apply rmatch_run; [reflexivity|reflexivity|].
  rewrite rmatch_word. reflexivity.
Qed.

(** The words of the loop pattern. *)
Lemma lang_for_loop (w : text) :
  lang Py.FOR_LOOP w ->
  exists sp1 idw sp2,
    w = codes "for" ++ sp1 ++ idw ++ sp2 ++ codes "in"
    /\ forallb is_space sp1 = true /\ Py.is_identifier idw = true
    /\ forallb is_space sp2 = true.
Proof.
  intros [w1 [w2 [-> [H1 [sp1 [w3 [-> [Hsp1 [idw [w4 [-> [Hid [sp2 [w5 [-> [Hsp2 H5]]]]]]]]]]]]]]]].
  apply lang_word in H1, H5. apply lang_star_class in Hsp1, Hsp2.
  apply lang_py_identifier in Hid. subst.
  exists sp1, idw, sp2. auto.
Qed.

Lemma py_ident_char_plain (c : N) :
  Py.ident_char c = true -> is_space c = false /\ c <> 61%N.
Proof.
  intros Hc. split; [|intros ->; discriminate].
  unfold Py.ident_char, is_letter, is_lower, is_upper, is_digit, between, is_char in Hc.
  unfold is_space, between. cbn [N_of_ascii N_of_digits N.add N.mul] in Hc.
  repeat (apply orb_true_iff in Hc; destruct Hc as [Hc|Hc]);
    try (apply andb_true_iff in Hc; destruct Hc as [H1 H2];
         apply N.leb_le in H1, H2);
    try apply N.eqb_eq in Hc;
    repeat (apply orb_false_iff; split);
    try (apply andb_false_iff; first [left; apply N.leb_gt; lia | right; apply N.leb_gt; lia]);
    try (apply N.eqb_neq; lia).
Qed.

Lemma space_is_no_name_char (c : N) : is_space c = true -> Py.ident_char c = false.
Proof.
  intros Hs. destruct (Py.ident_char c) eqn:E; [|reflexivity].
  destruct (py_ident_char_plain _ E) as [H _]. congruence.
Qed.

(** A match of the loop pattern that begins in front of [for <id> in] ends
    in front of it, or [id] begins with [in] and the match began at a [for]
    that is followed by whitespace and identifier characters only. *)
Lemma for_loop_overlap (id post t2 rest w : text) :
  Py.is_identifier id = true -> t2 <> [] ->
  lang Py.FOR_LOOP w ->
  t2 ++ codes "for " ++ id ++ codes " in" ++ post = w ++ rest ->
  (exists t3, rest = t3 ++ codes "for " ++ id ++ codes " in" ++ post)
  \/ (starts_with (codes "in") id = true
      /\ exists sp1 x, t2 = codes "for" ++ sp1 ++ x
                       /\ forallb is_space sp1 = true
                       /\ Py.is_identifier (x ++ codes "for") = true).
Proof.
  intros Hid Ht2 Hw E.
  apply lang_for_loop in Hw. destruct Hw as [sp1 [idw [sp2 [-> [Hsp1 [Hidw Hsp2]]]]]].
  rewrite <- !app_assoc in E.
  change (codes "for " ++ id ++ codes " in" ++ post)
    with (102%N :: 111%N :: 114%N :: 32%N :: id ++ codes " in" ++ post) in *.
  change (codes "for" ++ sp1 ++ idw ++ sp2 ++ codes "in" ++ rest)
    with (102%N :: 111%N :: 114%N :: sp1 ++ idw ++ sp2 ++ codes "in" ++ rest) in E.
  destruct t2 as [|a [|b [|c t3]]]; try congruence; try discriminate E.
  cbn [app] in E. injection E as -> -> -> E. symmetry in E.
  destruct (@run_stops_before is_space 102%N sp1 _ t3 _ Hsp1 eq_refl E) as [t4 [-> E2]].
  clear E Ht2.
  change (t4 ++ 102%N :: 111%N :: 114%N :: 32%N :: id ++ 32%N :: 105%N :: 110%N :: post)
    with (t4 ++ [102%N; 111%N; 114%N] ++ 32%N :: id ++ 32%N :: 105%N :: 110%N :: post) in E2.
  rewrite (app_assoc t4) in E2.
  destruct (py_identifier_chars _ Hidw) as [_ Hchars].
  destruct (@run_stops_before Py.ident_char 32%N idw _ _ _ Hchars eq_refl E2) as [u' [Hu E3]].
  clear E2.
  destruct u' as [|x u1].
  - (* the identifier of the match ends with our [for] *)
    right. rewrite app_nil_r in Hu. subst idw.
    split; [|exists sp1, t4; auto].
    destruct id as [|c0 cs]; [discriminate|].
    simpl in Hid. apply andb_true_iff in Hid. destruct Hid as [Hc0 _].
    destruct (py_ident_start_plain _ Hc0) as [Hsp0 _].
    change ([] ++ 32%N :: (c0 :: cs) ++ 32%N :: 105%N :: 110%N :: post)
      with ([32%N] ++ c0 :: cs ++ 32%N :: 105%N :: 110%N :: post) in E3.
    destruct (@run_stops_before is_space c0 sp2 _ _ _ Hsp2 Hsp0 E3) as [u2 [Hu2 E4]].
    destruct u2 as [|y u2].
    + cbn [app] in E4. injection E4 as <- E4.
      destruct cs as [|c1 cs]; [discriminate E4|].
      cbn [app] in E4. injection E4 as <- _. reflexivity.
    + exfalso. destruct sp2 as [|s0 sp2]; cbn [app] in Hu2; [|destruct sp2; discriminate Hu2].
      injection Hu2 as <- <-. discriminate E4.
  - left. apply app_eq_app in Hu. destruct Hu as [l [[-> Hl]|[-> Hl]]].
    + (* the match ends in front of our [for] *)
      rewrite Hl, <- app_assoc in E3. cbn [app] in E3.
      destruct (@run_stops_before is_space 102%N sp2 _ l _ Hsp2 eq_refl E3) as [m [-> E4]].
      destruct m as [|p [|q m]]; try discriminate E4.
      cbn [app] in E4. injection E4 as _ _ ->. exists m. reflexivity.
    + (* the identifier of the match ends inside our [for] *)
      exfalso.
      assert (Hx : x = 102%N \/ x = 111%N \/ x = 114%N).
      { destruct l as [|l0 [|l1 [|l2 l]]]; cbn [app] in Hl.
        - injection Hl as <- _. auto.
        - injection Hl as _ <- _. auto.
        - injection Hl as _ _ <- _. auto.
        - injection Hl as _ _ _ Hl. destruct l; discriminate Hl. }
      destruct sp2 as [|s0 sp2]; cbn [app] in E3.
      * injection E3 as <- _. destruct Hx as [Hx|[Hx|Hx]]; discriminate Hx.
      * injection E3 as -> _.
        destruct Hx as [Hx|[Hx|Hx]]; subst x; simpl in Hsp2; discriminate Hsp2.
Qed.

Lemma drop_while_app (p : N -> bool) (a b : text) :
  forallb p a = true -> drop_while p (a ++ b) = drop_while p b.
Proof.
  induction a as [|c a IH]; [reflexivity|]. cbn [forallb app drop_while].
  intros H. apply andb_true_iff in H. destruct H as [Hc Ha].
  rewrite Hc. exact (IH Ha).
Qed.

(** [for], whitespace and the identifier of a match without its last
    [for] make a loop head. *)
Lemma loop_head_intro (sp x : text) :
  forallb is_space sp = true -> Py.is_identifier (x ++ codes "for") = true ->
  loop_head (codes "for" ++ sp ++ x) = true.
Proof.
  intros Hsp Hx. unfold loop_head. rewrite starts_with_app.
  change (skipn 3 (codes "for" ++ sp ++ x)) with (sp ++ x).
  rewrite drop_while_app by exact Hsp.
  destruct x as [|c x]; [reflexivity|].
  cbn [app Py.is_identifier is_ident] in Hx. apply andb_true_iff in Hx.
  destruct Hx as [Hc Hx]. rewrite forallb_app in Hx. apply andb_true_iff in Hx.
  destruct (py_ident_start_plain _ Hc) as [Hs _].
  cbn [drop_while]. rewrite Hs. cbn [andb Py.is_identifier is_ident].
  rewrite Hc. exact (proj1 Hx).
Qed.

Lemma ends_in_loop_head_intro (t1 t2 : text) :
  loop_head t2 = true -> ends_in_loop_head (t1 ++ t2) = true.
Proof.
  intros H. induction t1 as [|c t1 IH].
  - destruct t2; cbn [app ends_in_loop_head]; rewrite H; reflexivity.
  - cbn [app ends_in_loop_head]. rewrite IH. apply orb_true_r.
Qed.

Lemma for_loop_anywhere_open (pre id post : text) :
  Py.is_identifier id = true ->
  starts_with (codes "in") id && ends_in_loop_head pre = false ->
  exists L, finditer Py.FOR_LOOP (pre ++ codes "for " ++ id ++ codes " in" ++ post)
            = L ++ [("varname"%string, id)] :: finditer Py.FOR_LOOP post.
Proof.
  intros Hid Hopen.
  destruct (@finditer_behind Py.FOR_LOOP (codes "for " ++ id ++ codes " in" ++ post)
              (length pre) pre (le_n _)) as [L HL].
  - intros t1 t2 g rest Hpre Ht2 Hm.
    apply match_here_sound in Hm. destruct Hm as [w [Hw Hlang]].
    destruct (@for_loop_overlap id post t2 rest w Hid Ht2 Hlang Hw)
      as [H|[Hin [sp1 [x [Ht [Hsp Hx]]]]]]; [exact H|].
    exfalso. subst t2 pre.
    rewrite Hin, (@ends_in_loop_head_intro t1 _ (@loop_head_intro sp1 x Hsp Hx)) in Hopen.
    discriminate Hopen.
  - rewrite HL. exists L. f_equal.
    replace (codes "for " ++ id ++ codes " in" ++ post)
      with ((codes "for " ++ id ++ codes " in") ++ post)
      by (rewrite <- !app_assoc; reflexivity).
    apply finditer_match.
    + discriminate.
    + rewrite <- !app_assoc. apply for_loop_here, Hid.
Qed.

(** The R counter counts at [<-], at [:=] and inside [mutate(...)] only. *)
Lemma r_scan_content_nothing (content : text) :
  existsb (is_char "<") content = false -> existsb (is_char ":") content = false ->
  occurs (codes "mutate") content = false ->
  R.scan_content R.get_r_patterns content = [].
Proof.
  intros H1 H2 H3.
  unfold R.scan_content, R.r_assign_vars, R.walrus_vars, R.mutate_vars.
  cbn [R.r_assign R.walrus R.mutate R.get_r_patterns].
  rewrite (@finditer_without R.R_ASSIGN (is_char "<") content r_assign_holds_arrow H1).
  rewrite (@finditer_without R.WALRUS_ASSIGN (is_char ":") content r_walrus_holds_colon H2).
  rewrite (@finditer_not_occurring R.MUTATE_PATTERN (codes "mutate") content
             mutate_starts_with_mutate H3).
  reflexivity.
Qed.

Lemma varnames_app (l1 l2 : list groups) :
  Py.varnames (l1 ++ l2) = Py.varnames l1 ++ Py.varnames l2.
Proof. apply map_app. Qed.

Lemma count_of_filtered (kw : text) (l : list text) :
  Py.is_keyword kw = true ->
  count_of kw (filter (fun v => negb (Py.is_keyword v)) l) = 0.
Proof.
  intros Hkw. unfold count_of. induction l as [|v l IH]; [reflexivity|].
  cbn [filter]. destruct (Py.is_keyword v) eqn:Ev; cbn [negb]; [exact IH|].
  cbn [filter]. text_cases v kw; [congruence|exact IH].
Qed.

(* ------------------------------------------------------------------ *)
(** ** Matches of patterns that bind no group *)

Lemma star_loop_sound_plain (greedy : bool)
    (body : text -> groups -> cont -> option result) (L : text -> Prop) (k : cont) :
  (forall s g k' res, body s g k' = Some res ->
     exists w s', s = w ++ s' /\ L w /\ k' s' g = Some res) ->
  forall n s g res,
    star_loop greedy body k n s g = Some res ->
    exists ws s', s = concat ws ++ s' /\ Forall L ws /\ k s' g = Some res.
Proof.
  intros Hbody. induction n as [|n IH]; intros s g res H.
  - exists [], s. simpl in *. auto.
  - cbn [star_loop] in H.
    assert (Hstop : k s g = Some res ->
                    exists ws s', s = concat ws ++ s' /\ Forall L ws /\ k s' g = Some res).
    { intros Hk. exists [], s. simpl. auto. }
    assert (Hmore : body s g (fun s' g' =>
                       if length s' <? length s
                       then star_loop greedy body k n s' g' else None) = Some res ->
                    exists ws s', s = concat ws ++ s' /\ Forall L ws /\ k s' g = Some res).
    { intros Hb. apply Hbody in Hb. destruct Hb as [w [s1 [-> [Hw Hk]]]].
      destruct (length s1 <? length (w ++ s1)); [|discriminate].
      apply IH in Hk. destruct Hk as [ws [s' [-> [Hws Hk]]]].
      exists (w :: ws), s'. simpl. rewrite <- app_assoc. auto. }
    destruct greedy.
    + destruct (body s g _) eqn:Eb; [injection H as ->; apply Hmore; reflexivity|].
      apply Hstop, H.
    + destruct (k s g) eqn:Ek; [injection H as ->; apply Hstop; reflexivity|].
      apply Hmore, H.
Qed.

Lemma rmatch_sound_plain (r : regex) :
  no_groups r = true ->
  forall s g k res, rmatch r s g k = Some res ->
    exists w s', s = w ++ s' /\ lang r w /\ k s' g = Some res.
Proof.
  induction r as [|p|r1 IH1 r2 IH2|r1 IH1 r2 IH2|greedy r1 IH1|name r1 IH1|r1 IH1];
    cbn [no_groups]; intros Hng s g k res H; cbn [rmatch] in H.
  - exists [], s. simpl. auto.
  - destruct s as [|c s]; [discriminate|]. destruct (p c) eqn:Ep; [|discriminate].
    exists [c], s. simpl. eauto.
  - apply andb_true_iff in Hng. destruct Hng as [Hn1 Hn2].
    apply (IH1 Hn1) in H. destruct H as [w1 [s1 [-> [Hw1 H]]]].
    apply (IH2 Hn2) in H. destruct H as [w2 [s2 [-> [Hw2 H]]]].
    exists (w1 ++ w2), s2. rewrite <- app_assoc. simpl. eauto 7.
  - apply andb_true_iff in Hng. destruct Hng as [Hn1 Hn2].
    destruct (rmatch r1 s g k) eqn:E1.
    + injection H as ->. apply (IH1 Hn1) in E1. destruct E1 as [w [s' [-> [Hw Hk]]]].
      exists w, s'. simpl. auto.
    + apply (IH2 Hn2) in H. destruct H as [w [s' [-> [Hw Hk]]]].
      exists w, s'. simpl. auto.
  - apply star_loop_sound_plain with (L := lang r1) in H; [|exact (IH1 Hng)].
    destruct H as [ws [s' [-> [Hws Hk]]]].
    exists (concat ws), s'. simpl. eauto.
  - discriminate.
  - destruct (rmatch r1 s g _); [discriminate|].
    exists [], s. simpl. auto.
Qed.

(** A match of the [mutate] pattern: the word it consumed and the text its
    [content] group holds. *)
Lemma mutate_match_inv (t : text) (g : groups) (rest : text) :
  match_here R.MUTATE_PATTERN t = Some (g, rest) ->
  exists sp c,
    t = codes "mutate" ++ sp ++ codes "(" ++ c ++ codes ")" ++ rest
    /\ forallb is_space sp = true /\ g = [("content"%string, c)].
Proof.
  unfold match_here, R.MUTATE_PATTERN. intros H.
  rewrite rmatch_seq in H.
  apply rmatch_sound_plain in H; [|reflexivity].
  destruct H as [w1 [s1 [-> [H1 H]]]]. apply lang_word in H1. subst w1.
  rewrite rmatch_seq in H.
  apply rmatch_sound_plain in H; [|reflexivity].
  destruct H as [sp [s2 [-> [Hsp H]]]]. apply lang_star_class in Hsp.
  rewrite rmatch_seq in H.
  apply rmatch_sound_plain in H; [|reflexivity].
  destruct H as [w3 [s3 [-> [H3 H]]]]. apply lang_word in H3. subst w3.
  rewrite rmatch_seq, rmatch_group in H.
  apply rmatch_sound_plain in H; [|reflexivity].
  destruct H as [c [s4 [-> [_ H]]]].
  apply rmatch_sound_plain in H; [|reflexivity].
  destruct H as [w5 [s5 [-> [H5 H]]]]. apply lang_word in H5. subst w5.
  rewrite firstn_consumed in H. injection H as <- <-.
  exists sp, c. auto.
Qed.

(* ------------------------------------------------------------------ *)
(** ** A comparison inside a [mutate] block, anywhere in the buffer *)

Lemma r_ident_start_plain (c : N) :
  R.ident_start c = true -> is_space c = false /\ c <> 61%N.
Proof.
  intros Hc. destruct (@py_ident_start_plain c) as [H1 [H2 _]]; [|auto].
  unfold Py.ident_start. unfold R.ident_start in Hc. rewrite Hc. reflexivity.
Qed.

Lemma lang_r_equals (w : text) :
  lang R.EQUALS_ASSIGN w ->
  exists idw sp, w = idw ++ sp ++ codes "="
                 /\ R.is_identifier idw = true /\ forallb is_space sp = true.
Proof.
  intros [idw [w2 [-> [Hid [sp [w3 [-> [Hsp H3]]]]]]]].
  destruct Hid as [w1 [w1' [-> [[c [-> Hc]] H2]]]].
  apply lang_star_class in H2, Hsp. apply lang_word in H3. subst.
  exists ([c] ++ w1'), sp. simpl. rewrite Hc, H2. auto.
Qed.

Lemma r_equals_anywhere (pre : text) (b : N) (id post : text) :
  R.ident_char b = false -> R.is_identifier id = true ->
  exists L, finditer R.EQUALS_ASSIGN (pre ++ b :: id ++ codes " =" ++ post)
            = L ++ [("varname"%string, id)] :: finditer R.EQUALS_ASSIGN post.
Proof.
  intros Hb Hid.
  destruct (@finditer_behind R.EQUALS_ASSIGN (id ++ codes " =" ++ post)
              (length (pre ++ [b])) (pre ++ [b]) (le_n _)) as [L HL].
  - intros t1 t2 g rest E Ht2 Hm.
    apply match_here_sound in Hm. destruct Hm as [w [Hw Hlang]].
    apply lang_r_equals in Hlang. destruct Hlang as [idw [sp [-> [Hidw Hsp]]]].
    assert (Hend : exists t2', t2 = t2' ++ [b]).
    { destruct (exists_last Ht2) as [t2' [x E2]]. subst t2.
      rewrite app_assoc in E. apply app_inj_tail in E. destruct E as [_ <-].
      exists t2'. reflexivity. }
    destruct Hend as [t2' ->]. rewrite <- !app_assoc in Hw. cbn [app] in Hw.
    destruct (r_identifier_chars _ Hidw) as [_ Hchars].
    destruct id as [|c0 cs]; [discriminate|].
    assert (Hc0 : is_space c0 = false /\ c0 <> 61%N).
    { simpl in Hid. apply andb_true_iff in Hid. apply r_ident_start_plain, Hid. }
    destruct Hc0 as [Hsp0 Hne]. symmetry in Hw.
    apply (@assign_no_overlap R.ident_char b c0 idw sp rest t2'
             (cs ++ codes " =" ++ post) Hchars Hb Hsp Hsp0 Hne Hw).
  - rewrite <- app_assoc in HL. cbn [app] in HL. rewrite HL.
    exists L. f_equal. rewrite app_assoc. apply finditer_match.
    + destruct id; discriminate.
    + rewrite <- app_assoc. apply r_equals_here; assumption.
Qed.

Lemma forallb_weaken (p q : N -> bool) (s : text) :
  (forall c, p c = true -> q c = true) -> forallb p s = true -> forallb q s = true.
Proof.
  intros Hpq. induction s as [|c s IH]; [reflexivity|]. simpl.
  intros H. apply andb_true_iff in H. destruct H as [Hc Hs].
  rewrite (Hpq c Hc), (IH Hs). reflexivity.
Qed.

Lemma mutate_vars_match (w rest : text) (g : groups) :
  w <> [] -> match_here R.MUTATE_PATTERN (w ++ rest) = Some (g, rest) ->
  R.mutate_vars R.get_r_patterns (w ++ rest)
  = R.varnames (finditer R.EQUALS_ASSIGN (group g "content"))
    ++ R.mutate_vars R.get_r_patterns rest.
Proof.
  intros Hw H. unfold R.mutate_vars. cbn [R.mutate R.equals R.get_r_patterns].
  rewrite (finditer_match _ Hw H). reflexivity.
Qed.

Lemma mutate_vars_miss (c : N) (s : text) :
  match_here R.MUTATE_PATTERN (c :: s) = None ->
  R.mutate_vars R.get_r_patterns (c :: s) = R.mutate_vars R.get_r_patterns s.
Proof.
  intros H. unfold R.mutate_vars. cbn [R.mutate R.get_r_patterns].
  rewrite (finditer_miss _ _ _ H). reflexivity.
Qed.

(** The first identifier the [mutate] loop counts in [mutate(id == e)...]. *)
Lemma mutate_vars_comparison_first (id e post : text) :
  R.is_identifier id = true ->
  exists more,
    R.mutate_vars R.get_r_patterns
      (codes "mutate(" ++ id ++ codes " == " ++ e ++ codes ")" ++ post)
    = id :: more.
Proof.
  intros Hid.
  assert (Hclose : existsb (is_char ")") id = false)
    by (apply r_identifier_without; [reflexivity|exact Hid]).
  destruct (@split_first (is_char ")") (e ++ codes ")" ++ post))
    as [e1 [b [rest [E [He1 Hb]]]]].
  { rewrite existsb_app. simpl. apply orb_true_r. }
  apply N.eqb_eq in Hb. subst b.
  replace (codes "mutate(" ++ id ++ codes " == " ++ e ++ codes ")" ++ post)
    with (codes "mutate(" ++ (id ++ codes " == " ++ e1) ++ codes ")" ++ rest)
    by (rewrite E, <- !app_assoc; reflexivity).
  rewrite mutate_vars_block.
  - rewrite r_equals_on_comparison by exact Hid.
    cbn [R.varnames map group String.eqb Ascii.eqb Bool.eqb app].
    eexists. reflexivity.
  - rewrite !existsb_app, Hclose, He1. reflexivity.
Qed.

(** Wherever [mutate(id == e)] stands in the buffer, the [mutate] loop
    counts [id]: at the block itself, or inside an earlier block whose
    argument text runs over it. *)
Lemma mutate_vars_comparison_anywhere (id e post : text) :
  R.is_identifier id = true ->
  forall n pre, length pre <= n ->
    In id (R.mutate_vars R.get_r_patterns
             (pre ++ codes "mutate(" ++ id ++ codes " == " ++ e ++ codes ")" ++ post)).
Proof.
  intros Hid.
  remember (id ++ codes " == " ++ e ++ codes ")" ++ post) as tail eqn:Htail.
  assert (Hbase : In id (R.mutate_vars R.get_r_patterns (codes "mutate(" ++ tail))).
  { destruct (@mutate_vars_comparison_first id e post Hid) as [more Hm].
    subst tail. rewrite Hm. left. reflexivity. }
  induction n as [|n IH]; intros pre Hlen.
  - destruct pre; [exact Hbase|simpl in Hlen; lia].
  - destruct pre as [|c pre]; [exact Hbase|].
    destruct (match_here R.MUTATE_PATTERN ((c :: pre) ++ codes "mutate(" ++ tail))
      as [[g rest]|] eqn:E.
    2: { cbn [app] in *. rewrite (mutate_vars_miss _ _ E). apply IH. simpl in Hlen. lia. }
    destruct (mutate_match_inv _ E) as [sp [cont [Ew [Hsp ->]]]].
    set (w := codes "mutate" ++ sp ++ codes "(" ++ cont ++ codes ")").
    assert (Ew2 : (c :: pre) ++ codes "mutate(" ++ tail = w ++ rest)
      by (rewrite Ew; unfold w; rewrite <- !app_assoc; reflexivity).
    rewrite Ew2 in E |- *.
    rewrite (@mutate_vars_match w rest _ ltac:(discriminate) E).
    cbn [group String.eqb Ascii.eqb Bool.eqb]. apply in_or_app. clear E Ew2 w.
    (* the opening of the match lies in [pre] *)
    set (run := codes "utate" ++ sp ++ codes "(").
    assert (E1 : run ++ cont ++ codes ")" ++ rest
                 = pre ++ 109%N :: codes "utate(" ++ tail).
    { cbn [app] in Ew. injection Ew as _ Ew. unfold run.
      rewrite <- !app_assoc. symmetry. exact Ew. }
    assert (Hrun : forallb (fun x => negb (x =? 109)%N) run = true).
    { unfold run. rewrite !forallb_app.
      rewrite (@forallb_weaken is_space (fun x => negb (x =? 109)%N) sp);
        [reflexivity| |exact Hsp].
      intros x Hx. destruct (x =? 109)%N eqn:Ex; [|reflexivity].
      apply N.eqb_eq in Ex. subst x. discriminate Hx. }
    destruct (@run_stops_before _ 109%N _ _ _ _ Hrun eq_refl E1) as [u' [Hpre Ec]].
    apply app_eq_app in Ec. destruct Ec as [l [[Hcont Hl]|[Hu Hl]]].
    + (* the argument text of the match runs over the block *)
      left.
      assert (HM : forallb (fun x => negb (is_char ")" x))
                     (codes "mutate(" ++ id ++ codes " == ") = true).
      { rewrite !forallb_app.
        rewrite (@forallb_weaken R.ident_char (fun x => negb (is_char ")" x)) id);
          [reflexivity| |apply r_identifier_chars, Hid].
        intros x Hx. destruct (is_char ")" x) eqn:Ex; [|reflexivity].
        apply N.eqb_eq in Ex. subst x. discriminate Hx. }
      assert (El : (codes "mutate(" ++ id ++ codes " == ") ++ e ++ codes ")" ++ post
                   = l ++ 41%N :: rest).
      { rewrite <- !app_assoc. rewrite <- Htail. exact Hl. }
      destruct (@run_stops_before _ 41%N _ _ _ _ HM eq_refl El) as [u2 [-> _]].
      subst cont.
      replace (u' ++ (codes "mutate(" ++ id ++ codes " == ") ++ u2)
        with ((u' ++ codes "mutate") ++ 40%N :: id ++ codes " =" ++ codes "= " ++ u2)
        by (rewrite <- !app_assoc; reflexivity).
      destruct (@r_equals_anywhere (u' ++ codes "mutate") 40%N id (codes "= " ++ u2)
                  eq_refl Hid) as [L HL].
      rewrite HL. unfold R.varnames. rewrite map_app, in_app_iff. right. left. reflexivity.
    + (* the match ends in front of the block *)
      right. destruct l as [|x l]; [discriminate Hl|].
      cbn [app] in Hl. injection Hl as _ ->.
      apply IH. rewrite Hpre, Hu in Hlen. cbn [length] in Hlen.
      rewrite !length_app in Hlen. cbn [length] in Hlen. lia.
Qed.

(* ================================================================== *)
(** * The claims *)

(** C1, as the code has it.  On [a, b, c = 1, 2, 3] the multi-target rule
    counts [a], [b] and [c] once each and no right-hand-side token is
    counted; the simple-assignment rule, which runs over the same buffer,
    also matches [c =], so the local mapping is [{c: 2, a: 1, b: 1}]. *)
Theorem multi_target_assignment_counts :
  let content := codes "a, b, c = 1, 2, 3" in
  let p := Py.get_python_patterns in
  Py.multi_vars p content = [codes "a"; codes "b"; codes "c"]
  /\ Py.equals_vars p content = [codes "c"]
  /\ Py.walrus_vars p content = []
  /\ Py.augmented_vars p content = []
  /\ Py.for_vars p content = []
  /\ Py.scan_content p content = [(codes "c", 2); (codes "a", 1); (codes "b", 1)]
  /\ dict_get (Py.scan_content p content) (codes "1") = 0
  /\ dict_get (Py.scan_content p content) (codes "2") = 0
  /\ dict_get (Py.scan_content p content) (codes "3") = 0.
Proof. vm_compute. repeat split. Qed.

(** C1 fails on the code: the last target of [a, b, c = 1, 2, 3] has two
    occurrences, not one. *)
Lemma multi_target_last_name_counted_twice :
  dict_get (Py.scan_content Py.get_python_patterns (codes "a, b, c = 1, 2, 3")) (codes "c") = 2
  /\ ~ (dict_get (Py.scan_content Py.get_python_patterns (codes "a, b, c = 1, 2, 3"))
                 (codes "a") = 1
        /\ dict_get (Py.scan_content Py.get_python_patterns (codes "a, b, c = 1, 2, 3"))
                    (codes "b") = 1
        /\ dict_get (Py.scan_content Py.get_python_patterns (codes "a, b, c = 1, 2, 3"))
                    (codes "c") = 1).
Proof.
  split; [vm_compute; reflexivity|].
  intros [_ [_ H]]. vm_compute in H. discriminate H.
Qed.

(** C2, as the code has it.  The Python counter has a loop rule: wherever
    [for <id> in] stands in the buffer, the rule counts [id] there, once,
    unless [id] begins with [in] and the text in front ends in [for],
    whitespace (possibly none) and at most an identifier: a match that began
    at that earlier [for] may then run into it, as in [for for index in y],
    where [for] is counted and [index] is not.  So the local count of [id]
    is at least one.  The R counter has no loop rule: it
    counts only at [<-], at [:=] and inside [mutate(...)], and a loop header
    yields nothing. *)
Theorem loop_binding_rule_python_only (pre id post : text) :
  Py.is_identifier id = true ->
  starts_with (codes "in") id && ends_in_loop_head pre = false ->
  (exists before,
      Py.for_vars Py.get_python_patterns
        (pre ++ codes "for " ++ id ++ codes " in" ++ post)
      = before ++ id :: Py.for_vars Py.get_python_patterns post)
  /\ 1 <= dict_get (Py.scan_content Py.get_python_patterns
                      (pre ++ codes "for " ++ id ++ codes " in" ++ post)) id
  /\ Py.for_vars Py.get_python_patterns (codes "for for index in y") = [codes "for"]
  /\ (forall content,
        existsb (is_char "<") content = false -> existsb (is_char ":") content = false ->
        occurs (codes "mutate") content = false ->
        R.scan_content R.get_r_patterns content = [])
  /\ R.scan_content R.get_r_patterns (codes "for (i in 1:3) print(i)") = []
  /\ R.scan_content R.get_r_patterns (codes "for i in xs") = [].
Proof.
  intros Hid Hopen.
  assert (Hfor : exists before,
             Py.for_vars Py.get_python_patterns
               (pre ++ codes "for " ++ id ++ codes " in" ++ post)
             = before ++ id :: Py.for_vars Py.get_python_patterns post).
  { destruct (@for_loop_anywhere_open pre id post Hid Hopen) as [L HL].
    unfold Py.for_vars. cbn [Py.for_loop Py.get_python_patterns]. rewrite HL.
    exists (Py.varnames L). rewrite varnames_app. reflexivity. }
  split; [exact Hfor|]. split; [|split; [|split; [|split]]].
  - destruct Hfor as [before Hb].
    rewrite py_scan_content_tally, dict_get_tally. unfold Py.occurrences.
    rewrite Hb, !count_of_app, count_of_cons_same. lia.
  - vm_compute. reflexivity.
  - exact r_scan_content_nothing.
  - vm_compute. reflexivity.
  - vm_compute. reflexivity.
Qed.

Lemma loop_binding_rule_python_only_witness :
  1 <= dict_get (Py.scan_content Py.get_python_patterns
                   (codes "total = 0; " ++ codes "for " ++ codes "index" ++ codes " in"
                    ++ codes " items: total += index")) (codes "index")
  /\ 1 <= dict_get (Py.scan_content Py.get_python_patterns
                      (codes "for " ++ codes "for " ++ codes "x" ++ codes " in"
                       ++ codes " y")) (codes "x")
  /\ R.scan_content R.get_r_patterns (codes "for (item in items) print(item)") = [].
Proof.
  destruct (@loop_binding_rule_python_only (codes "total = 0; ") (codes "index")
              (codes " items: total += index")) as [_ [H1 [_ [H2 _]]]].
  - reflexivity.
  - reflexivity.
  - destruct (@loop_binding_rule_python_only (codes "for ") (codes "x") (codes " y"))
      as [_ [H3 _]].
    + reflexivity.
    + reflexivity.
    + split; [exact H1|]. split; [exact H3|]. apply H2; reflexivity.
Defined.

(** C2 fails on the code.  For the second language, a loop over [i] gives
    [i] no occurrence.  For the first, in [for for index in y] the match
    that begins at the first [for] ends inside [index]: [for] gets the
    occurrence and [index] gets none. *)
Lemma loop_variable_not_counted :
  dict_get (R.scan_content R.get_r_patterns (codes "for (i in 1:3) print(i)")) (codes "i") = 0
  /\ dict_get (R.scan_content R.get_r_patterns (codes "for i in xs")) (codes "i") <> 1
  /\ dict_get (Py.scan_content Py.get_python_patterns (codes "for for index in y"))
              (codes "index") = 0
  /\ dict_get (Py.scan_content Py.get_python_patterns (codes "for for index in y"))
              (codes "for") = 1.
Proof.
  split; [vm_compute; reflexivity|]. split; [vm_compute; discriminate|].
  split; vm_compute; reflexivity.
Qed.




(** C4. For every sequence of per-file local mappings (dictionaries, so
    without repeated keys) and every identifier, the identifier's count in
    the ranking is the sum of its counts in the local mappings, and the counts
    of the ranking add up to the counts of the local mappings.  For both
    counters run on a directory tree: an identifier's count in the ranking is
    the sum of its counts in the local mappings of the files handed to the
    scanner, and the counts of the ranking add up to the number of matched
    occurrences in the files that were read. *)
Theorem global_count_is_sum_of_local_counts
    (locals : list dict) (directory : text) (t : dirtree) (id : text) :
  Forall (fun d => NoDup (keys d)) locals ->
  (dict_get (sorted_desc snd (Walk.aggregate locals)) id
   = total (map (fun d => dict_get d id) locals)
   /\ total (values (sorted_desc snd (Walk.aggregate locals)))
      = total (map (fun d => total (values d)) locals))
  /\ (dict_get (fst (Py.count_variables directory t)) id
      = total (map (fun f => dict_get (fst (Py.analyze (snd f))) id)
                   (Py.candidates directory t))
      /\ total (values (fst (Py.count_variables directory t)))
         = total (map (fun f : text * option text =>
                         match snd f with
                         | Some content =>
                             length (Py.occurrences Py.get_python_patterns content)
                         | None => 0
                         end)
                      (Py.candidates directory t)))
  /\ (dict_get (fst (R.count_variables directory t)) id
      = total (map (fun f => dict_get (fst (R.analyze (snd f))) id)
                   (R.candidates directory t))
      /\ total (values (fst (R.count_variables directory t)))
         = total (map (fun f : text * option text =>
                         match snd f with
                         | Some content =>
                             length (R.occurrences R.get_r_patterns content)
                         | None => 0
                         end)
                      (R.candidates directory t))).
Proof.
  intros Hwf. split; [|split].
  - split.
    + rewrite ranking_get by apply aggregate_nodup.
      unfold Walk.aggregate. rewrite fold_merge_get by assumption. reflexivity.
    + rewrite ranking_total. unfold Walk.aggregate.
      rewrite fold_merge_total. reflexivity.
  - rewrite py_count_variables_eq. cbn [fst]. unfold Py.global_counts.
    rewrite scan_files_counts. split.
    + rewrite ranking_get by apply aggregate_nodup.
      unfold Walk.aggregate. rewrite fold_merge_get.
      * rewrite map_map. reflexivity.
      * apply Forall_map, Forall_forall. intros f _. apply py_analyze_nodup.
    + rewrite ranking_total. unfold Walk.aggregate.
      rewrite fold_merge_total, map_map. cbn [values total map fold_right plus].
      f_equal. apply map_ext. intros f. apply py_analyze_total.
  - rewrite r_count_variables_eq. cbn [fst]. unfold R.global_counts.
    rewrite scan_files_counts. split.
    + rewrite ranking_get by apply aggregate_nodup.
      unfold Walk.aggregate. rewrite fold_merge_get.
      * rewrite map_map. reflexivity.
      * apply Forall_map, Forall_forall. intros f _. apply r_analyze_nodup.
    + rewrite ranking_total. unfold Walk.aggregate.
      rewrite fold_merge_total, map_map. cbn [values total map fold_right plus].
      f_equal. apply map_ext. intros f. apply r_analyze_total.
Qed.

Lemma global_count_is_sum_of_local_counts_witness :
  let locals := [ [(codes "x", 2); (codes "y", 1)]; []; [(codes "y", 3); (codes "x", 1)] ] in
  dict_get (sorted_desc snd (Walk.aggregate locals)) (codes "x") = 3
  /\ total (values (fst (Py.count_variables (codes "proj") demo_tree))) = 6.
Proof.
  intros locals.
  destruct (@global_count_is_sum_of_local_counts locals (codes "proj") demo_tree (codes "x"))
    as [[H1 _] [[_ H2] _]].
  - repeat constructor; simpl; intuition discriminate.
  - split; [rewrite H1 | rewrite H2]; reflexivity.
Defined.

(** C5. The ranking of either counter is sorted by count descending: every
    entry's count is at least that of every later entry, so two adjacent
    entries of different counts are strictly decreasing; and the sort is
    stable: the entries of any one count stand in the order in which the
    folded global mapping holds them. *)
Theorem ranking_sorted_descending_and_stable (directory : text) (t : dirtree) :
  (StronglySorted (desc snd) (fst (Py.count_variables directory t))
   /\ Sorted (fun a b : text * nat => snd a <> snd b -> snd b < snd a)
             (fst (Py.count_variables directory t))
   /\ forall c, filter (fun e => snd e =? c) (fst (Py.count_variables directory t))
                = filter (fun e => snd e =? c) (Py.global_counts directory t))
  /\ (StronglySorted (desc snd) (fst (R.count_variables directory t))
      /\ Sorted (fun a b : text * nat => snd a <> snd b -> snd b < snd a)
                (fst (R.count_variables directory t))
      /\ forall c, filter (fun e => snd e =? c) (fst (R.count_variables directory t))
                   = filter (fun e => snd e =? c) (R.global_counts directory t)).
Proof.
  rewrite py_count_variables_eq, r_count_variables_eq. cbn [fst].
  repeat split;
    first [ apply sorted_desc_sorted | apply sorted_desc_adjacent
          | intros c; apply sorted_desc_stable ].
Qed.

(** C6. Let the two rankings be any orderings of the two global mappings:
    whatever order the set of shared names is iterated in, every identifier
    of both rankings has exactly one record, which holds the identifier's
    counts in the two global mappings; only shared identifiers have a
    record; and the records are sorted by the sum of the two counts,
    descending. *)
Theorem shared_records_hold_global_counts
    (iter_set : list text -> list text) (gp gr : dict)
    (py_results r_results : list (text * nat)) :
  (forall l, Permutation (iter_set l) l) ->
  NoDup (keys gp) -> NoDup (keys gr) ->
  Permutation py_results gp -> Permutation r_results gr ->
  (forall var, In var (keys py_results) -> In var (keys r_results) ->
     filter (fun rec : text * nat * nat => text_eqb (fst (fst rec)) var)
            (Combiner.find_shared_variables iter_set py_results r_results)
     = [(var, dict_get gp var, dict_get gr var)])
  /\ (forall rec, In rec (Combiner.find_shared_variables iter_set py_results r_results) ->
        In (fst (fst rec)) (keys py_results) /\ In (fst (fst rec)) (keys r_results))
  /\ StronglySorted (desc (fun x : text * nat * nat => snd (fst x) + snd x))
       (Combiner.find_shared_variables iter_set py_results r_results).
Proof.
  intros Hiter Hgp Hgr Hpy Hr.
  assert (Hnp : NoDup (keys py_results)).
  { unfold keys. eapply Permutation_NoDup; [apply Permutation_map; symmetry; exact Hpy|exact Hgp]. }
  assert (Hnr : NoDup (keys r_results)).
  { unfold keys. eapply Permutation_NoDup; [apply Permutation_map; symmetry; exact Hr|exact Hgr]. }
  unfold Combiner.find_shared_variables.
  rewrite !dict_of_nodup by assumption.
  set (shared := Combiner.intersection (map fst py_results) (map fst r_results)).
  set (record := fun var : text => (var, dict_get py_results var, dict_get r_results var)).
  set (total_count := fun x : text * nat * nat => snd (fst x) + snd x).
  assert (Hperm : Permutation (sorted_desc total_count (map record (iter_set shared)))
                              (map record shared)).
  { rewrite sorted_desc_perm. apply Permutation_map, Hiter. }
  split; [|split].
  - intros var Hvp Hvr.
    apply Permutation_length_1_inv. symmetry.
    etransitivity; [apply filter_perm, Hperm|].
    assert (Hf : filter (fun rec : text * nat * nat => text_eqb (fst (fst rec)) var)
                        (map record shared)
                 = map record (filter (fun y => text_eqb y var) shared)).
    { clear. induction shared as [|y l IH]; [reflexivity|].
      simpl. destruct (text_eqb y var); simpl; rewrite IH; reflexivity. }
    rewrite Hf, filter_one.
    + simpl. unfold record.
      rewrite (dict_get_perm var Hnp Hpy), (dict_get_perm var Hnr Hr). reflexivity.
    + apply intersection_nodup.
    + apply intersection_in. split; assumption.
  - intros rec Hin.
    apply (Permutation_in _ Hperm) in Hin. apply in_map_iff in Hin.
    destruct Hin as [var [<- Hin]]. apply intersection_in in Hin. exact Hin.
  - apply sorted_desc_sorted.
Qed.

Lemma shared_records_hold_global_counts_witness :
  filter (fun rec : text * nat * nat => text_eqb (fst (fst rec)) (codes "count"))
         (Combiner.find_shared_variables (@rev text)
            (fst (Py.count_variables (codes "proj") demo_tree))
            (fst (R.count_variables (codes "proj") demo_tree)))
  = [(codes "count", 2, 1)].
Proof.
  destruct (@shared_records_hold_global_counts (@rev text)
              (Py.global_counts (codes "proj") demo_tree)
              (R.global_counts (codes "proj") demo_tree)
              (fst (Py.count_variables (codes "proj") demo_tree))
              (fst (R.count_variables (codes "proj") demo_tree)))
    as [H _].
  - intros l. symmetry. apply Permutation_rev.
  - unfold Py.global_counts. rewrite scan_files_counts. apply aggregate_nodup.
  - unfold R.global_counts. rewrite scan_files_counts. apply aggregate_nodup.
  - rewrite py_count_variables_eq. apply sorted_desc_perm.
  - rewrite r_count_variables_eq. apply sorted_desc_perm.
  - rewrite H.
    + vm_compute. reflexivity.
    + vm_compute. tauto.
    + vm_compute. tauto.
Defined.

(** What [count_variables] returns, when it returns.  A file whose read fails
    gives the empty mapping and a false success flag; the flag is true
    exactly for the files that were read; the Processed-File List is, in
    order, the paths of the files whose flag is true; and the result is what
    it would be without the unreadable file. *)
Lemma returned_result_skips_unreadable_file (directory : text) (t : dirtree) :
  Py.analyze_python_file None Py.get_python_patterns = ([], false)
  /\ (forall file : option text,
        snd (Py.analyze_python_file file Py.get_python_patterns)
        = match file with Some _ => true | None => false end)
  /\ snd (Py.count_variables directory t)
     = map fst (filter (fun f => snd (Py.analyze (snd f))) (Py.candidates directory t))
  /\ (forall (pre post : list (text * option text)) (path : text),
        Walk.count_variables_in Py.analyze (pre ++ (path, None) :: post)
        = Walk.count_variables_in Py.analyze (pre ++ post)).
Proof.
  split; [reflexivity|]. split; [intros [c|]; reflexivity|]. split.
  - rewrite py_count_variables_eq. reflexivity.
  - intros pre post path. rewrite !count_variables_in_eq.
    rewrite !map_app, !filter_app. unfold Walk.aggregate.
    rewrite !fold_left_app. reflexivity.
Qed.

Lemma diagnostic_names_the_path (encodable : N -> bool) (strerror : text -> text)
    (file_path : text) :
  forallb encodable file_path = false ->
  printable encodable (Py.diagnostic strerror file_path) = false.
Proof.
  intros H. unfold printable, Py.diagnostic.
  rewrite !forallb_app, H, andb_false_r. reflexivity.
Qed.

Section RaisingFacts.
Variable encodable : N -> bool.
Variable strerror : text -> text.

(** The walk that meets an unreadable file whose path cannot be printed
    raises, wherever the file stands among the candidates. *)
Lemma run_scan_files_raises (fs : list (text * option text)) (file_path : text) :
  In (file_path, None) fs -> forallb encodable file_path = false ->
  forall st,
    Walk.run_scan_files
      (fun path file =>
         Py.run_analyze_python_file encodable strerror path file Py.get_python_patterns)
      fs st = None.
Proof.
  intros Hin Hbad. induction fs as [|f fs IH]; [contradiction|]. intros st.
  cbn [Walk.run_scan_files].
  destruct Hin as [->|Hin].
  - cbn [fst snd Py.run_analyze_python_file].
    rewrite (@diagnostic_names_the_path encodable strerror file_path Hbad). reflexivity.
  - destruct (Py.run_analyze_python_file encodable strerror (fst f) (snd f)
                Py.get_python_patterns) as [[file_counts success]|]; [|reflexivity].
    apply IH, Hin.
Qed.

(** When the diagnostic of every unreadable file can be printed, the walk
    returns, and it returns the result of the loop over the returned values. *)
Lemma run_scan_files_returns (fs : list (text * option text)) :
  (forall file_path, In (file_path, None) fs ->
     printable encodable (Py.diagnostic strerror file_path) = true) ->
  forall st,
    Walk.run_scan_files
      (fun path file =>
         Py.run_analyze_python_file encodable strerror path file Py.get_python_patterns)
      fs st
    = Some (fold_left (Walk.visit Py.analyze) fs st).
Proof.
  induction fs as [|[path file] fs IH]; intros Hok st; [reflexivity|].
  cbn [Walk.run_scan_files fold_left fst snd].
  assert (Hfs : forall file_path, In (file_path, None) fs ->
                  printable encodable (Py.diagnostic strerror file_path) = true).
  { intros p Hp. apply Hok. right. exact Hp. }
  destruct file as [content|].
  - cbn [Py.run_analyze_python_file]. rewrite (IH Hfs). reflexivity.
  - cbn [Py.run_analyze_python_file]. rewrite (Hok path (or_introl eq_refl)).
    rewrite (IH Hfs). reflexivity.
Qed.
End RaisingFacts.

(** C7, on the code.  A failing read is caught, but the handler prints a
    diagnostic that names the path before it returns, and nothing catches
    what that [print] raises: when the standard output cannot encode the
    path, the exception leaves the per-file scan, and every walk that has
    such a file among its candidates is abandoned with no result, whatever
    the other files hold.  When the diagnostic of every unreadable candidate
    can be printed, the walk returns, with the empty mapping and a false flag
    for each unreadable file.  On a UTF-8 standard output, the project with
    the unreadable file [caf\udcff.py] between [a.py] and [b.py] raises; with
    that file left out it returns the counts of [x] and [y] and both
    paths. *)
Theorem unprintable_diagnostic_ends_the_walk
    (encodable : N -> bool) (strerror : text -> text) :
  (forall file_path,
      forallb encodable file_path = false ->
      Py.run_analyze_python_file encodable strerror file_path None Py.get_python_patterns
      = None)
  /\ (forall directory t file_path,
        In (file_path, None) (Py.candidates directory t) ->
        forallb encodable file_path = false ->
        Py.run_count_variables encodable strerror directory t = None)
  /\ (forall directory t,
        (forall file_path, In (file_path, None) (Py.candidates directory t) ->
           printable encodable (Py.diagnostic strerror file_path) = true) ->
        Py.run_count_variables encodable strerror directory t
        = Some (Py.count_variables directory t))
  /\ Py.run_count_variables utf8_strict strerror (codes "proj") unprintable_tree = None
  /\ Py.run_count_variables utf8_strict strerror (codes "proj")
       (Dir [] [ (codes "a.py", Some (codes "x = 1"));
                 (codes "b.py", Some (codes "y = 2")) ])
     = Some ([(codes "x", 1); (codes "y", 1)], [codes "proj/a.py"; codes "proj/b.py"]).
Proof.
  assert (Hraise : forall enc directory t file_path,
             In (file_path, None) (Py.candidates directory t) ->
             forallb enc file_path = false ->
             Py.run_count_variables enc strerror directory t = None).
  { intros enc directory t file_path Hin Hbad.
    unfold Py.run_count_variables, Walk.run_count_variables_in.
    rewrite (@run_scan_files_raises enc strerror _ file_path Hin Hbad). reflexivity. }
  split; [|split; [|split; [|split]]].
  - intros file_path Hbad. cbn [Py.run_analyze_python_file].
    rewrite (@diagnostic_names_the_path encodable strerror file_path Hbad). reflexivity.
  - apply Hraise.
  - intros directory t Hok.
    unfold Py.run_count_variables, Walk.run_count_variables_in.
    rewrite (@run_scan_files_returns encodable strerror _ Hok).
    unfold Py.count_variables, Walk.count_variables, Walk.count_variables_in,
      Walk.scan_files.
    unfold Py.candidates.
    destruct (fold_left (Walk.visit Py.analyze)
                (Walk.candidates Py.should_skip_directory Py.is_py directory t) ([], []));
      reflexivity.
  - apply (Hraise utf8_strict (codes "proj") unprintable_tree
             (codes "proj/caf" ++ [56575%N] ++ codes ".py")).
    + vm_compute. tauto.
    + vm_compute. reflexivity.
  - vm_compute. reflexivity.
Qed.

Lemma unprintable_diagnostic_ends_the_walk_witness :
  Py.run_analyze_python_file utf8_strict (fun _ => codes "[Errno 13] Permission denied")
    (codes "proj/caf" ++ [56575%N] ++ codes ".py") None Py.get_python_patterns = None
  /\ Py.run_count_variables utf8_strict (fun _ => codes "[Errno 13] Permission denied")
       (codes "proj") unprintable_tree = None
  /\ Py.run_count_variables utf8_strict (fun _ => codes "[Errno 13] Permission denied")
       (codes "proj") demo_tree
     = Some (Py.count_variables (codes "proj") demo_tree).
Proof.
  destruct (@unprintable_diagnostic_ends_the_walk utf8_strict
              (fun _ => codes "[Errno 13] Permission denied")) as [H1 [H2 [H3 _]]].
  split; [apply H1; reflexivity|]. split.
  - apply (H2 (codes "proj") unprintable_tree
              (codes "proj/caf" ++ [56575%N] ++ codes ".py")).
    + vm_compute. tauto.
    + reflexivity.
  - apply H3. intros file_path Hin. vm_compute in Hin.
    destruct Hin as [Hin|[Hin|[Hin|[]]]]; try discriminate Hin.
    injection Hin as <-. reflexivity.
Defined.

(** C8. Whatever the buffer, the simple-assignment rule of the Python
    counter counts no identifier of the keyword list; and for each keyword
    [kw] the buffer [kw = 1], which the pattern does match with [kw] as the
    name, yields the empty local mapping. *)
Theorem keywords_not_counted_by_simple_assignment (content : text) :
  Forall (fun kw => count_of kw (Py.equals_vars Py.get_python_patterns content) = 0)
         Py.keywords
  /\ Forall (fun kw =>
               Py.varnames (finditer Py.EQUALS_ASSIGN (kw ++ codes " = 1")) = [kw]
               /\ Py.scan_content Py.get_python_patterns (kw ++ codes " = 1") = [])
            Py.keywords
  /\ Py.keywords
     = map codes ["if"; "while"; "for"; "elif"; "return"; "and"; "or"; "not";
                  "is"; "in"; "None"; "True"; "False"]%string.
Proof.
  split; [|split].
  - apply Forall_forall. intros kw Hin. apply count_of_filtered.
    unfold Py.is_keyword. apply existsb_exists. exists kw.
    split; [exact Hin|apply text_eqb_refl].
  - repeat constructor; vm_compute; reflexivity.
  - reflexivity.
Qed.

(** C9. The R counter maps the buffer [mutate(x = y + 1, z = 2)] to exactly
    [{x: 1, z: 1}]: the two keyword-argument bindings count once each and
    the right-hand-side name [y] is not counted; the same for a directory
    that holds this text as [b.R]. *)
Theorem mutate_bindings_counted :
  let content := codes "mutate(x = y + 1, z = 2)" in
  R.scan_content R.get_r_patterns content = [(codes "x", 1); (codes "z", 1)]
  /\ dict_get (R.scan_content R.get_r_patterns content) (codes "y") = 0
  /\ R.analyze_r_file (Some content) R.get_r_patterns
     = ([(codes "x", 1); (codes "z", 1)], true)
  /\ R.count_variables (codes "proj") (Dir [] [(codes "b.R", Some content)])
     = ([(codes "x", 1); (codes "z", 1)], [codes "proj/b.R"]).
Proof. vm_compute. repeat split. Qed.

(** C10. The [equals] pattern of the R counter has no lookahead, so inside a
    [mutate(...)] argument list a comparison counts as an assignment: for
    every R identifier [id] and every text [e], a buffer that contains
    [mutate(id == e)], whatever stands in front of it and behind it, yields
    an occurrence of [id] under the [mutate] rule, so the local count of
    [id] is at least one; when the buffer begins with the call, [id] is the
    first identifier that rule counts; and when the buffer is the call alone
    and [e] holds none of [=], [<], [:], [)], the local mapping is exactly
    [{id: 1}]. *)
Theorem mutate_comparison_counted_as_assignment (pre id e post : text) :
  R.is_identifier id = true ->
  In id (R.mutate_vars R.get_r_patterns
           (pre ++ codes "mutate(" ++ id ++ codes " == " ++ e ++ codes ")" ++ post))
  /\ 1 <= dict_get (R.scan_content R.get_r_patterns
                      (pre ++ codes "mutate(" ++ id ++ codes " == " ++ e ++ codes ")" ++ post))
                   id
  /\ (exists more,
        R.mutate_vars R.get_r_patterns
          (codes "mutate(" ++ id ++ codes " == " ++ e ++ codes ")" ++ post)
        = id :: more)
  /\ (existsb (fun c => is_char "=" c || is_char "<" c || is_char ":" c || is_char ")" c) e
      = false ->
      R.scan_content R.get_r_patterns (codes "mutate(" ++ id ++ codes " == " ++ e ++ codes ")")
      = [(id, 1)]).
Proof.
  intros Hid.
  assert (Hclose : existsb (is_char ")") id = false)
    by (apply r_identifier_without; [reflexivity|exact Hid]).
  pose proof (@mutate_vars_comparison_anywhere id e post Hid (length pre) pre (le_n _))
    as Hin.
  split; [exact Hin|]. split; [|split].
  - rewrite r_scan_content_tally, dict_get_tally. unfold R.occurrences.
    rewrite !count_of_app. apply count_of_in in Hin. lia.
  - apply mutate_vars_comparison_first, Hid.
  - intros He.
    assert (He_eq : existsb (is_char "=") e = false)
      by (eapply existsb_weaken; [|exact He]; intros c Hc; cbv beta; rewrite Hc; reflexivity).
    assert (He_lt : existsb (is_char "<") e = false)
      by (eapply existsb_weaken; [|exact He]; intros c Hc; cbv beta;
          rewrite Hc, ?orb_true_r; reflexivity).
    assert (He_colon : existsb (is_char ":") e = false)
      by (eapply existsb_weaken; [|exact He]; intros c Hc; cbv beta;
          rewrite Hc, ?orb_true_r; reflexivity).
    assert (He_close : existsb (is_char ")") e = false)
      by (eapply existsb_weaken; [|exact He]; intros c Hc; cbv beta;
          rewrite Hc, ?orb_true_r; reflexivity).
    unfold R.scan_content, R.r_assign_vars, R.walrus_vars.
    cbn [R.r_assign R.walrus R.get_r_patterns].
    rewrite (@finditer_without R.R_ASSIGN (is_char "<")).
    2: exact r_assign_holds_arrow.
    2: { rewrite !existsb_app, He_lt, (r_identifier_without "<" id) by (reflexivity || exact Hid).
         reflexivity. }
    rewrite (@finditer_without R.WALRUS_ASSIGN (is_char ":")).
    2: exact r_walrus_holds_colon.
    2: { rewrite !existsb_app, He_colon, (r_identifier_without ":" id) by (reflexivity || exact Hid).
         reflexivity. }
    replace (codes "mutate(" ++ id ++ codes " == " ++ e ++ codes ")")
      with (codes "mutate(" ++ (id ++ codes " == " ++ e) ++ codes ")" ++ [])
      by (rewrite <- !app_assoc; reflexivity).
    rewrite mutate_vars_block
      by (rewrite !existsb_app, Hclose, He_close; reflexivity).
    rewrite r_equals_on_comparison by exact Hid.
    change (codes "= " ++ e) with (61%N :: 32%N :: e).
    rewrite finditer_miss by reflexivity.
    rewrite (@finditer_without R.EQUALS_ASSIGN (is_char "=")).
    2: exact r_equals_holds_equals.
    2: { simpl. exact He_eq. }
    reflexivity.
Qed.

Lemma mutate_comparison_counted_as_assignment_witness :
  1 <= dict_get (R.scan_content R.get_r_patterns
                   (codes "df <- df %>% " ++ codes "mutate(" ++ codes "total" ++ codes " == "
                    ++ codes "n + 1" ++ codes ")" ++ codes " %>% print()")) (codes "total")
  /\ R.scan_content R.get_r_patterns
       (codes "mutate(" ++ codes "total" ++ codes " == " ++ codes "n + 1" ++ codes ")")
     = [(codes "total", 1)].
Proof.
  destruct (@mutate_comparison_counted_as_assignment
              (codes "df <- df %>% ") (codes "total") (codes "n + 1") (codes " %>% print()"))
    as [_ [H1 [_ H2]]].
  - reflexivity.
  - split; [exact H1|]. apply H2. reflexivity.
Defined.

(* ================================================================== *)
(** * Further properties of the code *)

(* ------------------------------------------------------------------ *)
(** ** The walk *)

Lemma dirtree_induction (P : dirtree -> Prop) :
  (forall subdirs files,
      Forall (fun dt : text * dirtree => P (snd dt)) subdirs -> P (Dir subdirs files)) ->
  forall t, P t.
Proof.
  intros H. fix IH 1. intros [subdirs files]. apply H.
  induction subdirs as [|[d t'] l IHl]; constructor; [apply IH|exact IHl].
Qed.

Lemma os_walk_prune (skip : text -> bool) (t : dirtree) :
  forall root,
    os_walk (fun d => negb (skip d)) root (prune skip t)
    = os_walk (fun d => negb (skip d)) root t.
Proof.
  induction t as [subdirs files IH] using dirtree_induction. intros root.
  cbn [os_walk prune]. f_equal.
  induction IH as [|[d t'] l Ht' _ IHl]; [reflexivity|].
  cbn [snd] in Ht'. destruct (skip d) eqn:E; cbn [negb].
  - exact IHl.
  - rewrite E. cbn [negb]. rewrite Ht', IHl. reflexivity.
Qed.

Lemma prune_has_no_skipped (skip : text -> bool) (t : dirtree) :
  has_skipped skip (prune skip t) = false.
Proof.
  induction t as [subdirs files IH] using dirtree_induction.
  cbn [has_skipped prune].
  induction IH as [|[d t'] l Ht' _ IHl]; [reflexivity|].
  cbn [snd] in Ht'. destruct (skip d) eqn:E; [exact IHl|].
  rewrite E, Ht', IHl. reflexivity.
Qed.

Lemma candidates_prune (skip wanted : text -> bool) (directory : text) (t : dirtree) :
  Walk.candidates skip wanted directory (prune skip t)
  = Walk.candidates skip wanted directory t.
Proof. unfold Walk.candidates. rewrite os_walk_prune. reflexivity. Qed.

(** X1. The result of either counter is the result on the tree without the
    excluded directories, in which no directory at any depth has an excluded
    name: what lies inside [.git], [node_modules] and the like is never
    scanned and never listed. *)
Theorem excluded_directories_never_visited (directory : text) (t : dirtree) :
  Py.count_variables directory t
  = Py.count_variables directory (prune Py.should_skip_directory t)
  /\ has_skipped Py.should_skip_directory (prune Py.should_skip_directory t) = false
  /\ R.count_variables directory t
     = R.count_variables directory (prune R.should_skip_directory t)
  /\ has_skipped R.should_skip_directory (prune R.should_skip_directory t) = false.
Proof.
  unfold Py.count_variables, R.count_variables, Walk.count_variables.
  rewrite !candidates_prune, !prune_has_no_skipped. auto.
Qed.

Lemma ends_with_app (suffix a b : text) :
  ends_with suffix b = true -> ends_with suffix (a ++ b) = true.
Proof.
  unfold ends_with. intros H. apply text_eqb_eq in H. apply text_eqb_eq.
  assert (Hlen : length suffix <= length b).
  { apply (f_equal (@length N)) in H. rewrite length_skipn in H. lia. }
  rewrite length_app.
  replace (length a + length b - length suffix)
    with (length a + (length b - length suffix)) by lia.
  rewrite skipn_app.
  replace (length a + (length b - length suffix) - length a)
    with (length b - length suffix) by lia.
  rewrite skipn_all2 by lia. exact H.
Qed.

Lemma ends_with_join (suffix root file : text) :
  ends_with suffix file = true -> ends_with suffix (path_join root file) = true.
Proof.
  intros H. unfold path_join. destruct file as [|c file].
  - destruct suffix; [|discriminate H].
    unfold ends_with. rewrite Nat.sub_0_r.
    destruct (_ || _); rewrite skipn_all; reflexivity.
  - destruct (c =? slash)%N; [exact H|].
    destruct (_ || _); [apply ends_with_app, H|].
    change (root ++ slash :: c :: file) with (root ++ [slash] ++ c :: file).
    rewrite app_assoc. apply ends_with_app, H.
Qed.

Lemma candidates_wanted (skip wanted : text -> bool) (suffixes : list text)
    (directory : text) (t : dirtree) :
  (forall file, wanted file = true -> existsb (fun x => ends_with x file) suffixes = true) ->
  Forall (fun f : text * option text =>
            existsb (fun x => ends_with x (fst f)) suffixes = true)
         (Walk.candidates skip wanted directory t).
Proof.
  intros Hw. unfold Walk.candidates. apply Forall_forall. intros f Hf.
  apply in_flat_map in Hf. destruct Hf as [[root files] [_ Hf]].
  apply in_map_iff in Hf. destruct Hf as [[name file] [<- Hin]].
  apply filter_In in Hin. destruct Hin as [_ Hwanted]. cbn [fst snd] in *.
  apply Hw in Hwanted. apply existsb_exists in Hwanted.
  destruct Hwanted as [x [Hx Hends]].
  apply existsb_exists. exists x. split; [exact Hx|apply ends_with_join, Hends].
Qed.

(** X2. Every path in the Processed-File List of the Python counter ends
    with [.py], and every path in that of the R counter ends with [.R] or
    with [.r]. *)
Theorem processed_files_have_the_extension (directory : text) (t : dirtree) :
  Forall (fun path => ends_with (codes ".py") path = true)
         (snd (Py.count_variables directory t))
  /\ Forall (fun path => ends_with (codes ".R") path || ends_with (codes ".r") path = true)
            (snd (R.count_variables directory t)).
Proof.
  rewrite py_count_variables_eq, r_count_variables_eq. cbn [snd]. split.
  - apply Forall_forall. intros path Hp. apply in_map_iff in Hp.
    destruct Hp as [f [<- Hf]]. apply filter_In in Hf. destruct Hf as [Hf _].
    pose proof (@candidates_wanted Py.should_skip_directory Py.is_py [codes ".py"]
                  directory t) as H.
    rewrite Forall_forall in H. specialize (H ltac:(intros file Hw; cbn [existsb];
      unfold Py.is_py in Hw; rewrite Hw; reflexivity) f Hf).
    cbn [existsb] in H. rewrite orb_false_r in H. exact H.
  - apply Forall_forall. intros path Hp. apply in_map_iff in Hp.
    destruct Hp as [f [<- Hf]]. apply filter_In in Hf. destruct Hf as [Hf _].
    pose proof (@candidates_wanted R.should_skip_directory R.is_r [codes ".R"; codes ".r"]
                  directory t) as H.
    rewrite Forall_forall in H. specialize (H ltac:(intros file Hw; cbn [existsb];
      unfold R.is_r in Hw; rewrite orb_false_r; exact Hw) f Hf).
    cbn [existsb] in H. rewrite orb_false_r in H. exact H.
Qed.

Lemma starts_with_grow (w s x : text) :
  starts_with w s = true -> starts_with w (s ++ x) = true.
Proof.
  revert s; induction w as [|c w IH]; intros s H; [reflexivity|].
  destruct s as [|y s]; [discriminate H|].
  simpl in *. apply andb_true_iff in H. destruct H as [-> H]. apply IH, H.
Qed.

Lemma starts_with_refl (w : text) : starts_with w w = true.
Proof. rewrite <- (app_nil_r w) at 2. apply starts_with_app. Qed.

Lemma starts_with_join (w root name : text) :
  starts_with [slash] name = false -> starts_with w root = true ->
  starts_with w (path_join root name) = true.
Proof.
  intros Hname Hroot. unfold path_join. destruct name as [|c name].
  - destruct (_ || _); [exact Hroot|apply starts_with_grow, Hroot].
  - replace (c =? slash)%N with false.
    + destruct (_ || _); apply starts_with_grow, Hroot.
    + simpl in Hname. rewrite andb_true_r in Hname. rewrite N.eqb_sym. symmetry. exact Hname.
Qed.

Lemma os_walk_under_root (keep : text -> bool) (directory : text) (t : dirtree) :
  plain_names t = true ->
  forall root, starts_with directory root = true ->
    Forall (fun rf : text * list (text * option text) =>
              starts_with directory (fst rf) = true
              /\ forallb (fun f : text * option text => negb (starts_with [slash] (fst f)))
                         (snd rf) = true)
           (os_walk keep root t).
Proof.
  induction t as [subdirs files IH] using dirtree_induction.
  cbn [plain_names]. intros Hplain root Hroot.
  apply andb_true_iff in Hplain. destruct Hplain as [Hfiles Hsub].
  cbn [os_walk]. constructor; [cbn [fst snd]; auto|].
  induction IH as [|[d t'] l Ht' _ IHl]; [constructor|].
  cbn [snd] in Ht'. apply andb_true_iff in Hsub. destruct Hsub as [Hd Hl].
  apply andb_true_iff in Hd. destruct Hd as [Hd Ht].
  apply Forall_app. split; [|exact (IHl Hl)].
  destruct (keep d); [|constructor].
  apply Ht'; [exact Ht|]. apply starts_with_join; [|exact Hroot].
  apply negb_true_iff, Hd.
Qed.

Lemma candidates_under_root (skip wanted : text -> bool) (directory : text) (t : dirtree) :
  plain_names t = true ->
  Forall (fun f : text * option text => starts_with directory (fst f) = true)
         (Walk.candidates skip wanted directory t).
Proof.
  intros Hplain. unfold Walk.candidates. apply Forall_forall. intros f Hf.
  apply in_flat_map in Hf. destruct Hf as [[root files] [Hrf Hf]].
  pose proof (@os_walk_under_root (fun d => negb (skip d)) directory t Hplain directory
                (starts_with_refl directory)) as H.
  rewrite Forall_forall in H. destruct (H _ Hrf) as [Hroot Hfiles].
  apply in_map_iff in Hf. destruct Hf as [[name file] [<- Hin]].
  apply filter_In in Hin. destruct Hin as [Hin _]. cbn [fst snd] in *.
  rewrite forallb_forall in Hfiles. specialize (Hfiles _ Hin). cbn [fst] in Hfiles.
  apply starts_with_join; [apply negb_true_iff, Hfiles|exact Hroot].
Qed.

(** X3. When no name in the tree begins with a slash, every path in the
    Processed-File List of either counter begins with the directory that was
    given: the counters report files under that directory only. *)
Theorem processed_files_lie_under_the_directory (directory : text) (t : dirtree) :
  plain_names t = true ->
  Forall (fun path => starts_with directory path = true)
         (snd (Py.count_variables directory t))
  /\ Forall (fun path => starts_with directory path = true)
            (snd (R.count_variables directory t)).
Proof.
  intros Hplain. rewrite py_count_variables_eq, r_count_variables_eq. cbn [snd].
  split; apply Forall_forall; intros path Hp; apply in_map_iff in Hp;
    destruct Hp as [f [<- Hf]]; apply filter_In in Hf; destruct Hf as [Hf _].
  - pose proof (@candidates_under_root Py.should_skip_directory Py.is_py directory t Hplain) as H.
    rewrite Forall_forall in H. exact (H f Hf).
  - pose proof (@candidates_under_root R.should_skip_directory R.is_r directory t Hplain) as H.
    rewrite Forall_forall in H. exact (H f Hf).
Qed.

Lemma processed_files_lie_under_the_directory_witness :
  Forall (fun path => starts_with (codes "proj") path = true)
         (snd (Py.count_variables (codes "proj") demo_tree))
  /\ snd (Py.count_variables (codes "proj") demo_tree)
     = [codes "proj/a.py"; codes "proj/pkg/b.py"].
Proof.
  split.
  - apply (@processed_files_lie_under_the_directory (codes "proj") demo_tree). reflexivity.
  - vm_compute. reflexivity.
Defined.

(* ------------------------------------------------------------------ *)
(** ** What a match binds *)

Lemma scan_forall (r : regex) (P : groups -> Prop) :
  (forall t g rest, match_here r t = Some (g, rest) -> P g) ->
  forall s k, Forall P (scan r k s).
Proof.
  intros H. induction s as [|c s IH]; intros [|k]; cbn [scan]; try constructor.
  - destruct (match_here r []) as [[g rest]|] eqn:E; repeat constructor.
    exact (H _ _ _ E).
  - destruct (match_here r (c :: s)) as [[g rest]|] eqn:E; [|apply IH].
    constructor; [exact (H _ _ _ E)|apply IH].
  - apply IH.
Qed.

Lemma finditer_forall (r : regex) (P : groups -> Prop) (s : text) :
  (forall t g rest, match_here r t = Some (g, rest) -> P g) ->
  Forall P (finditer r s).
Proof. intros H. apply scan_forall, H. Qed.

(** A pattern that begins with a named group and binds no other group: the
    match binds the name to the word of the group. *)
Lemma match_named_first (name : string) (I T : regex) (t : text) (g : groups)
    (rest : text) :
  no_groups I = true -> no_groups T = true ->
  match_here (Seq (Group name I) T) t = Some (g, rest) ->
  exists w w2, t = w ++ w2 ++ rest /\ lang I w /\ lang T w2 /\ g = [(name, w)].
Proof.
  intros HI HT H. unfold match_here in H. rewrite rmatch_seq, rmatch_group in H.
  apply (rmatch_sound_plain _ HI) in H. destruct H as [w [s1 [-> [Hw H]]]].
  apply (rmatch_sound_plain _ HT) in H. destruct H as [w2 [s2 [-> [Hw2 H]]]].
  rewrite firstn_consumed in H. injection H as <- <-.
  exists w, w2. auto.
Qed.

Lemma match_named_alone (name : string) (I : regex) (t : text) (g : groups)
    (rest : text) :
  no_groups I = true ->
  match_here (Group name I) t = Some (g, rest) ->
  exists w, t = w ++ rest /\ lang I w /\ g = [(name, w)].
Proof.
  intros HI H. unfold match_here in H. rewrite rmatch_group in H.
  apply (rmatch_sound_plain _ HI) in H. destruct H as [w [s1 [-> [Hw H]]]].
  rewrite firstn_consumed in H. injection H as <- <-.
  exists w. auto.
Qed.

Lemma lang_r_identifier (w : text) :
  lang R.R_IDENTIFIER w -> R.is_identifier w = true.
Proof.
  intros [w1 [w2 [-> [[c [-> Hc]] H2]]]]. apply lang_star_class in H2.
  simpl. rewrite Hc, H2. reflexivity.
Qed.

(** The name bound by a match of each pattern is an identifier. *)
Lemma py_equals_binds_identifier (t : text) (g : groups) (rest : text) :
  match_here Py.EQUALS_ASSIGN t = Some (g, rest) ->
  Py.is_identifier (group g "varname") = true.
Proof.
  intros H. apply match_named_first in H; try reflexivity.
  destruct H as [w [w2 [_ [Hw [_ ->]]]]]. apply lang_py_identifier, Hw.
Qed.

Lemma py_walrus_binds_identifier (t : text) (g : groups) (rest : text) :
  match_here Py.WALRUS_ASSIGN t = Some (g, rest) ->
  Py.is_identifier (group g "varname") = true.
Proof.
  intros H. apply match_named_first in H; try reflexivity.
  destruct H as [w [w2 [_ [Hw [_ ->]]]]]. apply lang_py_identifier, Hw.
Qed.

Lemma py_var_name_binds_identifier (t : text) (g : groups) (rest : text) :
  match_here Py.VAR_EXTRACTOR t = Some (g, rest) ->
  Py.is_identifier (group g "varname") = true.
Proof.
  intros H. apply match_named_alone in H; try reflexivity.
  destruct H as [w [_ [Hw ->]]]. apply lang_py_identifier, Hw.
Qed.

Lemma py_augmented_binds_identifier (t : text) (g : groups) (rest : text) :
  match_here Py.AUGMENTED_ASSIGN t = Some (g, rest) ->
  Py.is_identifier (group g "varname") = true.
Proof.
  unfold match_here, Py.AUGMENTED_ASSIGN, Py.IDENTIFIER_NAMED. intros H.
  rewrite rmatch_seq, rmatch_group in H.
  apply rmatch_sound_plain in H; [|reflexivity]. destruct H as [w [s1 [-> [Hw H]]]].
  rewrite rmatch_seq in H.
  apply rmatch_sound_plain in H; [|reflexivity]. destruct H as [sp [s2 [-> [_ H]]]].
  rewrite rmatch_group in H.
  apply rmatch_sound_plain in H; [|reflexivity]. destruct H as [op [s3 [-> [_ H]]]].
  rewrite !firstn_consumed in H. injection H as <- _.
  cbn [group String.eqb Ascii.eqb Bool.eqb]. apply lang_py_identifier, Hw.
Qed.

Lemma py_for_loop_binds_identifier (t : text) (g : groups) (rest : text) :
  match_here Py.FOR_LOOP t = Some (g, rest) ->
  Py.is_identifier (group g "varname") = true.
Proof.
  unfold match_here, Py.FOR_LOOP. intros H.
  rewrite rmatch_seq in H.
  apply rmatch_sound_plain in H; [|reflexivity]. destruct H as [w1 [s1 [-> [_ H]]]].
  rewrite rmatch_seq in H.
  apply rmatch_sound_plain in H; [|reflexivity]. destruct H as [sp [s2 [-> [_ H]]]].
  apply (@match_named_first "varname" Py.IDENTIFIER_RAW) in H; try reflexivity.
  destruct H as [w [w2 [_ [Hw [_ ->]]]]]. apply lang_py_identifier, Hw.
Qed.

Lemma r_named_first_binds_identifier (T : regex) (t : text) (g : groups) (rest : text) :
  no_groups T = true ->
  match_here (Seq R.R_IDENTIFIER T) t = Some (g, rest) ->
  R.is_identifier (group g "varname") = true.
Proof.
  intros HT H. apply match_named_first in H; try reflexivity; [|exact HT].
  destruct H as [w [w2 [_ [Hw [_ ->]]]]]. apply lang_r_identifier, Hw.
Qed.

Lemma varnames_forall (r : regex) (P : text -> Prop) (s : text) :
  (forall t g rest, match_here r t = Some (g, rest) -> P (group g "varname")) ->
  Forall P (map (fun g => group g "varname") (finditer r s)).
Proof.
  intros H. apply Forall_map. apply finditer_forall. exact H.
Qed.

Lemma py_occurrences_identifiers (content : text) :
  Forall (fun v => Py.is_identifier v = true)
         (Py.occurrences Py.get_python_patterns content).
Proof.
  unfold Py.occurrences. repeat (apply Forall_app; split).
  - unfold Py.equals_vars. apply Forall_forall. intros v Hv.
    apply filter_In in Hv. destruct Hv as [Hv _]. revert v Hv. apply Forall_forall.
    apply varnames_forall, py_equals_binds_identifier.
  - apply varnames_forall, py_walrus_binds_identifier.
  - unfold Py.multi_vars. apply Forall_flat_map. apply Forall_forall. intros g _.
    apply varnames_forall, py_var_name_binds_identifier.
  - apply varnames_forall, py_augmented_binds_identifier.
  - apply varnames_forall, py_for_loop_binds_identifier.
Qed.

Lemma r_occurrences_identifiers (content : text) :
  Forall (fun v => R.is_identifier v = true)
         (R.occurrences R.get_r_patterns content).
Proof.
  unfold R.occurrences. repeat (apply Forall_app; split).
  - apply varnames_forall. intros t g rest. apply r_named_first_binds_identifier. reflexivity.
  - apply varnames_forall. intros t g rest. apply r_named_first_binds_identifier. reflexivity.
  - unfold R.mutate_vars. apply Forall_flat_map. apply Forall_forall. intros g _.
    apply varnames_forall. intros t g' rest. apply r_named_first_binds_identifier. reflexivity.
Qed.

(* ------------------------------------------------------------------ *)
(** ** What a mapping holds *)

Section Entries.
Variable P : text -> Prop.

Lemma dict_set_entries (d : dict) (k : text) (v : nat) :
  Forall (fun kv : text * nat => P (fst kv) /\ 1 <= snd kv) d ->
  P k -> 1 <= v ->
  Forall (fun kv : text * nat => P (fst kv) /\ 1 <= snd kv) (dict_set d k v).
Proof.
  intros Hd Hk Hv. induction Hd as [|[k0 v0] d [Hk0 Hv0] Hd IH]; cbn [dict_set].
  - repeat constructor; assumption.
  - text_cases k0 k; constructor; try assumption; split; assumption.
Qed.

Lemma tally_entries (vars : list text) (d : dict) :
  Forall (fun kv : text * nat => P (fst kv) /\ 1 <= snd kv) d ->
  Forall P vars ->
  Forall (fun kv : text * nat => P (fst kv) /\ 1 <= snd kv) (tally d vars).
Proof.
  intros Hd Hvars. revert d Hd. induction Hvars as [|v vars Hv _ IH]; intros d Hd.
  - exact Hd.
  - rewrite tally_cons. apply IH. apply dict_set_entries; [exact Hd|exact Hv|lia].
Qed.

Lemma merge_counts_entries (fc c : dict) :
  Forall (fun kv : text * nat => P (fst kv) /\ 1 <= snd kv) c ->
  Forall (fun kv : text * nat => P (fst kv) /\ 1 <= snd kv) fc ->
  Forall (fun kv : text * nat => P (fst kv) /\ 1 <= snd kv) (Walk.merge_counts c fc).
Proof.
  intros Hc Hfc. revert c Hc. induction Hfc as [|[k v] fc [Hk Hv] _ IH]; intros c Hc.
  - exact Hc.
  - rewrite merge_counts_cons. apply IH. cbn [fst snd] in *.
    apply dict_set_entries; [exact Hc|exact Hk|lia].
Qed.

Lemma aggregate_entries (locals : list dict) :
  Forall (Forall (fun kv : text * nat => P (fst kv) /\ 1 <= snd kv)) locals ->
  Forall (fun kv : text * nat => P (fst kv) /\ 1 <= snd kv) (Walk.aggregate locals).
Proof.
  unfold Walk.aggregate. intros H.
  assert (G : forall c, Forall (fun kv : text * nat => P (fst kv) /\ 1 <= snd kv) c ->
                        Forall (fun kv : text * nat => P (fst kv) /\ 1 <= snd kv)
                               (fold_left Walk.merge_counts locals c)).
  { induction H as [|d locals Hd _ IH]; intros c Hc; [exact Hc|].
    cbn [fold_left]. apply IH, merge_counts_entries; assumption. }
  apply G. constructor.
Qed.
End Entries.

Lemma dict_get_positive (d : dict) (k : text) :
  Forall (fun kv : text * nat => 1 <= snd kv) d ->
  (In k (keys d) <-> 1 <= dict_get d k).
Proof.
  intros H. split.
  - induction H as [|[k0 v0] d Hv _ IH]; cbn [keys map dict_get fst]; [intros []|].
    text_cases k0 k; [intros _; exact Hv|].
    intros [E'|Hin]; [subst; now rewrite text_eqb_refl in E|apply IH, Hin].
  - intros Hpos. destruct (in_dec (list_eq_dec N.eq_dec) k (keys d)) as [Hin|Hout];
      [exact Hin|]. rewrite (dict_get_absent d k Hout) in Hpos. lia.
Qed.

Lemma total_positive (A : Type) (f : A -> nat) (l : list A) :
  1 <= total (map f l) <-> exists x, In x l /\ 1 <= f x.
Proof.
  induction l as [|a l IH]; cbn [map total fold_right].
  - split; [lia|intros [x [[] _]]].
  - fold (total (map f l)). split.
    + intros H. destruct (f a) eqn:E.
      * destruct (proj1 IH ltac:(lia)) as [x [Hx Hf]]. exists x. split; [right; exact Hx|exact Hf].
      * exists a. split; [left; reflexivity|lia].
    + intros [x [[->|Hx] Hf]]; [lia|].
      assert (1 <= total (map f l)) by (apply IH; exists x; auto). lia.
Qed.

Lemma forall_entries_weaken (P : text -> Prop) (d : dict) :
  Forall (fun kv : text * nat => P (fst kv) /\ 1 <= snd kv) d ->
  Forall (fun kv : text * nat => 1 <= snd kv) d.
Proof. apply Forall_impl. intros kv [_ H]. exact H. Qed.

Lemma py_analyze_entries (file : option text) :
  Forall (fun kv : text * nat => Py.is_identifier (fst kv) = true /\ 1 <= snd kv)
         (fst (Py.analyze file)).
Proof.
  destruct file as [content|]; cbn [Py.analyze Py.analyze_python_file fst]; [|constructor].
  rewrite py_scan_content_tally.
  apply (@tally_entries (fun v => Py.is_identifier v = true)); [constructor|].
  apply py_occurrences_identifiers.
Qed.

Lemma r_analyze_entries (file : option text) :
  Forall (fun kv : text * nat => R.is_identifier (fst kv) = true /\ 1 <= snd kv)
         (fst (R.analyze file)).
Proof.
  destruct file as [content|]; cbn [R.analyze R.analyze_r_file fst]; [|constructor].
  rewrite r_scan_content_tally.
  apply (@tally_entries (fun v => R.is_identifier v = true)); [constructor|].
  apply r_occurrences_identifiers.
Qed.

(** X4. The local mapping of a file, for either counter, holds every name
    once, every name in it is an identifier of the language (for Python
    [[a-zA-Z_][a-zA-Z0-9_]*], for R [[a-zA-Z][a-zA-Z0-9_.]*]), and every
    count in it is at least one. *)
Theorem local_mapping_holds_identifiers (file : option text) :
  (NoDup (keys (fst (Py.analyze_python_file file Py.get_python_patterns)))
   /\ Forall (fun kv : text * nat => Py.is_identifier (fst kv) = true /\ 1 <= snd kv)
             (fst (Py.analyze_python_file file Py.get_python_patterns)))
  /\ (NoDup (keys (fst (R.analyze_r_file file R.get_r_patterns)))
      /\ Forall (fun kv : text * nat => R.is_identifier (fst kv) = true /\ 1 <= snd kv)
                (fst (R.analyze_r_file file R.get_r_patterns))).
Proof.
  repeat split.
  - apply py_analyze_nodup.
  - apply py_analyze_entries.
  - apply r_analyze_nodup.
  - apply r_analyze_entries.
Qed.

Section RankingFacts.
Variable analyze_file : option text -> dict * bool.
Variable P : text -> Prop.
Hypothesis analyze_nodup : forall file, NoDup (keys (fst (analyze_file file))).
Hypothesis analyze_entries :
  forall file, Forall (fun kv : text * nat => P (fst kv) /\ 1 <= snd kv)
                      (fst (analyze_file file)).

Lemma ranking_entries (fs : list (text * option text)) :
  NoDup (keys (fst (Walk.count_variables_in analyze_file fs)))
  /\ Forall (fun kv : text * nat => P (fst kv) /\ 1 <= snd kv)
            (fst (Walk.count_variables_in analyze_file fs))
  /\ forall id, In id (keys (fst (Walk.count_variables_in analyze_file fs)))
                <-> exists f, In f fs /\ In id (keys (fst (analyze_file (snd f)))).
Proof.
  rewrite count_variables_in_eq. cbn [fst].
  set (locals := map (Walk.local_counts analyze_file) fs).
  assert (Hent : Forall (fun kv : text * nat => P (fst kv) /\ 1 <= snd kv)
                        (Walk.aggregate locals)).
  { apply aggregate_entries. apply Forall_map, Forall_forall. intros f _.
    apply analyze_entries. }
  assert (Hperm : Permutation (sorted_desc snd (Walk.aggregate locals))
                              (Walk.aggregate locals)) by apply sorted_desc_perm.
  split; [|split].
  - unfold keys. eapply Permutation_NoDup;
      [apply Permutation_map; symmetry; exact Hperm|apply aggregate_nodup].
  - eapply Permutation_Forall; [symmetry; exact Hperm|exact Hent].
  - intros id.
    assert (Hkeys : In id (keys (sorted_desc snd (Walk.aggregate locals)))
                    <-> In id (keys (Walk.aggregate locals))).
    { unfold keys. split; apply Permutation_in, Permutation_map;
        [exact Hperm|symmetry; exact Hperm]. }
    rewrite Hkeys, (@dict_get_positive _ id (@forall_entries_weaken P _ Hent)).
    unfold Walk.aggregate. rewrite fold_merge_get.
    2: { apply Forall_map, Forall_forall. intros f _. apply analyze_nodup. }
    cbn [dict_get]. unfold locals. rewrite map_map, Nat.add_0_l, total_positive.
    unfold Walk.local_counts.
    split; intros [f [Hf Hpos]]; exists f; (split; [exact Hf|]).
    + apply (@dict_get_positive _ id (@forall_entries_weaken P _ (analyze_entries (snd f)))).
      exact Hpos.
    + apply (@dict_get_positive _ id (@forall_entries_weaken P _ (analyze_entries (snd f)))).
      exact Hpos.
Qed.
End RankingFacts.

(** X5. The ranking of either counter holds every name once; every name in
    it is an identifier of the language and every count is at least one;
    and a name is in the ranking exactly when the local mapping of some
    scanned file holds it. *)
Theorem ranking_holds_the_counted_identifiers (directory : text) (t : dirtree) :
  (NoDup (keys (fst (Py.count_variables directory t)))
   /\ Forall (fun kv : text * nat => Py.is_identifier (fst kv) = true /\ 1 <= snd kv)
             (fst (Py.count_variables directory t))
   /\ forall id, In id (keys (fst (Py.count_variables directory t)))
                 <-> exists f, In f (Py.candidates directory t)
                               /\ In id (keys (fst (Py.analyze (snd f)))))
  /\ (NoDup (keys (fst (R.count_variables directory t)))
      /\ Forall (fun kv : text * nat => R.is_identifier (fst kv) = true /\ 1 <= snd kv)
                (fst (R.count_variables directory t))
      /\ forall id, In id (keys (fst (R.count_variables directory t)))
                    <-> exists f, In f (R.candidates directory t)
                                  /\ In id (keys (fst (R.analyze (snd f))))).
Proof.
  split.
  - apply (@ranking_entries Py.analyze (fun v => Py.is_identifier v = true)
             py_analyze_nodup py_analyze_entries).
  - apply (@ranking_entries R.analyze (fun v => R.is_identifier v = true)
             r_analyze_nodup r_analyze_entries).
Qed.

(** X6. Counts add up over the rules and are not deduplicated: the local
    count of a name is the number of times the simple-assignment rule counts
    it, plus the walrus rule, plus the multi-target rule, plus the augmented
    rule, plus the loop rule (Python); the arrow rule plus the walrus rule
    plus the [mutate] rule (R). *)
Theorem local_count_adds_up_over_rules (content id : text) :
  dict_get (Py.scan_content Py.get_python_patterns content) id
  = count_of id (Py.equals_vars Py.get_python_patterns content)
    + count_of id (Py.walrus_vars Py.get_python_patterns content)
    + count_of id (Py.multi_vars Py.get_python_patterns content)
    + count_of id (Py.augmented_vars Py.get_python_patterns content)
    + count_of id (Py.for_vars Py.get_python_patterns content)
  /\ dict_get (R.scan_content R.get_r_patterns content) id
     = count_of id (R.r_assign_vars R.get_r_patterns content)
       + count_of id (R.walrus_vars R.get_r_patterns content)
       + count_of id (R.mutate_vars R.get_r_patterns content).
Proof.
  rewrite py_scan_content_tally, r_scan_content_tally, !dict_get_tally.
  unfold Py.occurrences, R.occurrences. rewrite !count_of_app. cbn [dict_get]. lia.
Qed.

Lemma total_app (l1 l2 : list nat) : total (l1 ++ l2) = total l1 + total l2.
Proof. induction l1; simpl; lia. Qed.

(** X7. Counts only grow as files are scanned: the global count of a name
    after more files is at least its count before them. *)
Theorem global_counts_only_grow
    (fs more : list (text * option text)) (id : text) :
  dict_get (fst (Walk.count_variables_in Py.analyze fs)) id
  <= dict_get (fst (Walk.count_variables_in Py.analyze (fs ++ more))) id
  /\ dict_get (fst (Walk.count_variables_in R.analyze fs)) id
     <= dict_get (fst (Walk.count_variables_in R.analyze (fs ++ more))) id.
Proof.
  rewrite !count_variables_in_eq. cbn [fst].
  rewrite !ranking_get by apply aggregate_nodup.
  unfold Walk.aggregate.
  rewrite !fold_merge_get
    by (apply Forall_map, Forall_forall; intros f _;
        first [apply py_analyze_nodup|apply r_analyze_nodup]).
  rewrite !map_app, !map_map, !total_app. lia.
Qed.

(* ------------------------------------------------------------------ *)
(** ** Assignment patterns [<identifier> <spaces> <operator>] *)

Lemma word_no_overlap (c0 : N) (op rest u X : text) :
  ~ In c0 op -> op ++ rest = u ++ c0 :: X -> exists t3, rest = t3 ++ c0 :: X.
Proof.
  revert u. induction op as [|o op IH]; intros u Hc E.
  - exists u. exact E.
  - destruct u as [|x u]; cbn [app] in E; injection E as -> E.
    + exfalso. apply Hc. left. reflexivity.
    + apply (IH u); [intros H; apply Hc; right; exact H|exact E].
Qed.

Section AssignPattern.
Variable name : string.
Variables p0 p : N -> bool.
Variable oplit : string.

Hypothesis start_plain :
  forall c, p0 c = true -> p c = true /\ is_space c = false /\ ~ In c (codes oplit).
Hypothesis space_ends_name : p 32%N = false.
Hypothesis operator_starts : stops is_space (codes oplit) = true.
Hypothesis operator_nonempty : codes oplit <> [].

Lemma assign_here (id rest : text) :
  is_ident p0 p id = true ->
  match_here (assign_pattern name p0 p oplit) (id ++ 32%N :: codes oplit ++ rest)
  = Some ([(name, id)], rest).
Proof.
  clear start_plain. intros Hid. unfold match_here, assign_pattern.
  rewrite rmatch_seq.
  apply rmatch_named_ident;
    [exact Hid|cbn [stops]; rewrite space_ends_name; reflexivity|].
  rewrite rmatch_seq.
  change (32%N :: codes oplit ++ rest) with ([32%N] ++ codes oplit ++ rest).
  apply rmatch_run; [reflexivity| |apply rmatch_word].
  destruct (codes oplit) as [|o op]; [congruence|]. exact operator_starts.
Qed.

Lemma lang_assign (w : text) :
  lang (assign_pattern name p0 p oplit) w ->
  exists idw sp, w = idw ++ sp ++ codes oplit
                 /\ forallb p idw = true /\ forallb is_space sp = true.
Proof.
  intros [idw [w2 [-> [Hid [sp [w3 [-> [Hsp H3]]]]]]]].
  destruct Hid as [w1 [w1' [-> [[c [-> Hc]] H2]]]].
  apply lang_star_class in H2, Hsp. apply lang_word in H3. subst.
  exists ([c] ++ w1'), sp. cbn [app forallb].
  destruct (start_plain Hc) as [Hpc _]. rewrite Hpc, H2. auto.
Qed.

Lemma assign_anywhere (pre : text) (b : N) (id post : text) :
  p b = false -> is_ident p0 p id = true ->
  exists L, finditer (assign_pattern name p0 p oplit) (pre ++ b :: id ++ 32%N :: codes oplit ++ post)
            = L ++ [(name, id)] :: finditer (assign_pattern name p0 p oplit) post.
Proof.
  intros Hb Hid.
  destruct (@finditer_behind (assign_pattern name p0 p oplit) (id ++ 32%N :: codes oplit ++ post)
              (length (pre ++ [b])) (pre ++ [b]) (le_n _)) as [L HL].
  - intros t1 t2 g rest E Ht2 Hm.
    apply match_here_sound in Hm. destruct Hm as [w [Hw Hlang]].
    apply lang_assign in Hlang. destruct Hlang as [idw [sp [-> [Hidw Hsp]]]].
    assert (Hend : exists t2', t2 = t2' ++ [b]).
    { destruct (exists_last Ht2) as [t2' [x E2]]. subst t2.
      rewrite app_assoc in E. apply app_inj_tail in E. destruct E as [_ <-].
      exists t2'. reflexivity. }
    destruct Hend as [t2' ->]. rewrite <- !app_assoc in Hw. cbn [app] in Hw.
    destruct id as [|c0 cs]; [discriminate|].
    cbn [is_ident] in Hid. apply andb_true_iff in Hid. destruct Hid as [Hc0 _].
    destruct (start_plain Hc0) as [_ [Hsp0 Hop]]. symmetry in Hw.
    destruct (@run_stops_before _ _ _ _ _ _ Hidw Hb Hw) as [u' [-> E1]].
    change (u' ++ b :: (c0 :: cs) ++ 32%N :: codes oplit ++ post)
      with (u' ++ [b] ++ c0 :: cs ++ 32%N :: codes oplit ++ post) in E1.
    rewrite (app_assoc u' [b]) in E1.
    destruct (@run_stops_before _ _ _ _ _ _ Hsp Hsp0 E1) as [u2 [_ E2]].
    exact (@word_no_overlap _ _ _ _ _ Hop E2).
  - rewrite <- app_assoc in HL. cbn [app] in HL. rewrite HL.
    exists L. f_equal.
    replace (id ++ 32%N :: codes oplit ++ post)
      with ((id ++ 32%N :: codes oplit) ++ post)
      by (rewrite <- app_assoc; reflexivity).
    apply finditer_match.
    + destruct id; discriminate.
    + rewrite <- app_assoc. apply assign_here, Hid.
Qed.
End AssignPattern.

Lemma r_ident_start_facts (oplit : string) (c : N) :
  forallb (fun x => negb (is_letter x)) (codes oplit) = true ->
  R.ident_start c = true ->
  R.ident_char c = true /\ is_space c = false /\ ~ In c (codes oplit).
Proof.
  intros Hop Hc. split; [|split].
  - unfold R.ident_char. unfold R.ident_start in Hc. rewrite Hc. reflexivity.
  - apply r_ident_start_plain, Hc.
  - intros Hin. rewrite forallb_forall in Hop. specialize (Hop _ Hin).
    unfold R.ident_start in Hc. rewrite Hc in Hop. discriminate Hop.
Qed.

Lemma py_ident_start_facts (oplit : string) (c : N) :
  forallb (fun x => negb (Py.ident_start x)) (codes oplit) = true ->
  Py.ident_start c = true ->
  Py.ident_char c = true /\ is_space c = false /\ ~ In c (codes oplit).
Proof.
  intros Hop Hc. destruct (py_ident_start_plain _ Hc) as [H1 [_ H3]].
  split; [exact H3|split; [exact H1|]].
  intros Hin. rewrite forallb_forall in Hop. specialize (Hop _ Hin).
  rewrite Hc in Hop. discriminate Hop.
Qed.

(** X8. For R, an arrow assignment [<id> <-] is counted wherever it stands:
    at the start of the buffer and behind any character that is no
    identifier character, whatever precedes it; so the local count of [id]
    is at least one. *)
Theorem r_arrow_assignment_counted (pre : text) (b : N) (id post : text) :
  R.ident_char b = false -> R.is_identifier id = true ->
  (exists before,
      R.r_assign_vars R.get_r_patterns (pre ++ b :: id ++ codes " <-" ++ post)
      = before ++ id :: R.r_assign_vars R.get_r_patterns post)
  /\ R.r_assign_vars R.get_r_patterns (id ++ codes " <-" ++ post)
     = id :: R.r_assign_vars R.get_r_patterns post
  /\ 1 <= dict_get (R.scan_content R.get_r_patterns
                      (pre ++ b :: id ++ codes " <-" ++ post)) id.
Proof.
  intros Hb Hid.
  assert (Hany : exists before,
             R.r_assign_vars R.get_r_patterns (pre ++ b :: id ++ codes " <-" ++ post)
             = before ++ id :: R.r_assign_vars R.get_r_patterns post).
  { destruct (@assign_anywhere "varname" R.ident_start R.ident_char "<-"
                (fun c => @r_ident_start_facts "<-" c eq_refl) eq_refl eq_refl
                ltac:(discriminate) pre b id post Hb Hid)
      as [L HL].
    unfold R.r_assign_vars. cbn [R.r_assign R.get_r_patterns].
    change R.R_ASSIGN with (assign_pattern "varname" R.ident_start R.ident_char "<-").
    change (codes " <-" ++ post) with (32%N :: codes "<-" ++ post). rewrite HL.
    exists (R.varnames L). unfold R.varnames. rewrite map_app. reflexivity. }
  split; [exact Hany|]. split.
  - unfold R.r_assign_vars. cbn [R.r_assign R.get_r_patterns].
    change R.R_ASSIGN with (assign_pattern "varname" R.ident_start R.ident_char "<-").
    change (id ++ codes " <-" ++ post) with (id ++ 32%N :: codes "<-" ++ post).
    replace (id ++ 32%N :: codes "<-" ++ post) with ((id ++ 32%N :: codes "<-") ++ post)
      by (rewrite <- app_assoc; reflexivity).
    rewrite finditer_match with (g := [("varname"%string, id)]).
    + reflexivity.
    + destruct id; discriminate.
    + rewrite <- app_assoc.
      apply (@assign_here "varname" R.ident_start R.ident_char "<-"
               eq_refl eq_refl ltac:(discriminate) id post Hid).
  - destruct Hany as [before Hbefore].
    rewrite r_scan_content_tally, dict_get_tally. unfold R.occurrences.
    rewrite Hbefore, !count_of_app, count_of_cons_same. lia.
Qed.

Lemma r_arrow_assignment_counted_witness :
  1 <= dict_get (R.scan_content R.get_r_patterns
                   (codes "library(dplyr)" ++ 10%N :: codes "my.data" ++ codes " <-"
                    ++ codes " read.csv(path)")) (codes "my.data").
Proof.
  apply (@r_arrow_assignment_counted (codes "library(dplyr)") 10%N (codes "my.data")
           (codes " read.csv(path)")); reflexivity.
Defined.

(** The simple-assignment pattern has no match that begins inside a name
    which is followed by a space and then by something that is neither a
    space nor [=]. *)
Lemma py_equals_not_at (t X : text) (o1 : N) :
  forallb Py.ident_char t = true -> is_space o1 = false -> o1 <> 61%N ->
  match_here Py.EQUALS_ASSIGN (t ++ 32%N :: o1 :: X) = None.
Proof.
  intros Ht Ho1 Hne.
  destruct (match_here Py.EQUALS_ASSIGN (t ++ 32%N :: o1 :: X)) as [[g rest]|] eqn:E;
    [exfalso|reflexivity].
  apply match_here_sound in E. destruct E as [w [Hw Hlang]].
  apply lang_py_equals in Hlang. destruct Hlang as [idw [sp [-> [Hidw Hsp]]]].
  rewrite <- !app_assoc in Hw. symmetry in Hw.
  destruct (py_identifier_chars _ Hidw) as [_ Hchars].
  destruct (@run_stops_before _ _ _ _ _ _ Hchars (eq_refl : Py.ident_char 32 = false) Hw)
    as [u' [-> E1]].
  destruct u' as [|c u'].
  - change ([] ++ 32%N :: o1 :: X) with ([32%N] ++ o1 :: X) in E1.
    destruct (@run_stops_before _ _ _ _ _ _ Hsp Ho1 E1) as [u2 [Hu2 E2]].
    destruct u2 as [|x u2].
    + cbn [app codes list_ascii_of_string map] in E2. injection E2 as E2 _.
      apply Hne. symmetry. exact E2.
    + destruct sp as [|s0 sp]; cbn [app] in Hu2.
      * injection Hu2 as <- <-. discriminate E2.
      * injection Hu2 as _ Hu2. destruct sp; discriminate Hu2.
  - rewrite forallb_app in Ht. apply andb_true_iff in Ht. destruct Ht as [_ Ht].
    cbn [forallb] in Ht. apply andb_true_iff in Ht. destruct Ht as [Hc _].
    destruct (py_ident_char_plain _ Hc) as [Hcs Hce].
    destruct sp as [|s0 sp]; cbn [app] in E1.
    + injection E1 as E1 _. apply Hce. symmetry. exact E1.
    + injection E1 as -> _. cbn [forallb] in Hsp. rewrite Hcs in Hsp. discriminate Hsp.
Qed.

Lemma py_equals_skips_name (t X : text) (o1 : N) :
  forallb Py.ident_char t = true -> is_space o1 = false -> o1 <> 61%N ->
  finditer Py.EQUALS_ASSIGN (t ++ 32%N :: o1 :: X)
  = finditer Py.EQUALS_ASSIGN (32%N :: o1 :: X).
Proof.
  intros Ht Ho1 Hne. induction t as [|c t IH]; [reflexivity|].
  cbn [app]. rewrite finditer_miss.
  - apply IH. cbn [forallb] in Ht. apply andb_true_iff in Ht. tauto.
  - apply (@py_equals_not_at (c :: t) X o1 Ht Ho1 Hne).
Qed.

(** X9. For Python, a walrus assignment [<id> :=] is counted by the walrus
    rule wherever it stands, at the start of the buffer and behind any
    character that is no identifier character; the simple-assignment rule
    does not count it. *)
Theorem py_walrus_assignment_counted (pre : text) (b : N) (id post : text) :
  Py.ident_char b = false -> Py.is_identifier id = true ->
  (exists before,
      Py.walrus_vars Py.get_python_patterns (pre ++ b :: id ++ codes " :=" ++ post)
      = before ++ id :: Py.walrus_vars Py.get_python_patterns post)
  /\ Py.walrus_vars Py.get_python_patterns (id ++ codes " :=" ++ post)
     = id :: Py.walrus_vars Py.get_python_patterns post
  /\ Py.equals_vars Py.get_python_patterns (id ++ codes " :=" ++ post)
     = Py.equals_vars Py.get_python_patterns post.
Proof.
  intros Hb Hid. split; [|split].
  - destruct (@assign_anywhere "varname" Py.ident_start Py.ident_char ":="
                (fun c => @py_ident_start_facts ":=" c eq_refl) eq_refl eq_refl
                ltac:(discriminate) pre b id post Hb Hid)
      as [L HL].
    unfold Py.walrus_vars. cbn [Py.walrus Py.get_python_patterns].
    change Py.WALRUS_ASSIGN
      with (assign_pattern "varname" Py.ident_start Py.ident_char ":=").
    change (codes " :=" ++ post) with (32%N :: codes ":=" ++ post). rewrite HL.
    exists (Py.varnames L). rewrite varnames_app. reflexivity.
  - unfold Py.walrus_vars. cbn [Py.walrus Py.get_python_patterns].
    change Py.WALRUS_ASSIGN
      with (assign_pattern "varname" Py.ident_start Py.ident_char ":=").
    change (id ++ codes " :=" ++ post) with (id ++ 32%N :: codes ":=" ++ post).
    replace (id ++ 32%N :: codes ":=" ++ post) with ((id ++ 32%N :: codes ":=") ++ post)
      by (rewrite <- app_assoc; reflexivity).
    rewrite finditer_match with (g := [("varname"%string, id)]).
    + reflexivity.
    + destruct id; discriminate.
    + rewrite <- app_assoc.
      apply (@assign_here "varname" Py.ident_start Py.ident_char ":="
               eq_refl eq_refl ltac:(discriminate) id post Hid).
  - unfold Py.equals_vars. cbn [Py.equals Py.get_python_patterns].
    change (codes " :=" ++ post) with (32%N :: 58%N :: 61%N :: post).
    rewrite py_equals_skips_name; [|apply py_identifier_chars, Hid|reflexivity|discriminate].
    rewrite !finditer_miss by reflexivity. reflexivity.
Qed.

Lemma py_walrus_assignment_counted_witness :
  (exists before,
      Py.walrus_vars Py.get_python_patterns
        (codes "if" ++ 40%N :: codes "n" ++ codes " :=" ++ codes " len(a)) > 10: pass")
      = before ++ codes "n" :: Py.walrus_vars Py.get_python_patterns
                                 (codes " len(a)) > 10: pass"))
  /\ Py.equals_vars Py.get_python_patterns (codes "n" ++ codes " :=" ++ codes " len(a)")
     = [].
Proof.
  destruct (@py_walrus_assignment_counted (codes "if") 40%N (codes "n")
              (codes " len(a)) > 10: pass") eq_refl eq_refl) as [H1 _].
  destruct (@py_walrus_assignment_counted [] 40%N (codes "n")
              (codes " len(a)") eq_refl eq_refl) as [_ [_ H3]].
  split; [exact H1|]. rewrite H3. vm_compute. reflexivity.
Defined.

(** The alternation of the augmented operators consumes each of the
    thirteen operators. *)
Lemma augmented_operator_here (op rest : text) (g : groups) (k : cont) :
  In op (map codes ["+="; "-="; "*="; "/="; "%="; "@="; "&="; "|="; "^=";
                    "//="; ">>="; "<<="; "**="]%string) ->
  rmatch (Alt (Seq (Chr Py.aug_op) (Word "="))
              (Alt (Word "//=") (Alt (Word ">>=") (Alt (Word "<<=") (Word "**=")))))
         (op ++ rest) g k
  = k rest g.
Proof.
  intros Hin. cbn [map In] in Hin.
  repeat (destruct Hin as [<-|Hin]; [cbv; destruct (k rest g); reflexivity|]).
  destruct Hin.
Qed.

Lemma augmented_here (id op rest : text) :
  Py.is_identifier id = true ->
  In op (map codes ["+="; "-="; "*="; "/="; "%="; "@="; "&="; "|="; "^=";
                    "//="; ">>="; "<<="; "**="]%string) ->
  match_here Py.AUGMENTED_ASSIGN (id ++ 32%N :: op ++ rest)
  = Some ([("operator"%string, op); ("varname"%string, id)], rest).
Proof.
  intros Hid Hop. unfold match_here, Py.AUGMENTED_ASSIGN, Py.IDENTIFIER_NAMED, Py.IDENTIFIER_RAW.
  rewrite rmatch_seq. apply rmatch_named_ident; [exact Hid|reflexivity|].
  rewrite rmatch_seq. unfold Py.WHITESPACE.
  change (32%N :: op ++ rest) with ([32%N] ++ op ++ rest).
  apply rmatch_run; [reflexivity| |].
  - cbn [map In] in Hop.
    repeat (destruct Hop as [<-|Hop]; [reflexivity|]). destruct Hop.
  - rewrite rmatch_group, augmented_operator_here by exact Hop.
    rewrite firstn_consumed. reflexivity.
Qed.

(** X10. For Python, an augmented assignment [<id> <op>], for each of the
    thirteen operators [+= -= *= /= %= @= &= |= ^= //= >>= <<= **=], is
    counted once by the augmented rule and is not counted by the
    simple-assignment rule: both rules go on with what follows the
    operator. *)
Theorem py_augmented_assignment_counted (id op rest : text) :
  Py.is_identifier id = true ->
  In op (map codes ["+="; "-="; "*="; "/="; "%="; "@="; "&="; "|="; "^=";
                    "//="; ">>="; "<<="; "**="]%string) ->
  Py.augmented_vars Py.get_python_patterns (id ++ codes " " ++ op ++ rest)
  = id :: Py.augmented_vars Py.get_python_patterns rest
  /\ Py.equals_vars Py.get_python_patterns (id ++ codes " " ++ op ++ rest)
     = Py.equals_vars Py.get_python_patterns rest.
Proof.
  intros Hid Hop. change (codes " " ++ op ++ rest) with (32%N :: op ++ rest). split.
  - unfold Py.augmented_vars. cbn [Py.augmented Py.get_python_patterns].
    replace (id ++ 32%N :: op ++ rest) with ((id ++ 32%N :: op) ++ rest)
      by (rewrite <- app_assoc; reflexivity).
    rewrite finditer_match
      with (g := [("operator"%string, op); ("varname"%string, id)]).
    + reflexivity.
    + destruct id; discriminate.
    + rewrite <- app_assoc. apply augmented_here; assumption.
  - unfold Py.equals_vars. cbn [Py.equals Py.get_python_patterns].
    destruct (py_identifier_chars _ Hid) as [_ Hchars].
    cbn [map In] in Hop.
    repeat (destruct Hop as [<-|Hop];
            [cbn [codes list_ascii_of_string map app N_of_ascii N_of_digits N.add N.mul];
             rewrite py_equals_skips_name by (exact Hchars || reflexivity || discriminate);
             rewrite !finditer_miss by reflexivity; reflexivity|]).
    destruct Hop.
Qed.

Lemma py_augmented_assignment_counted_witness :
  Py.augmented_vars Py.get_python_patterns (codes "total" ++ codes " " ++ codes "//=" ++ codes " 2")
  = [codes "total"]
  /\ Py.equals_vars Py.get_python_patterns (codes "total" ++ codes " " ++ codes "//=" ++ codes " 2")
     = [].
Proof.
  destruct (@py_augmented_assignment_counted (codes "total") (codes "//=") (codes " 2"))
    as [H1 H2].
  - reflexivity.
  - cbn [map In]. auto 12.
  - rewrite H1, H2. vm_compute. auto.
Defined.

(* ------------------------------------------------------------------ *)
(** ** The simple-assignment pattern of the Python counter *)

Lemma py_equals_match_inv (s : text) (g : groups) (rest : text) :
  match_here Py.EQUALS_ASSIGN s = Some (g, rest) ->
  exists id sp,
    s = id ++ sp ++ codes "=" ++ rest
    /\ Py.is_identifier id = true /\ forallb is_space sp = true
    /\ stops (is_char "=") rest = true /\ g = [("varname"%string, id)].
Proof.
  unfold match_here, Py.EQUALS_ASSIGN, Py.IDENTIFIER_NAMED. intros H.
  rewrite rmatch_seq, rmatch_group in H.
  apply rmatch_sound_plain in H; [|reflexivity]. destruct H as [id [s1 [-> [Hid H]]]].
  rewrite rmatch_seq in H.
  apply rmatch_sound_plain in H; [|reflexivity]. destruct H as [sp [s2 [-> [Hsp H]]]].
  rewrite rmatch_seq in H.
  apply rmatch_sound_plain in H; [|reflexivity]. destruct H as [w [s3 [-> [Hw H]]]].
  apply lang_word in Hw. subst w. apply lang_star_class in Hsp.
  rewrite firstn_consumed in H. cbn [rmatch] in H.
  destruct (rmatch (Word "=") s3 _ _) eqn:E; [discriminate H|].
  injection H as <- <-. exists id, sp. repeat split; auto.
  - apply lang_py_identifier, Hid.
  - destruct s3 as [|c s3]; [reflexivity|].
    unfold Word in E. cbn [list_ascii_of_string Lit] in E. rewrite rmatch_chr in E.
    cbn [stops]. destruct (is_char "=" c); [discriminate E|reflexivity].
Qed.

Lemma py_equals_here_spaces (id sp rest : text) :
  Py.is_identifier id = true -> forallb is_space sp = true ->
  stops (is_char "=") rest = true ->
  match_here Py.EQUALS_ASSIGN (id ++ sp ++ codes "=" ++ rest)
  = Some ([("varname"%string, id)], rest).
Proof.
  intros Hid Hsp Hrest.
  unfold match_here, Py.EQUALS_ASSIGN, Py.IDENTIFIER_NAMED, Py.IDENTIFIER_RAW.
  rewrite rmatch_seq. apply rmatch_named_ident; [exact Hid| |].
  - destruct sp as [|s0 sp]; [reflexivity|]. cbn [forallb] in Hsp.
    apply andb_true_iff in Hsp. destruct Hsp as [Hs0 _].
    cbn [app stops]. rewrite (space_is_no_name_char _ Hs0). reflexivity.
  - rewrite rmatch_seq. unfold Py.WHITESPACE.
    apply rmatch_run; [exact Hsp|reflexivity|].
    rewrite rmatch_seq, rmatch_word.
    destruct rest as [|c rest]; [reflexivity|].
    simpl in Hrest. apply negb_true_iff in Hrest.
    cbn [Word list_ascii_of_string Lit rmatch]. rewrite Hrest. reflexivity.
Qed.

(** X11. The simple-assignment pattern of the Python counter matches at the
    head of a text exactly when the text is an identifier, whitespace and
    [=], not followed by another [=]; the match then binds the whole
    identifier and stops behind the [=]. *)
Theorem py_simple_assignment_match (s : text) (g : groups) (rest : text) :
  match_here Py.EQUALS_ASSIGN s = Some (g, rest)
  <-> exists id sp,
        s = id ++ sp ++ codes "=" ++ rest
        /\ Py.is_identifier id = true /\ forallb is_space sp = true
        /\ stops (is_char "=") rest = true /\ g = [("varname"%string, id)].
Proof.
  split.
  - apply py_equals_match_inv.
  - intros [id [sp [-> [Hid [Hsp [Hrest ->]]]]]]. apply py_equals_here_spaces; assumption.
Qed.

Lemma py_simple_assignment_match_witness :
  match_here Py.EQUALS_ASSIGN (codes "total  = 1; n == 2")
  = Some ([("varname"%string, codes "total")], codes " 1; n == 2").
Proof.
  apply (proj2 (@py_simple_assignment_match (codes "total  = 1; n == 2")
                  [("varname"%string, codes "total")] (codes " 1; n == 2"))).
  exists (codes "total"), (codes "  "). repeat split; reflexivity.
Defined.

(** The simple-assignment pattern has no match that begins inside the name
    of a comparison [<name> <spaces> ==]. *)
Lemma py_equals_not_at_comparison (t sp e : text) :
  forallb Py.ident_char t = true -> forallb is_space sp = true ->
  match_here Py.EQUALS_ASSIGN (t ++ sp ++ codes "==" ++ e) = None.
Proof.
  intros Ht Hsp.
  destruct (match_here Py.EQUALS_ASSIGN (t ++ sp ++ codes "==" ++ e)) as [[g rest]|] eqn:E;
    [exfalso|reflexivity].
  apply py_equals_match_inv in E.
  destruct E as [idw [sp' [Hw [Hidw [Hsp' [Hrest _]]]]]].
  destruct (py_identifier_chars _ Hidw) as [_ Hchars].
  assert (Hb : exists b Y, sp ++ codes "==" ++ e = b :: Y /\ Py.ident_char b = false).
  { destruct sp as [|s0 sp].
    - exists 61%N, (61%N :: e). split; reflexivity.
    - exists s0, (sp ++ codes "==" ++ e). split; [reflexivity|].
      cbn [forallb] in Hsp. apply andb_true_iff in Hsp.
      apply space_is_no_name_char. tauto. }
  destruct Hb as [b [Y [EY Hb]]]. rewrite EY in Hw. symmetry in Hw.
  destruct (@run_stops_before _ _ _ _ _ _ Hchars Hb Hw) as [u' [-> E1]].
  rewrite <- EY in E1. clear EY Hb Hw.
  destruct u' as [|c u'].
  - cbn [app] in E1.
    change (sp ++ codes "==" ++ e) with (sp ++ 61%N :: 61%N :: e) in E1.
    destruct (@run_stops_before _ _ _ _ _ _ Hsp' (eq_refl : is_space 61 = false) E1)
      as [u2 [-> E2]].
    destruct u2 as [|x u2]; cbn [app codes list_ascii_of_string map] in E2.
    + injection E2 as ->. discriminate Hrest.
    + injection E2 as <- _. rewrite forallb_app in Hsp. apply andb_true_iff in Hsp.
      destruct Hsp as [_ Hsp]. discriminate Hsp.
  - rewrite forallb_app in Ht. apply andb_true_iff in Ht. destruct Ht as [_ Ht].
    cbn [forallb] in Ht. apply andb_true_iff in Ht. destruct Ht as [Hc _].
    destruct (py_ident_char_plain _ Hc) as [Hcs Hce].
    destruct sp' as [|s0 sp']; cbn [app] in E1.
    + injection E1 as E1 _. apply Hce. symmetry. exact E1.
    + injection E1 as -> _. cbn [forallb] in Hsp'. rewrite Hcs in Hsp'. discriminate Hsp'.
Qed.

(** X12. For Python, the name of an equality comparison [<id> ==], with any
    whitespace between the two, is not counted by the simple-assignment
    rule: the rule counts only what it counts in the text behind [==]. *)
Theorem py_comparison_not_counted (id sp e : text) :
  Py.is_identifier id = true -> forallb is_space sp = true ->
  Py.equals_vars Py.get_python_patterns (id ++ sp ++ codes "==" ++ e)
  = Py.equals_vars Py.get_python_patterns e.
Proof.
  intros Hid Hsp. unfold Py.equals_vars. cbn [Py.equals Py.get_python_patterns].
  f_equal. f_equal.
  destruct (py_identifier_chars _ Hid) as [_ Hchars]. clear Hid.
  induction id as [|c t IH].
  - cbn [app]. induction sp as [|s0 sp IHsp].
    + cbn [app]. change (codes "==" ++ e) with (61%N :: 61%N :: e).
      rewrite !finditer_miss by reflexivity. reflexivity.
    + cbn [forallb] in Hsp. apply andb_true_iff in Hsp. destruct Hsp as [Hs0 Hsp].
      cbn [app]. rewrite finditer_miss; [exact (IHsp Hsp)|].
      apply (@py_equals_not_at_comparison [] (s0 :: sp) e eq_refl).
      cbn [forallb]. rewrite Hs0, Hsp. reflexivity.
  - cbn [app]. rewrite finditer_miss.
    + apply IH. cbn [forallb] in Hchars. apply andb_true_iff in Hchars. tauto.
    + apply (@py_equals_not_at_comparison (c :: t) sp e Hchars Hsp).
Qed.

Lemma py_comparison_not_counted_witness :
  Py.equals_vars Py.get_python_patterns (codes "count" ++ codes "  " ++ codes "==" ++ codes " 3")
  = [].
Proof.
  rewrite (@py_comparison_not_counted (codes "count") (codes "  ") (codes " 3"));
    reflexivity.
Defined.

(* ------------------------------------------------------------------ *)
(** ** Buffers without assignment syntax *)

Lemma py_equals_holds_equals (w : text) :
  lang Py.EQUALS_ASSIGN w -> existsb (is_char "=") w = true.
Proof.
  intros H. apply lang_py_equals in H. destruct H as [idw [sp [-> _]]].
  rewrite !existsb_app. simpl. rewrite !orb_true_r. reflexivity.
Qed.

Lemma py_walrus_holds_equals (w : text) :
  lang Py.WALRUS_ASSIGN w -> existsb (is_char "=") w = true.
Proof.
  intros [w1 [w2 [-> [_ [w3 [w4 [-> [_ H]]]]]]]]. apply lang_word in H. subst.
  rewrite !existsb_app. simpl. rewrite !orb_true_r. reflexivity.
Qed.

Lemma py_multi_holds_equals (w : text) :
  lang Py.MULTI_ASSIGN w -> existsb (is_char "=") w = true.
Proof.
  intros [w1 [w2 [-> [_ [w3 [w4 [-> [_ H]]]]]]]]. apply lang_word in H. subst.
  rewrite !existsb_app. simpl. rewrite !orb_true_r. reflexivity.
Qed.

Lemma py_augmented_holds_equals (w : text) :
  lang Py.AUGMENTED_ASSIGN w -> existsb (is_char "=") w = true.
Proof.
  intros [w1 [w2 [-> [_ [w3 [w4 [-> [_ H]]]]]]]].
  rewrite !existsb_app.
  assert (Hop : existsb (is_char "=") w4 = true).
  { cbn [lang] in H.
    destruct H as [[a [b [-> [_ H]]]]|[H|[H|[H|H]]]]; apply lang_word in H; subst;
      rewrite ?existsb_app; simpl; rewrite ?orb_true_r; reflexivity. }
  rewrite Hop, !orb_true_r. reflexivity.
Qed.

Lemma for_loop_starts_with_for (t : text) :
  match_here Py.FOR_LOOP t <> None -> starts_with (codes "for") t = true.
Proof.
  intros H. destruct (match_here Py.FOR_LOOP t) as [[g rest]|] eqn:E; [|congruence].
  apply match_here_sound in E. destruct E as [w [-> [w1 [w2 [-> [H1 _]]]]]].
  apply lang_word in H1. subst. rewrite <- app_assoc. apply starts_with_app.
Qed.

(** X13. A file that was read and holds no assignment syntax gives the empty
    mapping and a true success flag: for Python, a text without [=] and
    without the word [for]; for R, a text without [<], without [:] and
    without the word [mutate].  The empty file is such a text. *)
Theorem no_assignment_syntax_gives_empty_mapping (content : text) :
  (existsb (is_char "=") content = false -> occurs (codes "for") content = false ->
   Py.analyze_python_file (Some content) Py.get_python_patterns = ([], true))
  /\ (existsb (is_char "<") content = false -> existsb (is_char ":") content = false ->
      occurs (codes "mutate") content = false ->
      R.analyze_r_file (Some content) R.get_r_patterns = ([], true)).
Proof.
  split.
  - intros Heq Hfor. cbn [Py.analyze_python_file]. f_equal.
    unfold Py.scan_content, Py.equals_vars, Py.walrus_vars, Py.multi_vars,
      Py.augmented_vars, Py.for_vars.
    cbn [Py.equals Py.walrus Py.multi_assign Py.augmented Py.for_loop Py.get_python_patterns].
    rewrite (@finditer_without Py.EQUALS_ASSIGN (is_char "=") content
               py_equals_holds_equals Heq).
    rewrite (@finditer_without Py.WALRUS_ASSIGN (is_char "=") content
               py_walrus_holds_equals Heq).
    rewrite (@finditer_without Py.MULTI_ASSIGN (is_char "=") content
               py_multi_holds_equals Heq).
    rewrite (@finditer_without Py.AUGMENTED_ASSIGN (is_char "=") content
               py_augmented_holds_equals Heq).
    rewrite (@finditer_not_occurring Py.FOR_LOOP (codes "for") content
               for_loop_starts_with_for Hfor).
    reflexivity.
  - intros H1 H2 H3. cbn [R.analyze_r_file]. f_equal.
    apply r_scan_content_nothing; assumption.
Qed.

Lemma no_assignment_syntax_gives_empty_mapping_witness :
  Py.analyze_python_file (Some (codes "import os; print(os.getcwd())"))
    Py.get_python_patterns = ([], true)
  /\ R.analyze_r_file (Some (codes "library(dplyr); print(head(df))")) R.get_r_patterns
     = ([], true)
  /\ Py.analyze_python_file (Some []) Py.get_python_patterns = ([], true).
Proof.
  destruct (@no_assignment_syntax_gives_empty_mapping (codes "import os; print(os.getcwd())"))
    as [H1 _].
  destruct (@no_assignment_syntax_gives_empty_mapping (codes "library(dplyr); print(head(df))"))
    as [_ H2].
  destruct (@no_assignment_syntax_gives_empty_mapping []) as [H3 _].
  split; [apply H1; reflexivity|]. split; [apply H2; reflexivity|apply H3; reflexivity].
Defined.

(* ------------------------------------------------------------------ *)
(** ** The combined report *)

Section StableSortFacts.
Variable A : Type.
Variable key : A -> nat.

Lemma insert_desc_head (x : A) (l : list A) :
  Forall (desc key x) l -> insert_desc key x l = x :: l.
Proof.
  intros H. destruct l as [|y l]; [reflexivity|].
  inversion H as [|? ? Hy _]; subst. unfold desc in Hy. cbn [insert_desc].
  destruct (key y <=? key x) eqn:E; [reflexivity|].
  apply Nat.leb_gt in E. lia.
Qed.

(** Sorting a list that is in decreasing order leaves it as it is. *)
Lemma sorted_desc_fixed (l : list A) :
  StronglySorted (desc key) l -> sorted_desc key l = l.
Proof.
  induction 1 as [|x l Hs IH Hx]; [reflexivity|].
  cbn [sorted_desc fold_right]. fold (sorted_desc key l).
  rewrite IH. apply insert_desc_head, Hx.
Qed.

Lemma insert_desc_filter (q : A -> bool) (x : A) (l : list A) :
  StronglySorted (desc key) l ->
  filter q (insert_desc key x l)
  = if q x then insert_desc key x (filter q l) else filter q l.
Proof.
  induction 1 as [|y l Hs IH Hy].
  - simpl. destruct (q x); reflexivity.
  - cbn [insert_desc]. destruct (key y <=? key x) eqn:E.
    + apply Nat.leb_le in E.
      assert (Hhead : insert_desc key x (filter q (y :: l)) = x :: filter q (y :: l)).
      { apply insert_desc_head.
        assert (Hall : Forall (desc key x) (y :: l)).
        { constructor; [exact E|].
          eapply Forall_impl; [|exact Hy]. unfold desc. intros; lia. }
        apply Forall_forall. intros z Hz. apply filter_In in Hz.
        exact (proj1 (Forall_forall _ _) Hall z (proj1 Hz)). }
      rewrite Hhead. cbn [filter]. destruct (q x); reflexivity.
    + cbn [filter]. rewrite IH.
      destruct (q y) eqn:Qy; destruct (q x) eqn:Qx; try reflexivity.
      cbn [insert_desc]. rewrite E. reflexivity.
Qed.

(** The stable sort commutes with every selection of items. *)
Lemma sorted_desc_filter (q : A -> bool) (l : list A) :
  filter q (sorted_desc key l) = sorted_desc key (filter q l).
Proof.
  induction l as [|x l IH]; [reflexivity|].
  cbn [sorted_desc fold_right filter]. fold (sorted_desc key l).
  rewrite insert_desc_filter by apply sorted_desc_sorted.
  rewrite IH. destruct (q x); reflexivity.
Qed.
End StableSortFacts.

Lemma tagged_rows_sorted (lang : text) (results : list (text * nat)) :
  StronglySorted (desc snd) results ->
  StronglySorted (desc (fun x : text * nat * text => snd (fst x)))
    (map (fun e : text * nat => (fst e, snd e, lang)) results).
Proof.
  induction 1 as [|e l Hs IH He]; [constructor|].
  cbn [map]. constructor; [exact IH|].
  apply Forall_map. eapply Forall_impl; [|exact He]. intros a Ha. exact Ha.
Qed.

Lemma tagged_rows_filter (lang lang' : text) (results : list (text * nat)) :
  filter (fun x : text * nat * text => text_eqb (snd x) lang')
         (map (fun e : text * nat => (fst e, snd e, lang)) results)
  = if text_eqb lang lang' then map (fun e : text * nat => (fst e, snd e, lang)) results
    else [].
Proof.
  induction results as [|e l IH]; [destruct (text_eqb lang lang'); reflexivity|].
  cbn [map filter snd]. rewrite IH. destruct (text_eqb lang lang'); reflexivity.
Qed.

(** X14. The list that [generate_combined_report] writes out holds the rows
    of both rankings, each tagged with its language, and nothing else; it is
    in decreasing order of count; rows of equal count keep the order of the
    input, the Python rows before the R rows; and when a ranking is itself
    in decreasing order of count, as the rankings of [count_variables] are,
    the rows of its language are, in order, that ranking. *)
Theorem combined_report_interleaves_the_rankings (py_results r_results : list (text * nat)) :
  Permutation (Report.combined py_results r_results)
    (map (fun e : text * nat => (fst e, snd e, codes "python")) py_results
     ++ map (fun e : text * nat => (fst e, snd e, codes "r")) r_results)
  /\ StronglySorted (desc (fun x : text * nat * text => snd (fst x)))
       (Report.combined py_results r_results)
  /\ (forall c,
        filter (fun x : text * nat * text => snd (fst x) =? c)
               (Report.combined py_results r_results)
        = map (fun e : text * nat => (fst e, snd e, codes "python"))
              (filter (fun e => snd e =? c) py_results)
          ++ map (fun e : text * nat => (fst e, snd e, codes "r"))
                 (filter (fun e => snd e =? c) r_results))
  /\ (StronglySorted (desc snd) py_results ->
      filter (fun x : text * nat * text => text_eqb (snd x) (codes "python"))
             (Report.combined py_results r_results)
      = map (fun e : text * nat => (fst e, snd e, codes "python")) py_results)
  /\ (StronglySorted (desc snd) r_results ->
      filter (fun x : text * nat * text => text_eqb (snd x) (codes "r"))
             (Report.combined py_results r_results)
      = map (fun e : text * nat => (fst e, snd e, codes "r")) r_results).
Proof.
  unfold Report.combined. split; [apply sorted_desc_perm|].
  split; [apply sorted_desc_sorted|]. split; [|split].
  - intros c. rewrite sorted_desc_stable, filter_app.
    f_equal.
    + induction py_results as [|e l IH]; [reflexivity|].
      cbn [map filter fst snd]. destruct (snd e =? c); cbn [map]; rewrite IH; reflexivity.
    + induction r_results as [|e l IH]; [reflexivity|].
      cbn [map filter fst snd]. destruct (snd e =? c); cbn [map]; rewrite IH; reflexivity.
  - intros Hs. rewrite sorted_desc_filter, filter_app, !tagged_rows_filter.
    change (text_eqb (codes "python") (codes "python")) with true.
    change (text_eqb (codes "r") (codes "python")) with false.
    rewrite app_nil_r. apply sorted_desc_fixed, tagged_rows_sorted, Hs.
  - intros Hs. rewrite sorted_desc_filter, filter_app, !tagged_rows_filter.
    change (text_eqb (codes "python") (codes "r")) with false.
    change (text_eqb (codes "r") (codes "r")) with true.
    cbn [app]. apply sorted_desc_fixed, tagged_rows_sorted, Hs.
Qed.

Lemma combined_report_interleaves_the_rankings_witness :
  filter (fun x : text * nat * text => text_eqb (snd x) (codes "python"))
         (Report.combined [(codes "x", 2); (codes "count", 2); (codes "y", 1)]
                          [(codes "z", 3); (codes "count", 2)])
  = [(codes "x", 2, codes "python"); (codes "count", 2, codes "python");
     (codes "y", 1, codes "python")]
  /\ filter (fun x : text * nat * text => text_eqb (snd x) (codes "r"))
            (Report.combined [(codes "x", 2); (codes "count", 2); (codes "y", 1)]
                             [(codes "z", 3); (codes "count", 2)])
     = [(codes "z", 3, codes "r"); (codes "count", 2, codes "r")].
Proof.
  destruct (@combined_report_interleaves_the_rankings
              [(codes "x", 2); (codes "count", 2); (codes "y", 1)]
              [(codes "z", 3); (codes "count", 2)]) as [_ [_ [_ [Hp Hr]]]].
  split.
  - apply Hp. repeat constructor; unfold desc; simpl; lia.
  - apply Hr. repeat constructor; unfold desc; simpl; lia.
Defined.

(* ------------------------------------------------------------------ *)
(** ** The files that [save_results] writes *)

Lemma codes_inj (s s' : string) : codes s = codes s' -> s = s'.
Proof.
  unfold codes. intros H.
  rewrite <- (string_of_list_ascii_of_string s), <- (string_of_list_ascii_of_string s').
  f_equal.
  revert H. generalize (list_ascii_of_string s) (list_ascii_of_string s').
  induction l as [|a l IH]; intros [|b l'] H; try discriminate; [reflexivity|].
  cbn [map] in H. injection H as Hab Hl.
  f_equal; [|apply IH, Hl].
  rewrite <- (ascii_N_embedding a), <- (ascii_N_embedding b), Hab. reflexivity.
Qed.

Lemma str_of_nat_inj (n m : nat) : Report.str_of_nat n = Report.str_of_nat m -> n = m.
Proof.
  unfold Report.str_of_nat. intros H. apply codes_inj in H.
  assert (Hu : Nat.to_uint n = Nat.to_uint m).
  { assert (Hs : Some (Nat.to_uint n) = Some (Nat.to_uint m)).
    { rewrite <- !DecimalString.NilEmpty.usu, H. reflexivity. }
    injection Hs as Hs. exact Hs. }
  apply DecimalNat.Unsigned.to_uint_inj, Hu.
Qed.

Lemma uint_digits (d : Decimal.uint) :
  forallb is_digit (codes (DecimalString.NilEmpty.string_of_uint d)) = true.
Proof. induction d; cbn; try assumption; reflexivity. Qed.

Lemma str_of_nat_digits (n : nat) : forallb is_digit (Report.str_of_nat n) = true.
Proof. apply uint_digits. Qed.

Lemma digits_hold_no (c : N) (w : text) :
  is_digit c = false -> forallb is_digit w = true -> existsb (N.eqb c) w = false.
Proof.
  intros Hc. induction w as [|x w IH]; [reflexivity|].
  cbn [forallb existsb]. intros H. apply andb_true_iff in H. destruct H as [Hx Hw].
  rewrite (IH Hw), orb_false_r.
  destruct (N.eqb_spec c x) as [->|_]; [congruence|reflexivity].
Qed.

(** Two texts cut at their first separator agree part by part. *)
Lemma cut_at_first (c : N) (a a' b b' : text) :
  existsb (N.eqb c) a = false -> existsb (N.eqb c) a' = false ->
  a ++ c :: b = a' ++ c :: b' -> a = a' /\ b = b'.
Proof.
  revert a'. induction a as [|x a IH]; intros [|y a'] Ha Ha' H; cbn [app] in H.
  - injection H as H. split; [reflexivity|exact H].
  - injection H as Hc _. subst y. cbn [existsb] in Ha'. rewrite N.eqb_refl in Ha'.
    discriminate.
  - injection H as Hc _. subst x. cbn [existsb] in Ha. rewrite N.eqb_refl in Ha.
    discriminate.
  - injection H as Hxy H. subst y. cbn [existsb] in Ha, Ha'.
    apply orb_false_iff in Ha, Ha'.
    destruct (IH a' (proj2 Ha) (proj2 Ha') H) as [-> ->]. split; reflexivity.
Qed.

Lemma var_row_app (e : text * nat) (rest : text) :
  Report.var_row e ++ rest
  = fst e ++ Report.comma :: (Report.str_of_nat (snd e) ++ Report.newline :: rest).
Proof.
  unfold Report.var_row. rewrite <- !app_assoc. cbn [app].
  rewrite <- app_assoc. reflexivity.
Qed.

Lemma var_rows_inj (results1 results2 : list (text * nat)) :
  Forall (fun e : text * nat => existsb (N.eqb Report.comma) (fst e) = false) results1 ->
  Forall (fun e : text * nat => existsb (N.eqb Report.comma) (fst e) = false) results2 ->
  flat_map Report.var_row results1 = flat_map Report.var_row results2 ->
  results1 = results2.
Proof.
  intros H1. revert results2.
  induction H1 as [|e1 l1 He1 _ IH]; intros results2 H2 H; destruct H2 as [|e2 l2 He2 H2].
  - reflexivity.
  - cbn [flat_map] in H. rewrite var_row_app in H.
    destruct (fst e2); discriminate H.
  - cbn [flat_map] in H. rewrite var_row_app in H.
    destruct (fst e1); discriminate H.
  - cbn [flat_map] in H. rewrite !var_row_app in H.
    apply cut_at_first in H; [|assumption|assumption].
    destruct H as [Hname H].
    apply cut_at_first in H;
      [|apply digits_hold_no; [reflexivity|apply str_of_nat_digits]
       |apply digits_hold_no; [reflexivity|apply str_of_nat_digits]].
    destruct H as [Hcount H]. apply str_of_nat_inj in Hcount.
    rewrite (IH l2 H2 H). destruct e1, e2. cbn [fst snd] in *. subst. reflexivity.
Qed.


Lemma identifier_holds_no_comma (p0 p : N -> bool) (id : text) :
  p0 Report.comma = false -> p Report.comma = false ->
  is_ident p0 p id = true -> existsb (N.eqb Report.comma) id = false.
Proof.
  intros H0 Hp. destruct id as [|c cs]; [discriminate|].
  cbn [is_ident existsb]. intros H. apply andb_true_iff in H. destruct H as [Hc Hcs].
  apply orb_false_iff. split.
  - destruct (N.eqb_spec Report.comma c) as [<-|_]; [congruence|reflexivity].
  - induction cs as [|x cs IH]; [reflexivity|].
    cbn [forallb existsb] in *. apply andb_true_iff in Hcs. destruct Hcs as [Hx Hcs].
    rewrite (IH Hcs), orb_false_r.
    destruct (N.eqb_spec Report.comma x) as [<-|_]; [congruence|reflexivity].
Qed.






(** X16. A ranking of [count_variables] is read back from its CSV with no
    proviso, because its names are identifiers: two runs of a counter that
    give the same CSV gave the same ranking. *)
Theorem saved_ranking_determines_the_ranking
    (directory1 directory2 : text) (t1 t2 : dirtree) :
  (Report.var_counts_csv (fst (Py.count_variables directory1 t1))
   = Report.var_counts_csv (fst (Py.count_variables directory2 t2)) ->
   fst (Py.count_variables directory1 t1) = fst (Py.count_variables directory2 t2))
  /\ (Report.var_counts_csv (fst (R.count_variables directory1 t1))
      = Report.var_counts_csv (fst (R.count_variables directory2 t2)) ->
      fst (R.count_variables directory1 t1) = fst (R.count_variables directory2 t2)).
Proof.
  assert (Hpy : forall d t,
             Forall (fun e : text * nat => existsb (N.eqb Report.comma) (fst e) = false)
                    (fst (Py.count_variables d t))).
  { intros d t.
    destruct (@ranking_entries Py.analyze (fun v => Py.is_identifier v = true)
                py_analyze_nodup py_analyze_entries (Py.candidates d t)) as [_ [H _]].
    eapply Forall_impl; [|exact H]. intros e [He _].
    apply (@identifier_holds_no_comma Py.ident_start Py.ident_char (fst e));
      [reflexivity|reflexivity|exact He]. }
  assert (Hr : forall d t,
             Forall (fun e : text * nat => existsb (N.eqb Report.comma) (fst e) = false)
                    (fst (R.count_variables d t))).
  { intros d t.
    destruct (@ranking_entries R.analyze (fun v => R.is_identifier v = true)
                r_analyze_nodup r_analyze_entries (R.candidates d t)) as [_ [H _]].
    eapply Forall_impl; [|exact H]. intros e [He _].
    apply (@identifier_holds_no_comma R.ident_start R.ident_char (fst e));
      [reflexivity|reflexivity|exact He]. }
  unfold Report.var_counts_csv. split; intros H.
  - apply app_inv_head in H. injection H as H. apply var_rows_inj; auto.
  - apply app_inv_head in H. injection H as H. apply var_rows_inj; auto.
Qed.

Lemma saved_ranking_determines_the_ranking_witness :
  fst (Py.count_variables (codes "a") demo_tree)
  = fst (Py.count_variables (codes "b/c") demo_tree)
  /\ fst (R.count_variables (codes "a") demo_tree)
     = fst (R.count_variables (codes "b/c") demo_tree).
Proof.
  destruct (@saved_ranking_determines_the_ranking (codes "a") (codes "b/c")
              demo_tree demo_tree) as [Hp Hr].
  split; [apply Hp|apply Hr]; vm_compute; reflexivity.
Defined.

(** X17. The two files of one call of [save_results] never collide, whatever
    the prefix: the second write cannot replace the first; and neither of
    them is the combined report under its default name. *)
Theorem save_results_writes_distinct_files
    (results : list (text * nat)) (processed_files : list text) (prefix : text) :
  NoDup (codes "combined_vars.csv"
         :: map fst (fst (Report.save_results results processed_files prefix))).
Proof.
  cbn [Report.save_results fst map].
  assert (Hvars : codes "combined_vars.csv" <> prefix ++ codes "_var_counts.csv").
  { intros H. apply (f_equal (@rev N)) in H. rewrite rev_app_distr in H.
    cbn in H. discriminate H. }
  assert (Hfiles : codes "combined_vars.csv"
                   <> codes "processed_" ++ prefix ++ codes "_files.txt").
  { intros H. apply (f_equal (@rev N)) in H. rewrite !rev_app_distr in H.
    cbn in H. discriminate H. }
  assert (Hboth : prefix ++ codes "_var_counts.csv"
                  <> codes "processed_" ++ prefix ++ codes "_files.txt").
  { intros H. apply (f_equal (@rev N)) in H. rewrite !rev_app_distr in H.
    cbn in H. discriminate H. }
  repeat apply NoDup_cons; try apply NoDup_nil; cbn [In]; intuition congruence.
Qed.

(* ------------------------------------------------------------------ *)
(** ** The walrus rule of R *)

(** X18. For R, a walrus assignment [<id> :=] is counted wherever it stands:
    at the start of the buffer and behind any character that is no
    identifier character, whatever precedes it; so the local count of [id]
    is at least one. *)
Theorem r_walrus_assignment_counted (pre : text) (b : N) (id post : text) :
  R.ident_char b = false -> R.is_identifier id = true ->
  (exists before,
      R.walrus_vars R.get_r_patterns (pre ++ b :: id ++ codes " :=" ++ post)
      = before ++ id :: R.walrus_vars R.get_r_patterns post)
  /\ R.walrus_vars R.get_r_patterns (id ++ codes " :=" ++ post)
     = id :: R.walrus_vars R.get_r_patterns post
  /\ 1 <= dict_get (R.scan_content R.get_r_patterns
                      (pre ++ b :: id ++ codes " :=" ++ post)) id.
Proof.
  intros Hb Hid.
  assert (Hany : exists before,
             R.walrus_vars R.get_r_patterns (pre ++ b :: id ++ codes " :=" ++ post)
             = before ++ id :: R.walrus_vars R.get_r_patterns post).
  { destruct (@assign_anywhere "varname" R.ident_start R.ident_char ":="
                (fun c => @r_ident_start_facts ":=" c eq_refl) eq_refl eq_refl
                ltac:(discriminate) pre b id post Hb Hid)
      as [L HL].
    unfold R.walrus_vars. cbn [R.walrus R.get_r_patterns].
    change R.WALRUS_ASSIGN with (assign_pattern "varname" R.ident_start R.ident_char ":=").
    change (codes " :=" ++ post) with (32%N :: codes ":=" ++ post). rewrite HL.
    exists (R.varnames L). unfold R.varnames. rewrite map_app. reflexivity. }
  split; [exact Hany|]. split.
  - unfold R.walrus_vars. cbn [R.walrus R.get_r_patterns].
    change R.WALRUS_ASSIGN with (assign_pattern "varname" R.ident_start R.ident_char ":=").
    change (id ++ codes " :=" ++ post) with (id ++ 32%N :: codes ":=" ++ post).
    replace (id ++ 32%N :: codes ":=" ++ post) with ((id ++ 32%N :: codes ":=") ++ post)
      by (rewrite <- app_assoc; reflexivity).
    rewrite finditer_match with (g := [("varname"%string, id)]).
    + reflexivity.
    + destruct id; discriminate.
    + rewrite <- app_assoc.
      apply (@assign_here "varname" R.ident_start R.ident_char ":="
               eq_refl eq_refl ltac:(discriminate) id post Hid).
  - destruct Hany as [before Hbefore].
    rewrite r_scan_content_tally, dict_get_tally. unfold R.occurrences.
    rewrite Hbefore, !count_of_app, count_of_cons_same. lia.
Qed.

Lemma r_walrus_assignment_counted_witness :
  1 <= dict_get (R.scan_content R.get_r_patterns
                   (codes "dt[," ++ 32%N :: codes "ratio" ++ codes " :="
                    ++ codes " a / b]")) (codes "ratio").
Proof.
  apply (@r_walrus_assignment_counted (codes "dt[,") 32%N (codes "ratio")
           (codes " a / b]")); reflexivity.
Defined.

(* ------------------------------------------------------------------ *)
(** ** The two exclusion lists *)

(** X19. The R counter excludes exactly the directory names that the Python
    counter excludes, and [renv] besides; the match is on the whole name. *)
Theorem r_excludes_what_python_excludes_and_renv (dirname : text) :
  R.should_skip_directory dirname
  = Py.should_skip_directory dirname || text_eqb (codes "renv") dirname.
Proof.
  unfold R.should_skip_directory, Py.should_skip_directory.
  change R.skip_dirs with (Py.skip_dirs ++ [codes "renv"]).
  rewrite existsb_app. cbn [existsb]. rewrite orb_false_r. reflexivity.
Qed.
